(** * Alerting rules of the query service: common structs and methods

    A shallow embedding of [pkg/query-service/rules/alerting.go]: the alert
    entity and its resend policy, the comparison and match operators, the
    rule condition, the JSON codec of durations and the generator URL; with
    it the tuples of a user of package [authtypes], and the field keys of
    [pkg/types/telemetrytypes/field.go]. *)

From Stdlib Require Import ZArith Lia Bool List Ascii String.
From Stdlib Require Import Floats.SpecFloat.
From stdpp Require Import base gmap sets list strings sorting.

Local Open Scope Z_scope.

(** ** Machine integers *)

Module int64.
Definition max : Z := 2 ^ 63 - 1.
Definition min : Z := - 2 ^ 63.
(** Two's-complement wrap-around of a 64-bit signed integer. *)
Definition wrap (z : Z) : Z := (z + 2 ^ 63) mod 2 ^ 64 - 2 ^ 63.
Definition in_range (z : Z) : Prop := min <= z <= max.
End int64.

Module uint64.
Definition wrap (z : Z) : Z := z mod 2 ^ 64.
End uint64.

(** ** [float64]

    IEEE 754 binary64 numbers and their operations, rounding to nearest
    even, as [SpecFloat] specifies them. *)

Definition float64 := spec_float.

Module floats.

Definition prec : Z := 53.
Definition emax : Z := 1024.

(** [float64(z)] for an integer [z]. *)
Definition ofZ (z : Z) : float64 := binary_normalize prec emax z 0 false.

Definition mul (x y : float64) : float64 := SFmul prec emax x y.
Definition div (x y : float64) : float64 := SFdiv prec emax x y.

(** The integer part of a finite number, rounding towards zero. *)
Definition trunc (f : float64) : option Z :=
  match f with
  | S754_zero _ => Some 0
  | S754_finite s m e =>
      let a := if 0 <=? e then Zpos m * 2 ^ e else Zpos m / 2 ^ (- e) in
      Some (if s then - a else a)
  | S754_infinity _ | S754_nan => None
  end.

(** Go leaves the conversion of a number that the integer type cannot
    hold to the implementation: a platform fixes what it yields. *)
Record platform := mkPlatform {
  int64_of_unrepresentable : float64 -> Z;
  uint64_of_unrepresentable : float64 -> Z
}.

(** [int64(f)] *)
Definition toInt64 (p : platform) (f : float64) : Z :=
  match trunc f with
  | Some z => if (- 2 ^ 63 <=? z) && (z <? 2 ^ 63) then z
              else int64_of_unrepresentable p f
  | None => int64_of_unrepresentable p f
  end.

(** [uint64(f)] *)
Definition toUint64 (p : platform) (f : float64) : Z :=
  match trunc f with
  | Some z => if (0 <=? z) && (z <? 2 ^ 64) then z
              else uint64_of_unrepresentable p f
  | None => uint64_of_unrepresentable p f
  end.

(** A platform on which both conversions yield the bit pattern
    [0x8000000000000000]. *)
Definition indefinite : platform :=
  mkPlatform (fun _ => - 2 ^ 63) (fun _ => 2 ^ 63).

End floats.

(** ** Results

    What a fallible function of the standard library returns: a value, or
    an error, kept as its text (abridged: Go wraps and quotes some of
    them). *)
Inductive result (A : Type) :=
| Ok (a : A)
| Err (text : string).
Arguments Ok {A} a.
Arguments Err {A} text.

#[global] Instance result_bind : MBind result := fun A B k r =>
  match r with
  | Ok a => k a
  | Err e => Err e
  end.

(** ** Package [strings] and slicing

    Go strings are byte sequences; an index is an [int], [-1] standing for
    an absent match. *)

Module strings.

(** [len(s)] *)
Definition len (s : string) : Z := Z.of_nat (String.length s).

(** [s[:i]] for [0 <= i <= len(s)]. *)
Fixpoint take (n : nat) (s : string) : string :=
  match n, s with
  | S n, String c s => String c (take n s)
  | _, _ => ""
  end.

(** [s[i:]] for [0 <= i <= len(s)]. *)
Fixpoint drop (n : nat) (s : string) : string :=
  match n, s with
  | S n, String _ s => drop n s
  | _, _ => s
  end.

Definition slice_to (s : string) (i : Z) : string := take (Z.to_nat i) s.
Definition slice_from (s : string) (i : Z) : string := drop (Z.to_nat i) s.
Definition slice (s : string) (i j : Z) : string := slice_to (slice_from s i) (j - i).

(** [strings.HasPrefix(s, prefix)] *)
Fixpoint HasPrefix (s prefix : string) {struct prefix} : bool :=
  match prefix, s with
  | "", _ => true
  | String c p, String d s => Ascii.eqb c d && HasPrefix s p
  | String _ _, "" => false
  end.

(** [strings.HasSuffix(s, suffix)] *)
Definition HasSuffix (s suffix : string) : bool :=
  (len suffix <=? len s) &&
  String.eqb (slice_from s (len s - len suffix)) suffix.

(** [strings.Index(s, substr)], scanning from offset [i]. *)
Fixpoint IndexFrom (i : Z) (s substr : string) : Z :=
  if HasPrefix s substr then i
  else match s with
       | "" => -1
       | String _ s => IndexFrom (i + 1) s substr
       end.
Definition Index (s substr : string) : Z := IndexFrom 0 s substr.

(** [strings.LastIndex(s, substr)]: the greatest offset of a match. *)
Fixpoint LastIndexFrom (i : Z) (s substr : string) : Z :=
  match s with
  | "" => if HasPrefix s substr then i else -1
  | String _ s' =>
      let later := LastIndexFrom (i + 1) s' substr in
      if 0 <=? later then later
      else if HasPrefix s substr then i else -1
  end.
Definition LastIndex (s substr : string) : Z := LastIndexFrom 0 s substr.

(** [strings.Contains(s, substr)] *)
Definition Contains (s substr : string) : bool := 0 <=? Index s substr.

(** [strings.Cut(s, sep)] *)
Definition Cut (s sep : string) : string * string * bool :=
  let i := Index s sep in
  if 0 <=? i then (slice_to s i, slice_from s (i + len sep), true)
  else (s, "", false).

(** [strings.Count(s, substr)] for a one-byte [substr]. *)
Fixpoint CountByte (s : string) (c : ascii) : Z :=
  match s with
  | "" => 0
  | String d s => (if Ascii.eqb d c then 1 else 0) + CountByte s c
  end.

(** The byte value of a character. *)
Definition byte (c : ascii) : Z := Z.of_N (N_of_ascii c).

Definition between (lo hi c : ascii) : bool :=
  (byte lo <=? byte c) && (byte c <=? byte hi).

(** [strings.ToLower] on ASCII text. *)
Definition lower (c : ascii) : ascii :=
  if between "A" "Z" c then ascii_of_N (N_of_ascii c + 32) else c.
Fixpoint ToLower (s : string) : string :=
  match s with
  | "" => ""
  | String c s => String (lower c) (ToLower s)
  end.

(** [strings.Split(s, sep)] for a non-empty [sep]: [s] is cut at each
    match of [sep], found from left to right; what is left is the last
    piece.  There are at most [len(s)] cuts. *)
Fixpoint splitLoop (n : nat) (s sep : string) : list string :=
  match n with
  | O => [s]
  | S n =>
      let m := Index s sep in
      if m <? 0 then [s]
      else slice_to s m :: splitLoop n (slice_from s (m + len sep)) sep
  end.
Definition Split (s sep : string) : list string :=
  splitLoop (String.length s) s sep.

(** [strings.Join(elems, sep)] *)
Definition Join (elems : list string) (sep : string) : string :=
  match elems with
  | [] => ""
  | e :: rest => fold_left (fun b s => (b +:+ sep) +:+ s) rest e
  end.

(** [strings.ReplaceAll(s, old, new)] for a non-empty [old]: each match of
    [old], found from left to right, is written as [new]. *)
Fixpoint replaceLoop (n : nat) (s old new : string) : string :=
  match n with
  | O => s
  | S n =>
      let j := Index s old in
      if j <? 0 then s
      else slice_to s j +:+ new +:+
           replaceLoop n (slice_from s (j + len old)) old new
  end.
Definition ReplaceAll (s old new : string) : string :=
  if String.eqb old new then s
  else replaceLoop (String.length s) s old new.

End strings.

(** ** Package [time]: instants and durations

    The functions of Go's standard library that the rules call, after its
    sources.  [time.Duration] is an [int64] count of nanoseconds.  A [time.Time] is
    kept as the pair Go compares: whole seconds since year 1 ([t.sec()]) and
    the nanosecond within that second ([t.nsec()], in [0, 999999999]); the
    location and the monotonic reading play no part in [After], [Before]
    and [Add] of wall-clock instants. *)

Module time.

Definition Duration := Z.

Definition Nanosecond : Duration := 1.
Definition Microsecond : Duration := 1000 * Nanosecond.
Definition Millisecond : Duration := 1000 * Microsecond.
Definition Second : Duration := 1000 * Millisecond.
Definition Minute : Duration := 60 * Second.
Definition Hour : Duration := 60 * Minute.

Record Time := mkTime { sec : Z; nsec : Z }.

(** [t.After(u)]: [ts > us || ts == us && t.nsec() > u.nsec()]. *)
Definition After (t u : Time) : bool :=
  (sec u <? sec t) || ((sec t =? sec u) && (nsec u <? nsec t)).

(** [t.Before(u)]: [ts < us || ts == us && t.nsec() < u.nsec()]. *)
Definition Before (t u : Time) : bool :=
  (sec t <? sec u) || ((sec t =? sec u) && (nsec t <? nsec u)).

(** [t.addSec(d)]: the seconds saturate instead of wrapping around. *)
Definition addSec (ext d : Z) : Z :=
  let sum := int64.wrap (ext + d) in
  if Bool.eqb (ext <? sum) (0 <? d) then sum
  else if 0 <? d then int64.max else - int64.max.

(** [t.Add(d)]: Go's [/] and [%] truncate towards zero. *)
Definition Add (t : Time) (d : Duration) : Time :=
  let dsec := Z.quot d 1000000000 in
  let n := nsec t + Z.rem d 1000000000 in
  let '(dsec, n) :=
    if 1000000000 <=? n then (dsec + 1, n - 1000000000)
    else if n <? 0 then (dsec - 1, n + 1000000000)
    else (dsec, n) in
  mkTime (addSec (sec t) dsec) n.

(** A well-formed instant: what every [Time] built by the package is. *)
Definition wf (t : Time) : Prop :=
  int64.in_range (sec t) /\ 0 <= nsec t < 1000000000.

(** The instant as one count of nanoseconds since year 1. *)
Definition nanos (t : Time) : Z := sec t * 1000000000 + nsec t.

(** *** Printing a duration *)

(** [byte(d) + '0'] *)
Definition digit (d : Z) : ascii := ascii_of_N (Z.to_N (48 + d)).

Definition isDigit (c : ascii) : bool := strings.between "0" "9" c.

(** The micro sign U+00B5, two bytes in UTF-8. *)
Definition micro : string := String "194" (String "181" "").

(** The Greek letter mu U+03BC. *)
Definition mu : string := String "206" (String "188" "").

(** [fmtFrac(buf, v, prec)]: the buffer is filled from its end, which
    prepends to the text written so far. *)
Fixpoint fmtFracLoop (prec : nat) (buf : string) (v : Z) (print : bool)
  : string * Z * bool :=
  match prec with
  | O => (buf, v, print)
  | S prec =>
      let d := v mod 10 in
      let print := print || negb (d =? 0) in
      fmtFracLoop prec (if print then String (digit d) buf else buf) (v / 10) print
  end.
Definition fmtFrac (buf : string) (v : Z) (prec : nat) : string * Z :=
  let '(buf, v, print) := fmtFracLoop prec buf v false in
  (if print then String "." buf else buf, v).

(** [fmtInt(buf, v)]: the loop [for v > 0] ends within the 20 digits of a
    [uint64]. *)
Fixpoint fmtIntLoop (fuel : nat) (buf : string) (v : Z) : string :=
  match fuel with
  | O => buf
  | S fuel =>
      if 0 <? v then fmtIntLoop fuel (String (digit (v mod 10)) buf) (v / 10)
      else buf
  end.
Definition fmtInt (buf : string) (v : Z) : string :=
  if v =? 0 then String "0" buf else fmtIntLoop 20 buf v.

(** [func (d Duration) String() string], with [format] inlined. *)
Definition DurationString (d : Duration) : string :=
  let neg := d <? 0 in
  let u := uint64.wrap d in
  let u := if neg then uint64.wrap (- u) else u in
  if u <? Second then
    if u =? 0 then "0s"
    else
      let '(prec, buf) :=
        if u <? Microsecond then (0%nat, "ns")
        else if u <? Millisecond then (3%nat, micro +:+ "s")
        else (6%nat, "ms") in
      let '(buf, u) := fmtFrac buf u prec in
      let buf := fmtInt buf u in
      if neg then String "-" buf else buf
  else
    let '(buf, u) := fmtFrac "s" u 9 in
    let buf := fmtInt buf (u mod 60) in
    let u := u / 60 in
    let buf :=
      if 0 <? u then
        let buf := fmtInt (String "m" buf) (u mod 60) in
        let u := u / 60 in
        if 0 <? u then fmtInt (String "h" buf) u else buf
      else buf in
    if neg then String "-" buf else buf.

(** *** Parsing a duration *)

(** [quote(s)], for a text without bytes to escape. *)
Definition quote (s : string) : string := String "034" (s +:+ String "034" "").

(** [leadingInt(s)], with the integer read so far. *)
Fixpoint leadingIntFrom (x : Z) (s : string) : result (Z * string) :=
  match s with
  | "" => Ok (x, "")
  | String c s' =>
      if negb (isDigit c) then Ok (x, s)
      else if 2 ^ 63 / 10 <? x then Err "time: bad [0-9]*"
      else
        let x := x * 10 + strings.byte c - 48 in
        if 2 ^ 63 <? x then Err "time: bad [0-9]*"
        else leadingIntFrom x s'
  end.
Definition leadingInt (s : string) : result (Z * string) := leadingIntFrom 0 s.

(** [leadingFraction(s)], with the state of its loop. *)
Fixpoint leadingFractionFrom (x : Z) (scale : float64) (overflow : bool) (s : string)
  : Z * float64 * string :=
  match s with
  | "" => (x, scale, "")
  | String c s' =>
      if negb (isDigit c) then (x, scale, s)
      else if overflow then leadingFractionFrom x scale overflow s'
      else if (2 ^ 63 - 1) / 10 <? x then leadingFractionFrom x scale true s'
      else
        let y := x * 10 + strings.byte c - 48 in
        if 2 ^ 63 <? y then leadingFractionFrom x scale true s'
        else leadingFractionFrom y (floats.mul scale (floats.ofZ 10)) overflow s'
  end.
Definition leadingFraction (s : string) : Z * float64 * string :=
  leadingFractionFrom 0 (floats.ofZ 1) false s.

(** The length of the unit: the bytes up to the next [.] or digit. *)
Fixpoint unitLength (s : string) : nat :=
  match s with
  | "" => O
  | String c s' => if Ascii.eqb c "." || isDigit c then O else S (unitLength s')
  end.

(** [unitMap] *)
Definition unitMap (u : string) : option Z :=
  if String.eqb u "ns" then Some Nanosecond
  else if String.eqb u "us" then Some Microsecond
  else if String.eqb u (micro +:+ "s") then Some Microsecond
  else if String.eqb u (mu +:+ "s") then Some Microsecond
  else if String.eqb u "ms" then Some Millisecond
  else if String.eqb u "s" then Some Second
  else if String.eqb u "m" then Some Minute
  else if String.eqb u "h" then Some Hour
  else None.

Section Parse.

Variable platform : floats.platform.

(** One round of the loop [for s != ""]: a number, its unit, and the sum so
    far; it returns the sum and what is left of the text. *)
Definition parseComponent (orig s : string) (d : Z) : result (Z * string) :=
  let invalid := Err ("time: invalid duration " +:+ quote orig) in
  match s with
  | "" => invalid
  | String c _ =>
      if negb (Ascii.eqb c "." || isDigit c) then invalid
      else
        match leadingInt s with
        | Err _ => invalid
        | Ok (v, s1) =>
            let pre := negb (strings.len s =? strings.len s1) in
            let '(f, scale, s2, post) :=
              match s1 with
              | String c1 s1' =>
                  if Ascii.eqb c1 "." then
                    let '(f, scale, s2) := leadingFraction s1' in
                    (f, scale, s2, negb (strings.len s1' =? strings.len s2))
                  else (0, floats.ofZ 1, s1, false)
              | "" => (0, floats.ofZ 1, s1, false)
              end in
            if negb pre && negb post then invalid
            else
              let i := unitLength s2 in
              if Nat.eqb i 0 then
                Err ("time: missing unit in duration " +:+ quote orig)
              else
                let u := strings.take i s2 in
                let s3 := strings.drop i s2 in
                match unitMap u with
                | None =>
                    Err ("time: unknown unit " +:+ quote u +:+ " in duration "
                         +:+ quote orig)
                | Some unit =>
                    if 2 ^ 63 / unit <? v then invalid
                    else
                      let v := v * unit in
                      let v :=
                        if 0 <? f then
                          uint64.wrap
                            (v + floats.toUint64 platform
                                   (floats.mul (floats.ofZ f)
                                      (floats.div (floats.ofZ unit) scale)))
                        else v in
                      if (0 <? f) && (2 ^ 63 <? v) then invalid
                      else
                        let d := uint64.wrap (d + v) in
                        if 2 ^ 63 <? d then invalid else Ok (d, s3)
                end
        end
  end.

(** The loop [for s != ""]; every round shortens the text, so its length
    bounds the number of rounds. *)
Fixpoint parseLoop (fuel : nat) (orig s : string) (d : Z) : result Z :=
  match s with
  | "" => Ok d
  | _ =>
      match fuel with
      | O => Err ("time: invalid duration " +:+ quote orig)
      | S fuel =>
          '(d, s) ← parseComponent orig s d;
          parseLoop fuel orig s d
      end
  end.

(** [func ParseDuration(s string) (Duration, error)] *)
Definition ParseDuration (orig : string) : result Duration :=
  let '(neg, s) :=
    match orig with
    | String c s' =>
        if Ascii.eqb c "-" || Ascii.eqb c "+" then (Ascii.eqb c "-", s')
        else (false, orig)
    | "" => (false, orig)
    end in
  if String.eqb s "0" then Ok 0
  else if String.eqb s "" then Err ("time: invalid duration " +:+ quote orig)
  else
    d ← parseLoop (String.length s) orig s 0;
    if neg then Ok (int64.wrap (- int64.wrap d))
    else if 2 ^ 63 - 1 <? d then Err ("time: invalid duration " +:+ quote orig)
    else Ok d.

End Parse.

End time.

(** ** Package [net/url]: parsing

    The parser of Go's standard library, after its sources, as [url.Parse]
    runs it ([viaRequest] is false).  The fields [RawPath], [RawFragment],
    [ForceQuery] and [OmitHost] only steer printing and are not kept. *)

Module url.

Inductive encoding :=
| encodePath | encodePathSegment | encodeHost | encodeZone
| encodeUserPassword | encodeQueryComponent | encodeFragment.

#[global] Instance encoding_eq_dec : EqDecision encoding.
Proof. solve_decision. Defined.

Definition isalnum (c : ascii) : bool :=
  strings.between "a" "z" c || strings.between "A" "Z" c || strings.between "0" "9" c.

Definition ishex (c : ascii) : bool :=
  strings.between "0" "9" c || strings.between "a" "f" c || strings.between "A" "F" c.

Definition unhex (c : ascii) : Z :=
  if strings.between "0" "9" c then strings.byte c - strings.byte "0"
  else if strings.between "a" "f" c then strings.byte c - strings.byte "a" + 10
  else if strings.between "A" "F" c then strings.byte c - strings.byte "A" + 10
  else 0.

Definition oneOf (c : ascii) (set : string) : bool :=
  existsb (Ascii.eqb c) (list_ascii_of_string set).

(** The double quote, which a string literal cannot hold. *)
Definition dquote : ascii := "034".

(** [shouldEscape(c, mode)] *)
Definition shouldEscape (c : ascii) (mode : encoding) : bool :=
  if isalnum c then false
  else if (bool_decide (mode = encodeHost) || bool_decide (mode = encodeZone))
          && (oneOf c "!$&'()*+,;=:[]<>" || Ascii.eqb c dquote) then false
  else if oneOf c "-_.~" then false
  else if oneOf c "$&+,/:;=?@" then
    match mode with
    | encodePath => Ascii.eqb c "?"
    | encodePathSegment => oneOf c "/;,?"
    | encodeUserPassword => oneOf c "@/?:"
    | encodeQueryComponent => true
    | encodeFragment => false
    | encodeHost | encodeZone => true
    end
  else if bool_decide (mode = encodeFragment) && oneOf c "!()*" then false
  else true.

Definition byteChar (b : Z) : ascii := ascii_of_N (Z.to_N b).

(** [unescape(s, mode)]: Go checks the whole string and then decodes it;
    both loops walk it from the left, so one pass meets the same first
    error. *)
Fixpoint unescape (s : string) (mode : encoding) : result string :=
  match s with
  | "" => Ok ""
  | String "%" rest =>
      match rest with
      | String a (String b rest') =>
          if negb (ishex a && ishex b) then
            Err ("invalid URL escape " +:+ strings.take 3 s)
          else if bool_decide (mode = encodeHost) && (unhex a <? 8)
                  && negb (String.eqb (strings.take 3 s) "%25") then
            Err ("invalid URL escape " +:+ strings.take 3 s)
          else if bool_decide (mode = encodeZone)
                  && negb (String.eqb (strings.take 3 s) "%25")
                  && negb (unhex a * 16 + unhex b =? 32)
                  && shouldEscape (byteChar (unhex a * 16 + unhex b)) encodeHost then
            Err ("invalid URL escape " +:+ strings.take 3 s)
          else
            t ← unescape rest' mode ;
            Ok (String (byteChar (unhex a * 16 + unhex b)) t)
      | _ => Err ("invalid URL escape " +:+ strings.take 3 s)
      end
  | String c rest =>
      if (bool_decide (mode = encodeHost) || bool_decide (mode = encodeZone))
         && (strings.byte c <? 128) && shouldEscape c encodeHost then
        Err ("invalid character in host name " +:+ String c "")
      else
        t ← unescape rest mode ;
        Ok (String (if Ascii.eqb c "+" && bool_decide (mode = encodeQueryComponent)
                    then " "%char else c) t)
  end.

(** [stringContainsCTLByte(s)] *)
Definition stringContainsCTLByte (s : string) : bool :=
  existsb (fun c => (strings.byte c <? 32) || (strings.byte c =? 127))
    (list_ascii_of_string s).

(** [getScheme(rawURL)], the loop over the bytes from offset [i]. *)
Fixpoint getSchemeFrom (i : Z) (s rawURL : string) : result (string * string) :=
  match s with
  | "" => Ok ("", rawURL)
  | String c s' =>
      if strings.between "a" "z" c || strings.between "A" "Z" c then
        getSchemeFrom (i + 1) s' rawURL
      else if strings.between "0" "9" c || oneOf c "+-." then
        if i =? 0 then Ok ("", rawURL) else getSchemeFrom (i + 1) s' rawURL
      else if Ascii.eqb c ":" then
        if i =? 0 then Err "missing protocol scheme"
        else Ok (strings.slice_to rawURL i, strings.slice_from rawURL (i + 1))
      else Ok ("", rawURL)
  end.
Definition getScheme (rawURL : string) : result (string * string) :=
  getSchemeFrom 0 rawURL rawURL.

(** [validOptionalPort(port)] *)
Definition validOptionalPort (port : string) : bool :=
  match port with
  | "" => true
  | String c digits =>
      Ascii.eqb c ":" && forallb (strings.between "0" "9") (list_ascii_of_string digits)
  end.

(** [validUserinfo(s)]: a byte outside ASCII belongs to a rune that is
    none of the accepted ones. *)
Definition validUserinfo (s : string) : bool :=
  forallb (fun c => isalnum c || oneOf c "-._:~!$&'()*+,;=%@") (list_ascii_of_string s).

(** [parseHost(host)], as in the releases of Go that take what stands
    between the brackets of an IP literal as it is: later releases also
    require it to be an IPv6 address and refuse a bracket inside a host
    name, which is not modelled.  The properties of the generator URL are
    stated on the result of [Parse], whatever it is. *)
Definition parseHost (host : string) : result string :=
  if strings.HasPrefix host "[" then
    let i := strings.LastIndex host "]" in
    if i <? 0 then Err "missing ']' in host"
    else
      let colonPort := strings.slice_from host (i + 1) in
      if negb (validOptionalPort colonPort) then
        Err ("invalid port " +:+ colonPort +:+ " after host")
      else
        let zone := strings.Index (strings.slice_to host i) "%25" in
        if 0 <=? zone then
          host1 ← unescape (strings.slice_to host zone) encodeHost ;
          host2 ← unescape (strings.slice host zone i) encodeZone ;
          host3 ← unescape (strings.slice_from host i) encodeHost ;
          Ok (host1 +:+ host2 +:+ host3)
        else unescape host encodeHost
  else
    let i := strings.LastIndex host ":" in
    if negb (i =? -1) && negb (validOptionalPort (strings.slice_from host i)) then
      Err ("invalid port " +:+ strings.slice_from host i +:+ " after host")
    else unescape host encodeHost.

(** [*Userinfo]: a user name and, when set, a password. *)
Record Userinfo := mkUserinfo { username : string; password : option string }.

(** [parseAuthority(authority)] *)
Definition parseAuthority (authority : string) : result (option Userinfo * string) :=
  let i := strings.LastIndex authority "@" in
  host ← (if i <? 0 then parseHost authority
           else parseHost (strings.slice_from authority (i + 1))) ;
  if i <? 0 then Ok (None, host)
  else
    let userinfo := strings.slice_to authority i in
    if negb (validUserinfo userinfo) then Err "net/url: invalid userinfo"
    else if negb (strings.Contains userinfo ":") then
      userinfo ← unescape userinfo encodeUserPassword ;
      Ok (Some (mkUserinfo userinfo None), host)
    else
      let '(name, pass, _) := strings.Cut userinfo ":" in
      name ← unescape name encodeUserPassword ;
      pass ← unescape pass encodeUserPassword ;
      Ok (Some (mkUserinfo name (Some pass)), host).

Record URL := mkURL {
  Scheme : string;
  Opaque : string;
  User : option Userinfo;
  Host : string;
  Path : string;
  RawQuery : string;
  Fragment : string
}.

(** [parse(rawURL, false)] *)
Definition parse (rawURL : string) : result URL :=
  if stringContainsCTLByte rawURL then Err "net/url: invalid control character in URL"
  else if String.eqb rawURL "*" then Ok (mkURL "" "" None "" "*" "" "")
  else
    '(scheme, rest) ← getScheme rawURL ;
    let scheme := strings.ToLower scheme in
    let '(rest, rawQuery) :=
      if strings.HasSuffix rest "?" && (strings.CountByte rest "?" =? 1)
      then (strings.slice_to rest (strings.len rest - 1), "")
      else let '(before, after, _) := strings.Cut rest "?" in (before, after) in
    if negb (strings.HasPrefix rest "/") && negb (String.eqb scheme "") then
      Ok (mkURL scheme rest None "" "" rawQuery "")
    else if negb (strings.HasPrefix rest "/")
            && (let '(segment, _, _) := strings.Cut rest "/" in
                strings.Contains segment ":") then
      Err "first path segment in URL cannot contain colon"
    else
      '(user, host, rest) ←
        (if (negb (String.eqb scheme "") || negb (strings.HasPrefix rest "///"))
            && strings.HasPrefix rest "//" then
           let authority := strings.slice_from rest 2 in
           let i := strings.Index authority "/" in
           let '(authority, rest) :=
             if 0 <=? i then (strings.slice_to authority i, strings.slice_from authority i)
             else (authority, "") in
           '(user, host) ← parseAuthority authority ;
           Ok (user, host, rest)
         else Ok (None, "", rest)) ;
      path ← unescape rest encodePath ;
      Ok (mkURL scheme "" user host path rawQuery "").

(** [url.Parse(rawURL)] *)
Definition Parse (rawURL : string) : result URL :=
  let '(u, frag, _) := strings.Cut rawURL "#" in
  url ← parse u ;
  if String.eqb frag "" then Ok url
  else
    fragment ← unescape frag encodeFragment ;
    Ok (mkURL (Scheme url) (Opaque url) (User url) (Host url) (Path url)
          (RawQuery url) fragment).

(** [splitHostPort(hostPort)] *)
Definition splitHostPort (hostPort : string) : string * string :=
  let colon := strings.LastIndex hostPort ":" in
  let '(host, port) :=
    if negb (colon =? -1) && validOptionalPort (strings.slice_from hostPort colon)
    then (strings.slice_to hostPort colon, strings.slice_from hostPort (colon + 1))
    else (hostPort, "") in
  if strings.HasPrefix host "[" && strings.HasSuffix host "]"
  then (strings.slice host 1 (strings.len host - 1), port)
  else (host, port).

(** [u.Hostname()] *)
Definition Hostname (u : URL) : string := fst (splitHostPort (Host u)).

(** [u.Port()] *)
Definition Port (u : URL) : string := snd (splitHostPort (Host u)).

End url.

(** ** Package [model]: the alert state *)

Module model.

(** Modelled from the spec: the enumeration [model.AlertState] is declared in
    [pkg/query-service/model], outside the sources at hand; the spec names
    the states Inactive, Pending, Firing and Resolved. *)
Inductive AlertState := StateInactive | StatePending | StateFiring | StateResolved.

#[global] Instance AlertState_eq_dec : EqDecision AlertState.
Proof. solve_decision. Defined.

End model.

(** ** The alert entity *)

(** [labels.BaseLabels]: a label set, kept as its name/value pairs. *)
Definition BaseLabels := list (string * string).

Record Alert := mkAlert {
  State : model.AlertState;
  Labels : BaseLabels;
  Annotations : BaseLabels;
  QueryResultLables : BaseLabels;
  GeneratorURL : string;
  Receivers : list string;
  Value : float64;
  ActiveAt : time.Time;
  FiredAt : time.Time;
  ResolvedAt : time.Time;
  LastSentAt : time.Time;
  ValidUntil : time.Time;
  Missing : bool
}.

(** [func (a *Alert) needsSending(ts time.Time, resendDelay time.Duration) bool] *)
Definition needsSending (a : Alert) (ts : time.Time) (resendDelay : time.Duration) : bool :=
  if decide (State a = model.StatePending) then false
  else if time.After (ResolvedAt a) (LastSentAt a) then true
  else time.Before (time.Add (LastSentAt a) resendDelay) ts.

(** ** Errors

    A Go [error] value.  The four sentinels are the package's own variables
    ([ErrCompositeQueryRequired] and its siblings, declared next to the rule
    types); [Errorf] is an error built by [fmt.Errorf] or [errors.New],
    carrying its text.  A nil error is [None]. *)
Inductive error :=
| ErrCompositeQueryRequired
| ErrTargetRequired
| ErrCompareOpRequired
| ErrMatchTypeRequired
| Errorf (text : string).

(** What a call does: it returns a value or the runtime panics. *)
Inductive outcome (A : Type) :=
| Returns (a : A)
| Panics (what : string).
Arguments Returns {A} a.
Arguments Panics {A} what.

(** ** The comparison operator *)

Definition CompareOp := string.

Definition CompareOpNone : CompareOp := "0".
Definition ValueIsAbove : CompareOp := "1".
Definition ValueIsBelow : CompareOp := "2".
Definition ValueIsEq : CompareOp := "3".
Definition ValueIsNotEq : CompareOp := "4".
Definition ValueAboveOrEq : CompareOp := "5".
Definition ValueBelowOrEq : CompareOp := "6".
Definition ValueOutsideBounds : CompareOp := "7".

Definition supportedCompareOps : list CompareOp :=
  [CompareOpNone; ValueIsAbove; ValueIsBelow; ValueIsEq; ValueIsNotEq;
   ValueAboveOrEq; ValueBelowOrEq; ValueOutsideBounds].

(** [func (co CompareOp) String() string] *)
Definition CompareOp_String (co : CompareOp) : string :=
  if String.eqb co CompareOpNone then "None: Enum value 0"
  else if String.eqb co ValueIsAbove then "ValueIsAbove: Enum value 1"
  else if String.eqb co ValueIsBelow then "ValueIsBelow: Enum value 2"
  else if String.eqb co ValueIsEq then "ValueIsEq: Enum value 3"
  else if String.eqb co ValueIsNotEq then "ValueIsNotEq: Enum value 4"
  else if String.eqb co ValueAboveOrEq then "ValueAboveOrEq: Enum value 5"
  else if String.eqb co ValueBelowOrEq then "ValueBelowOrEq: Enum value 6"
  else if String.eqb co ValueOutsideBounds then "ValueOutsideBounds: Enum value 7"
  else "Unknown: Enum value".

(** The loop [for _, op := range ops { msg += op.String() + ", " }]. *)
Definition describeAll {A} (describe : A -> string) (ops : list A) : string :=
  fold_left (fun msg op => msg +:+ (describe op +:+ ", ")) ops "".

(** [func (co CompareOp) Validate() error].  The operand of the first [%s]
    is a [CompareOp], which has a [String] method: [fmt] prints the
    description, not the code. *)
Definition CompareOp_Validate (co : CompareOp) : option error :=
  let msg := describeAll CompareOp_String supportedCompareOps in
  if existsb (String.eqb co)
       [ValueIsAbove; ValueIsBelow; ValueIsEq; ValueIsNotEq;
        ValueAboveOrEq; ValueBelowOrEq; ValueOutsideBounds]
  then None
  else Some (Errorf ("invalid compare op: " +:+ CompareOp_String co +:+
                     " supported ops are " +:+ msg)).

(** ** The match type *)

Definition MatchType := string.

Definition MatchTypeNone : MatchType := "0".
Definition AtleastOnce : MatchType := "1".
Definition AllTheTimes : MatchType := "2".
Definition OnAverage : MatchType := "3".
Definition InTotal : MatchType := "4".
Definition Last : MatchType := "5".

Definition supportedMatchTypes : list MatchType :=
  [MatchTypeNone; AtleastOnce; AllTheTimes; OnAverage; InTotal; Last].

(** [func (mt MatchType) String() string] *)
Definition MatchType_String (mt : MatchType) : string :=
  if String.eqb mt MatchTypeNone then "None: Enum value 0"
  else if String.eqb mt AtleastOnce then "AtleastOnce: Enum value 1"
  else if String.eqb mt AllTheTimes then "AllTheTimes: Enum value 2"
  else if String.eqb mt OnAverage then "OnAverage: Enum value 3"
  else if String.eqb mt InTotal then "InTotal: Enum value 4"
  else if String.eqb mt Last then "Last: Enum value 5"
  else "Unknown: Enum value".

(** [func (mt MatchType) Validate() error]: the [case] lists
    [MatchTypeNone] with the five others. *)
Definition MatchType_Validate (mt : MatchType) : option error :=
  let msg := describeAll MatchType_String supportedMatchTypes in
  if existsb (String.eqb mt)
       [MatchTypeNone; AtleastOnce; AllTheTimes; OnAverage; InTotal; Last]
  then None
  else Some (Errorf ("invalid match type: " +:+ MatchType_String mt +:+
                     " supported ops are " +:+ msg)).

(** ** Package [v3]: the composite query *)

Module v3.

Definition QueryType := string.

(** Modelled from the spec: the query-type tags are constants of
    [pkg/query-service/model/v3], outside the sources at hand; the spec
    speaks of the structured builder type, the SQL-like raw type, the raw
    query language and an unknown tag. *)
Definition QueryTypeUnknown : QueryType := "unknown".
Definition QueryTypeBuilder : QueryType := "builder".
Definition QueryTypeClickHouseSQL : QueryType := "clickhouse_sql".
Definition QueryTypePromQL : QueryType := "promql".

(** Modelled from the spec: [v3.CompositeQuery] is declared outside the
    sources at hand.  The rule condition reads its query-type tag and its
    two maps of named sub-queries; the sub-queries themselves are opaque. *)
Record CompositeQuery {BuilderQuery ClickHouseQuery : Type} := mkCompositeQuery {
  QueryType_ : QueryType;
  BuilderQueries : gmap string BuilderQuery;
  ClickHouseQueries : gmap string ClickHouseQuery
}.
Arguments CompositeQuery : clear implicits.
Arguments mkCompositeQuery {BuilderQuery ClickHouseQuery} _ _ _.

End v3.

(** ** The rule condition *)

Section RuleConditions.

Context {BuilderQuery ClickHouseQuery : Type}.

Abbreviation CompositeQuery := (v3.CompositeQuery BuilderQuery ClickHouseQuery).

(** A field that bears the name of its type takes a trailing underscore. *)
Record RuleCondition := mkRuleCondition {
  CompositeQuery_ : option CompositeQuery;
  CompareOp_ : CompareOp;
  Target : option float64;
  AlertOnAbsent : bool;
  AbsentFor : Z;
  MatchType_ : MatchType;
  TargetUnit : string;
  Algorithm : string;
  Seasonality : string;
  SelectedQuery : string;
  RequireMinPoints : bool;
  RequiredNumPoints : Z
}.

(** [func (rc *RuleCondition) QueryType() v3.QueryType] *)
Definition QueryType (rc : RuleCondition) : v3.QueryType :=
  match CompositeQuery_ rc with
  | Some cq => v3.QueryType_ cq
  | None => v3.QueryTypeUnknown
  end.

(** The set [queryNames] that [GetSelectedQueryName] fills. *)
Definition queryNames (rc : RuleCondition) : gset string :=
  match CompositeQuery_ rc with
  | Some cq =>
      if String.eqb (QueryType rc) v3.QueryTypeBuilder
      then dom (v3.BuilderQueries cq)
      else if String.eqb (QueryType rc) v3.QueryTypeClickHouseSQL
      then dom (v3.ClickHouseQueries cq)
      else ∅
  | None => ∅
  end.

(** [sort.Strings(keys); return keys[len(keys)-1]]: Go compares strings
    byte by byte, and indexing an empty slice at [-1] panics. *)
Definition lastSorted (keys : list string) : outcome string :=
  match last (merge_sort String.le keys) with
  | Some k => Returns k
  | None => Panics "index out of range [-1]"
  end.

(** [func (rc *RuleCondition) GetSelectedQueryName() string]; the receiver
    is a pointer, nil being [None]. *)
Definition GetSelectedQueryName (rc : option RuleCondition) : outcome string :=
  match rc with
  | Some rc =>
      if negb (String.eqb (SelectedQuery rc) "") then Returns (SelectedQuery rc)
      else
        let names := queryNames rc in
        if decide ("F1" ∈ names) then Returns "F1"
        else lastSorted (elements names)
  | None => Returns ""
  end.

(** [v3.CompositeQuery.Validate], defined outside the sources at hand. *)
Variable CompositeQuery_Validate : CompositeQuery -> option error.

(** [func (rc *RuleCondition) Validate() error] *)
Definition RuleCondition_Validate (rc : RuleCondition) : option error :=
  match CompositeQuery_ rc with
  | None => Some ErrCompositeQueryRequired
  | Some cq =>
      let builder :=
        if String.eqb (QueryType rc) v3.QueryTypeBuilder then
          match Target rc with
          | None => Some ErrTargetRequired
          | Some _ =>
              if String.eqb (CompareOp_ rc) "" then Some ErrCompareOpRequired
              else match CompareOp_Validate (CompareOp_ rc) with
                   | Some err => Some err
                   | None =>
                       if String.eqb (MatchType_ rc) "" then Some ErrMatchTypeRequired
                       else MatchType_Validate (MatchType_ rc)
                   end
          end
        else None in
      match builder with
      | Some err => Some err
      | None => CompositeQuery_Validate cq
      end
  end.

End RuleConditions.

Arguments RuleCondition : clear implicits.

(** ** The JSON codec of durations

    [encoding/json] is kept at the level of the documents it reads and
    writes: a JSON text stands for the value [json.Unmarshal] stores into an
    [interface{}] ([nil], a [bool], a [float64], a [string], a slice or a
    map), and [json.Marshal] of a Go string writes the text of that
    string. *)
#[warnings="-register-all"]
Inductive json_value :=
| JNull
| JBool (b : bool)
| JNumber (f : float64)
| JString (s : string)
| JArray (items : list json_value)
| JObject (fields : list (string * json_value)).

Definition Duration := time.Duration.

(** [func (d Duration) MarshalJSON() ([]byte, error)] *)
Definition Duration_MarshalJSON (d : Duration) : result json_value :=
  Ok (JString (time.DurationString d)).

(** [func (d *Duration) UnmarshalJSON(b []byte) error]: [decoded] is what
    [json.Unmarshal(b, &v)] yields, the value [v] or its error; the result
    is the duration stored through [d], or the error returned. *)
Definition Duration_UnmarshalJSON (platform : floats.platform)
    (decoded : result json_value) : result Duration :=
  match decoded with
  | Err e => Err e
  | Ok (JNumber value) => Ok (floats.toInt64 platform value)
  | Ok (JString value) =>
      match time.ParseDuration platform value with
      | Err e => Err e
      | Ok tmp => Ok tmp
      end
  | Ok _ => Err "invalid duration"
  end.

(** ** The generator URL *)

(** [func prepareRuleGeneratorURL(ruleId string, source string) string];
    [fmt.Sprintf] with [%s] verbs over strings concatenates. *)
Definition prepareRuleGeneratorURL (ruleId source : string) : string :=
  if String.eqb source "" then source
  else
    match url.Parse source with
    | Err _ => ""
    | Ok parsedSource =>
        let hasNew := strings.LastIndex source "new" in
        if -1 <? hasNew then
          strings.slice source 0 hasNew +:+ "edit?ruleId=" +:+ ruleId
        else if negb (String.eqb (url.Port parsedSource) "") then
          url.Scheme parsedSource +:+ "://" +:+ url.Hostname parsedSource +:+ ":" +:+
          url.Port parsedSource +:+ "/alerts/edit?ruleId=" +:+ ruleId
        else
          url.Scheme parsedSource +:+ "://" +:+ url.Hostname parsedSource +:+
          "/alerts/edit?ruleId=" +:+ ruleId
    end.

(** ** Sample values *)

Module samples.

Definition zeroTime : time.Time := time.mkTime 0 0.

(** A firing alert, last announced 300 seconds after it fired and not
    resolved since. *)
Definition firing : Alert :=
  {| State := model.StateFiring;
     Labels := [("alertname", "cpu")];
     Annotations := [];
     QueryResultLables := [];
     GeneratorURL := "";
     Receivers := ["slack"];
     Value := S754_zero false;
     ActiveAt := time.mkTime 63900000000 0;
     FiredAt := time.mkTime 63900000000 0;
     ResolvedAt := zeroTime;
     LastSentAt := time.mkTime 63900000300 0;
     ValidUntil := zeroTime;
     Missing := false |}.

Definition fiveMinutes : time.Duration := 5 * time.Minute.

(** Exactly [LastSentAt + fiveMinutes]. *)
Definition resendInstant : time.Time := time.mkTime 63900000600 0.

Definition subQueries (names : list string) : gmap string unit :=
  list_to_map ((fun n => (n, tt)) <$> names).

Definition builderQuery (names : list string) : v3.CompositeQuery unit unit :=
  v3.mkCompositeQuery v3.QueryTypeBuilder (subQueries names) ∅.

Definition clickHouseQuery (names : list string) : v3.CompositeQuery unit unit :=
  v3.mkCompositeQuery v3.QueryTypeClickHouseSQL ∅ (subQueries names).

Definition promQuery : v3.CompositeQuery unit unit :=
  v3.mkCompositeQuery v3.QueryTypePromQL ∅ ∅.

Definition condition (cq : option (v3.CompositeQuery unit unit)) (selected : string)
  : RuleCondition unit unit :=
  {| CompositeQuery_ := cq;
     CompareOp_ := ValueIsAbove;
     Target := Some (S754_zero false);
     AlertOnAbsent := false;
     AbsentFor := 0;
     MatchType_ := AtleastOnce;
     TargetUnit := "";
     Algorithm := "";
     Seasonality := "";
     SelectedQuery := selected;
     RequireMinPoints := false;
     RequiredNumPoints := 0 |}.

(** A composite query validation that accepts everything. *)
Definition accept (cq : v3.CompositeQuery unit unit) : option error := None.

End samples.

(** ** Notions used to state the properties *)

(** [substr] occurs in [s] at offset [length pre]. *)
Definition occurs_at (s substr pre : string) : Prop :=
  exists post, s = pre +:+ substr +:+ post.

(** The canonical mantissa and exponent of a positive integer below
    [2 ^ 53]. *)
Definition mantissa (a : Z) : Z := a * 2 ^ (52 - Z.log2 a).

(** A text that starts with a decimal digit. *)
Definition startsWithDigit (s : string) : Prop :=
  match s with
  | String c _ => time.isDigit c = true
  | "" => False
  end.

(** A text at which a number or a unit ends: empty, or starting with a
    byte that is no digit. *)
Definition startsWithoutDigit (s : string) : Prop :=
  match s with
  | String c _ => time.isDigit c = false
  | "" => True
  end.

(** The text of one component: the whole part, the fraction of [u] below
    [10 ^ prec] and the unit, written before [rest]. *)
Definition component (unitName rest : string) (u : Z) (prec : nat) (whole : Z) : string :=
  time.fmtInt (fst (time.fmtFrac (unitName +:+ rest) u prec)) whole.

(** A unit name: known to [unitMap], and ending where [rest] starts. *)
Definition unitOf (unitName rest : string) (unit : Z) : Prop :=
  time.unitMap unitName = Some unit /\
  time.unitLength (unitName +:+ rest) = String.length unitName /\
  (0 < String.length unitName)%nat.

(** The text of a positive magnitude [u], in nanoseconds: one component
    below a second, else hours, minutes and seconds. *)
Definition magnitudeText (u : Z) : string :=
  if u <? time.Second then
    if u <? time.Microsecond then component "ns" "" u 0 u
    else if u <? time.Millisecond then component (time.micro +:+ "s") "" u 3 (u / 10 ^ 3)
    else component "ms" "" u 6 (u / 10 ^ 6)
  else
    let secs := u / 10 ^ 9 in
    let secText := component "s" "" u 9 (secs mod 60) in
    if 0 <? secs / 60 then
      let minText := component "m" secText 0 0 (secs / 60 mod 60) in
      if 0 <? secs / 60 / 60 then component "h" minText 0 0 (secs / 60 / 60)
      else minText
    else secText.

(** ** Package [telemetrytypes]: field keys

    [FieldContext], [FieldDataType] and [Signal] are structs around one
    [valuer.String]; each is kept as the text that [StringValue()] returns
    and [%s] prints, and two of them are equal when their texts are.  The
    tables [fieldContexts] and [fieldDataTypes] and the named field contexts
    and data types are declared outside the sources at hand. *)

Module telemetrytypes.

Definition FieldContext := string.
Definition FieldDataType := string.
Definition Signal := string.

Record TelemetryFieldKey := mkTelemetryFieldKey {
  Name : string;
  Description : string;
  Unit : string;
  Signal_ : Signal;
  FieldContext_ : FieldContext;
  FieldDataType_ : FieldDataType;
  Materialized : bool
}.

(** What an [any] holds when it comes from a parsed query: nil, a
    string, a float64, a bool, a slice of such values, and an int64 for
    the dynamic types that no type switch below names. *)
#[warnings="-register-all"]
Inductive any :=
| ANil
| AString (s : string)
| AFloat64 (f : float64)
| ABool (b : bool)
| AInt64 (n : Z)
| ASlice (items : list any).

(** [func castFloat(col string) string] *)
Definition castFloat (col : string) : string := "toFloat64OrNull(" +:+ col +:+ ")".

(** [func castString(col string) string] *)
Definition castString (col : string) : string := "toString(" +:+ col +:+ ")".

(** [fmt.Sprintf("'%v'", str)] for a string. *)
Definition quoted (str : string) : string := "'" +:+ str +:+ "'".

(** [fmt.Sprintf("%t", v)] *)
Definition formatT (v : bool) : string := if v then "true" else "false".

Section Fields.

Variable fieldContexts : gmap string FieldContext.
Variable fieldDataTypes : gmap string FieldDataType.
Variable FieldContextUnspecified : FieldContext.
Variable FieldDataTypeUnspecified : FieldDataType.
Variables FieldDataTypeString FieldDataTypeFloat64 FieldDataTypeInt64
  FieldDataTypeNumber FieldDataTypeBool : FieldDataType.

(** [fmt.Sprintf("%v", x)]: the text of a float64 is its shortest
    decimal form, left open here. *)
Variable formatV : any -> string.

(** [func (f TelemetryFieldKey) String() string] *)
Definition TelemetryFieldKey_String (f : TelemetryFieldKey) : string :=
  let sb := "name=" +:+ Name f in
  let sb :=
    if negb (String.eqb (FieldContext_ f) FieldContextUnspecified)
    then sb +:+ (",context=" +:+ FieldContext_ f) else sb in
  let sb :=
    if negb (String.eqb (FieldDataType_ f) FieldDataTypeUnspecified)
    then sb +:+ (",datatype=" +:+ FieldDataType_ f) else sb in
  sb.

(** [func GetFieldKeyFromKeyText(key string) TelemetryFieldKey]; a map
    read [v, ok := table[k]] is the lookup [table !! k], the zero value of
    a field context or data type being the empty text. *)
Definition GetFieldKeyFromKeyText (key : string) : TelemetryFieldKey :=
  let keyTextParts := strings.Split key "." in
  let found :=
    if (1 <? length keyTextParts)%nat
    then fieldContexts !! nth 0 keyTextParts "" else None in
  let explicitFieldContext := default "" found in
  let explicitFieldContextProvided :=
    match found with
    | Some c => negb (String.eqb c FieldContextUnspecified)
    | None => false
    end in
  let keyTextParts :=
    if explicitFieldContextProvided then drop 1 keyTextParts else keyTextParts in
  let '(keyTextParts, explicitFieldDataType, explicitFieldDataTypeProvided) :=
    if (1 <=? length keyTextParts)%nat then
      let lastPart := nth (length keyTextParts - 1) keyTextParts "" in
      let lastPartParts := strings.Split lastPart ":" in
      let found :=
        if (1 <? length lastPartParts)%nat
        then fieldDataTypes !! nth 1 lastPartParts "" else None in
      let provided :=
        match found with
        | Some t => negb (String.eqb t FieldDataTypeUnspecified)
        | None => false
        end in
      (if provided
       then <[(length keyTextParts - 1)%nat := nth 0 lastPartParts ""]> keyTextParts
       else keyTextParts,
       default "" found, provided)
    else (keyTextParts, "", false) in
  let realKey := strings.Join keyTextParts "." in
  {| Name := realKey;
     Description := "";
     Unit := "";
     Signal_ := "";
     FieldContext_ :=
       if explicitFieldContextProvided then explicitFieldContext
       else FieldContextUnspecified;
     FieldDataType_ :=
       if explicitFieldDataTypeProvided then explicitFieldDataType
       else FieldDataTypeUnspecified;
     Materialized := false |}.

(** [func FieldKeyToMaterializedColumnName(key *TelemetryFieldKey) string];
    a table read without [ok] gives the zero value, the empty text, for a
    key that the table does not hold. *)
Definition FieldKeyToMaterializedColumnName (key : option TelemetryFieldKey) :
    outcome string :=
  match key with
  | None => Panics "nil pointer dereference"
  | Some key =>
      Returns ("`" +:+ FieldContext_ key +:+ "_" +:+
               default "" (fieldDataTypes !! FieldDataType_ key) +:+ "_" +:+
               strings.ReplaceAll (Name key) "." "$$" +:+ "`")
  end.

(** [func FieldKeyToMaterializedColumnNameForExists(key *TelemetryFieldKey) string] *)
Definition FieldKeyToMaterializedColumnNameForExists
    (key : option TelemetryFieldKey) : outcome string :=
  match key with
  | None => Panics "nil pointer dereference"
  | Some key =>
      Returns ("`" +:+ FieldContext_ key +:+ "_" +:+
               default "" (fieldDataTypes !! FieldDataType_ key) +:+ "_" +:+
               strings.ReplaceAll (Name key) "." "$$" +:+ "_exists`")
  end.

(** [func toStrings(in []any) []any]: [out] starts as [len(in)] nils and
    is written index by index. *)
Definition toStrings (in_ : list any) : list any :=
  foldl (fun out '(i, x) =>
           match x with
           | AString _ => <[i := x]> out
           | _ => <[i := AString (castString (formatV x))]> out
           end)
        (replicate (length in_) ANil) (imap pair in_).

(** [func toFloat64s(in []any) []any] *)
Definition toFloat64s (in_ : list any) : list any :=
  foldl (fun out '(i, x) =>
           match x with
           | AString str => <[i := AString (castFloat (quoted str))]> out
           | _ => <[i := x]> out
           end)
        (replicate (length in_) ANil) (imap pair in_).

(** The loop of the bool case, [for i, item := range v], which writes
    into [v] itself. *)
Definition boolItems (v : list any) : list any :=
  foldl (fun v i =>
           match v !! i with
           | Some (AString str) => <[i := ABool (String.eqb str "true")]> v
           | Some (ABool b) => <[i := ABool b]> v
           | Some _ => <[i := ABool false]> v
           | None => v
           end)
        v (seq 0 (length v)).

(** What a call leaves behind: the two results, and the caller's [value]
    as it is after the call (a slice shares its elements with the
    caller). *)
Record handled := mkHandled {
  fieldName : string;
  value : any;
  argument : any
}.

(** [func DataTypeCollisionHandledFieldName(key *TelemetryFieldKey, value any,
    tblFieldName string) (string, any)] *)
Definition DataTypeCollisionHandledFieldName (key : option TelemetryFieldKey)
    (value : any) (tblFieldName : string) : outcome handled :=
  match key with
  | None => Panics "nil pointer dereference"
  | Some key =>
      let t := FieldDataType_ key in
      if String.eqb t FieldDataTypeString then
        Returns (mkHandled tblFieldName
          match value with
          | AFloat64 _ => AString (castString (formatV value))
          | ASlice v => ASlice (toStrings v)
          | ABool v => AString (formatT v)
          | _ => value
          end value)
      else if String.eqb t FieldDataTypeFloat64 || String.eqb t FieldDataTypeInt64
              || String.eqb t FieldDataTypeNumber then
        Returns (mkHandled tblFieldName
          match value with
          | AString v => AString (castFloat (quoted v))
          | ASlice v => ASlice (toFloat64s v)
          | _ => value
          end value)
      else if String.eqb t FieldDataTypeBool then
        match value with
        | AString v => Returns (mkHandled tblFieldName (ABool (String.eqb v "true")) value)
        | ASlice v =>
            let v := boolItems v in
            Returns (mkHandled tblFieldName (ASlice v) (ASlice v))
        | _ => Returns (mkHandled tblFieldName value value)
        end
      else Returns (mkHandled tblFieldName value value)
  end.

End Fields.

End telemetrytypes.

(** ** Package [authtypes]: the tuples of a user

    [Relation], [Selector], [Type] and the interface [Typeable] are declared
    outside the sources at hand: a relation and a selector are kept abstract,
    with the text that [StringValue()] and [String()] give, and so is the
    type of the errors a [Typeable] returns. *)

Module authtypes.

(** [openfgav1.CheckRequestTupleKey], with the three fields that are set. *)
Record CheckRequestTupleKey := mkCheckRequestTupleKey {
  User : string;
  Relation_ : string;
  Object : string
}.

Section Tuples.

Variables Relation Selector err : Type.
Variable Relation_StringValue : Relation -> string.
Variable Selector_String : Selector -> string.

(** [TypeUser.StringValue()] *)
Variable TypeUser : string.

(** The method [Tuples] of a [Typeable], as it is called below: with a
    subject, a relation and a selector, a nil parent and no parent
    selector.  It returns tuples or an error. *)
Definition Typeable : Type :=
  string -> Relation -> Selector -> list CheckRequestTupleKey + err.

(** The loop [for _, selector := range parentSelectors]; a nil
    [parentTypeable] is [None], and a method call on it panics. *)
Fixpoint collect (subject : string) (relation : Relation)
    (parentTypeable : option Typeable) (parentSelectors : list Selector)
    (tuples : list CheckRequestTupleKey) :
    outcome (list CheckRequestTupleKey + err) :=
  match parentSelectors with
  | [] => Returns (inl tuples)
  | selector :: parentSelectors =>
      match parentTypeable with
      | None => Panics "invalid memory address or nil pointer dereference"
      | Some parent =>
          match parent subject relation selector with
          | inr e => Returns (inr e)
          | inl resourcesTuples =>
              collect subject relation parentTypeable parentSelectors
                (tuples ++ resourcesTuples)
          end
      end
  end.

(** [func (user *user) Tuples(subject string, relation Relation,
    selector Selector, parentTypeable Typeable, parentSelectors ...Selector)
    ([]*openfgav1.CheckRequestTupleKey, error)] *)
Definition user_Tuples (subject : string) (relation : Relation)
    (selector : Selector) (parentTypeable : option Typeable)
    (parentSelectors : list Selector) :
    outcome (list CheckRequestTupleKey + err) :=
  match collect subject relation parentTypeable parentSelectors [] with
  | Returns (inl tuples) =>
      let object := strings.Join [TypeUser; Selector_String selector] ":" in
      Returns (inl (tuples ++
        [mkCheckRequestTupleKey subject (Relation_StringValue relation) object]))
  | Returns (inr e) => Returns (inr e)
  | Panics what => Panics what
  end.

End Tuples.

End authtypes.

(** ** Notions used to state the further properties *)

(** The pieces of [s] between the bytes [c], by a scan of [s]. *)
Fixpoint splitByte (c : ascii) (s : string) : list string :=
  match s with
  | "" => [""]
  | String a s =>
      if Ascii.eqb a c then "" :: splitByte c s
      else match splitByte c s with
           | piece :: pieces => String a piece :: pieces
           | [] => [String a ""]
           end
  end.

(** [s] with each byte [c] written as [new], by a scan of [s]. *)
Fixpoint replaceByte (c : ascii) (new s : string) : string :=
  match s with
  | "" => ""
  | String a s =>
      if Ascii.eqb a c then new +:+ replaceByte c new s
      else String a (replaceByte c new s)
  end.

(** The byte [c] does not occur in [s]. *)
Definition free_of (c : ascii) (s : string) : Prop := strings.CountByte s c = 0.

(** What the three loops over a list of values write for one item. *)
Definition stringItem (formatV : telemetrytypes.any -> string)
    (x : telemetrytypes.any) : telemetrytypes.any :=
  match x with
  | telemetrytypes.AString _ => x
  | _ => telemetrytypes.AString (telemetrytypes.castString (formatV x))
  end.

Definition floatItem (x : telemetrytypes.any) : telemetrytypes.any :=
  match x with
  | telemetrytypes.AString str =>
      telemetrytypes.AString (telemetrytypes.castFloat (telemetrytypes.quoted str))
  | _ => x
  end.

Definition boolItem (x : telemetrytypes.any) : telemetrytypes.any :=
  match x with
  | telemetrytypes.AString str => telemetrytypes.ABool (String.eqb str "true")
  | telemetrytypes.ABool b => telemetrytypes.ABool b
  | _ => telemetrytypes.ABool false
  end.

(** The value is a string; the value is a bool. *)
Definition is_string (x : telemetrytypes.any) : bool :=
  match x with telemetrytypes.AString _ => true | _ => false end.

Definition is_bool (x : telemetrytypes.any) : bool :=
  match x with telemetrytypes.ABool _ => true | _ => false end.

(** A text made of decimal digits only. *)
Fixpoint allDigits (s : string) : bool :=
  match s with
  | "" => true
  | String c s => time.isDigit c && allDigits s
  end.

(** * Properties *)

(** ** Strings *)

Lemma append_nil_l (s : string) : "" +:+ s = s.
Proof. reflexivity. Qed.

Lemma append_cons (c : ascii) (s t : string) : String c s +:+ t = String c (s +:+ t).
Proof. reflexivity. Qed.

Lemma append_nil_r (s : string) : s +:+ "" = s.
Proof. induction s as [|c s IH]; [reflexivity|]. rewrite append_cons. by f_equal. Qed.

Lemma append_assoc (s t u : string) : (s +:+ t) +:+ u = s +:+ (t +:+ u).
Proof.
  induction s as [|c s IH]; [reflexivity|].
  rewrite !append_cons. by f_equal.
Qed.

Lemma len_nonneg (s : string) : 0 <= strings.len s.
Proof. unfold strings.len. lia. Qed.

Lemma take_append (s t : string) : strings.take (String.length s) (s +:+ t) = s.
Proof.
  induction s as [|c s IH]; simpl.
  - by destruct t.
  - by f_equal.
Qed.

Lemma drop_append (s t : string) : strings.drop (String.length s) (s +:+ t) = t.
Proof. induction s as [|c s IH]; [reflexivity|]. by rewrite append_cons. Qed.

(** [HasPrefix] decides that the string starts with the prefix. *)
Lemma HasPrefix_spec (s p : string) :
  strings.HasPrefix s p = true <-> exists t, s = p +:+ t.
Proof.
  revert s. induction p as [|c p IH]; intros s; simpl.
  - split; [intros _; by exists s|done].
  - destruct s as [|d s].
    + split; [done|]. intros [t Ht]. rewrite append_cons in Ht. discriminate.
    + rewrite andb_true_iff, IH. split.
      * intros [Hcd [t ->]]. apply Ascii.eqb_eq in Hcd as ->. by exists t.
      * intros [t Ht]. rewrite append_cons in Ht. injection Ht as -> ->.
        split; [apply Ascii.eqb_refl|by exists t].
Qed.

Lemma IndexFrom_bounds (i : Z) (s substr : string) :
  strings.IndexFrom i s substr = -1 \/
  i <= strings.IndexFrom i s substr <= i + strings.len s.
Proof.
  revert i. induction s as [|c s IH]; intros i; simpl.
  - destruct (strings.HasPrefix "" substr); [right; unfold strings.len; simpl|left]; lia.
  - destruct (strings.HasPrefix (String c s) substr).
    + right. pose proof (len_nonneg (String c s)). lia.
    + destruct (IH (i + 1)) as [->|H]; [by left|right].
      unfold strings.len in *. simpl String.length. lia.
Qed.

Lemma IndexFrom_none (i : Z) (s substr : string) :
  0 <= i -> strings.IndexFrom i s substr = -1 ->
  forall pre, ~ occurs_at s substr pre.
Proof.
  revert i. induction s as [|c s IH]; intros i Hi; simpl.
  - destruct (strings.HasPrefix "" substr) eqn:Hp; [lia|].
    intros _ pre [post Hs]. destruct pre; [|discriminate].
    rewrite append_nil_l in Hs.
    assert (strings.HasPrefix "" substr = true); [|congruence].
    apply HasPrefix_spec. by exists post.
  - destruct (strings.HasPrefix (String c s) substr) eqn:Hp; [lia|].
    intros Hr pre [post Hs]. destruct pre as [|d pre].
    + rewrite append_nil_l in Hs.
      assert (strings.HasPrefix (String c s) substr = true); [|congruence].
      apply HasPrefix_spec. by exists post.
    + rewrite append_cons in Hs. injection Hs as -> ->.
      apply (IH (i + 1) ltac:(lia) Hr pre). by exists post.
Qed.

Lemma IndexFrom_some (i : Z) (s substr : string) :
  0 <= i -> 0 <= strings.IndexFrom i s substr ->
  exists pre, occurs_at s substr pre /\
    strings.len pre = strings.IndexFrom i s substr - i.
Proof.
  revert i. induction s as [|c s IH]; intros i Hi; simpl.
  - destruct (strings.HasPrefix "" substr) eqn:Hp; [|lia].
    intros _. apply HasPrefix_spec in Hp as [t Ht]. exists "". split.
    + exists t. by rewrite append_nil_l.
    + unfold strings.len. simpl. lia.
  - destruct (strings.HasPrefix (String c s) substr) eqn:Hp.
    + intros _. apply HasPrefix_spec in Hp as [t Ht]. exists "". split.
      * exists t. by rewrite append_nil_l.
      * unfold strings.len. simpl. lia.
    + intros H.
      destruct (IH (i + 1) ltac:(lia) H) as (pre & [post Hs] & Hl).
      exists (String c pre). split.
      * exists post. rewrite append_cons. by f_equal.
      * unfold strings.len in *. simpl String.length. lia.
Qed.

(** [strings.Contains] decides occurrence. *)
Lemma Contains_spec (s substr : string) :
  strings.Contains s substr = true <-> exists pre, occurs_at s substr pre.
Proof.
  unfold strings.Contains, strings.Index. rewrite Z.leb_le. split.
  - intros H. destruct (IndexFrom_some 0 s substr ltac:(lia) H) as (pre & Ho & _).
    by exists pre.
  - intros [pre Ho].
    destruct (IndexFrom_bounds 0 s substr) as [Hn|Hb]; [|lia].
    by destruct (IndexFrom_none 0 s substr ltac:(lia) Hn pre).
Qed.

Lemma Contains_app (s substr pre post : string) :
  strings.Contains s substr = true ->
  strings.Contains (pre +:+ s +:+ post) substr = true.
Proof.
  rewrite !Contains_spec. intros (p & q & ->).
  exists (pre +:+ p), (q +:+ post). by rewrite !append_assoc.
Qed.

Lemma Contains_refl (s : string) : strings.Contains s s = true.
Proof. apply Contains_spec. exists "", "". by rewrite append_nil_l, append_nil_r. Qed.

Lemma occurs_at_nil (substr pre : string) :
  occurs_at "" substr pre -> pre = "" /\ strings.HasPrefix "" substr = true.
Proof.
  intros [post Hs]. destruct pre; [|discriminate]. split; [done|].
  apply HasPrefix_spec. by exists post.
Qed.

Lemma occurs_at_cons (c : ascii) (s substr pre : string) :
  occurs_at (String c s) substr pre ->
  (pre = "" /\ strings.HasPrefix (String c s) substr = true) \/
  (exists pre', pre = String c pre' /\ occurs_at s substr pre').
Proof.
  intros [post Hs]. destruct pre as [|d pre].
  - left. split; [done|]. apply HasPrefix_spec. by exists post.
  - right. rewrite append_cons in Hs. injection Hs as -> ->.
    exists pre. split; [done|]. by exists post.
Qed.

(** [LastIndex] finds the greatest offset of a match, or [-1] when there
    is none. *)
Lemma LastIndexFrom_spec (i : Z) (s substr : string) :
  0 <= i ->
  (strings.LastIndexFrom i s substr = -1 /\ forall pre, ~ occurs_at s substr pre) \/
  (i <= strings.LastIndexFrom i s substr /\
   exists pre, occurs_at s substr pre /\
     strings.len pre = strings.LastIndexFrom i s substr - i /\
     forall pre', occurs_at s substr pre' -> strings.len pre' <= strings.len pre).
Proof.
  revert i. induction s as [|c s IH]; intros i Hi.
  - cbn [strings.LastIndexFrom]. destruct (strings.HasPrefix "" substr) eqn:Hp.
    + right. split; [lia|]. exists "". split; [|split].
      * apply HasPrefix_spec in Hp as [t Ht]. by exists t.
      * unfold strings.len. simpl. lia.
      * intros pre' [-> _]%occurs_at_nil. lia.
    + left. split; [done|]. intros pre [_ H]%occurs_at_nil. congruence.
  - cbn [strings.LastIndexFrom].
    destruct (IH (i + 1) ltac:(lia)) as [[Hn Hno]|(Hle & pre & Ho & Hl & Hmax)].
    + rewrite Hn. change (0 <=? -1) with false. cbv iota.
      destruct (strings.HasPrefix (String c s) substr) eqn:Hp.
      * right. split; [lia|]. exists "". split; [|split].
        -- apply HasPrefix_spec in Hp as [t Ht]. by exists t.
        -- unfold strings.len. simpl. lia.
        -- intros pre' [[-> _]|(p & -> & Hp')]%occurs_at_cons; [lia|].
           by destruct (Hno p).
      * left. split; [done|].
        intros pre' [[_ H]|(p & -> & Hp')]%occurs_at_cons; [congruence|].
        by destruct (Hno p).
    + assert (Hr : (0 <=? strings.LastIndexFrom (i + 1) s substr) = true)
        by (apply Z.leb_le; lia).
      rewrite Hr. right. split; [lia|]. exists (String c pre). split; [|split].
      * destruct Ho as [post ->]. by exists post.
      * unfold strings.len in *. simpl String.length. lia.
      * intros pre' [[-> _]|(p & -> & Hp')]%occurs_at_cons.
        -- pose proof (len_nonneg (String c pre)). unfold strings.len at 1. simpl. lia.
        -- specialize (Hmax p Hp'). unfold strings.len in *. simpl String.length. lia.
Qed.

Lemma LastIndex_Contains (s substr : string) :
  (-1 <? strings.LastIndex s substr) = strings.Contains s substr.
Proof.
  unfold strings.LastIndex.
  destruct (LastIndexFrom_spec 0 s substr ltac:(lia)) as [[Hn Hno]|(Hle & pre & Ho & _)].
  - rewrite Hn. symmetry. apply not_true_is_false.
    intros [pre Hp]%Contains_spec. by destruct (Hno pre).
  - transitivity true; [apply Z.ltb_lt; lia|]. symmetry.
    apply Contains_spec. by exists pre.
Qed.

(** ** Instants *)

Lemma After_Before (t u : time.Time) : time.After t u = time.Before u t.
Proof. unfold time.After, time.Before. by rewrite (Z.eqb_sym (time.sec t)). Qed.

(** On well-formed instants [Before] is the order of the nanosecond counts. *)
Lemma Before_nanos (t u : time.Time) :
  time.wf t -> time.wf u ->
  time.Before t u = true <-> time.nanos t < time.nanos u.
Proof.
  intros [_ Ht] [_ Hu]. unfold time.Before, time.nanos.
  rewrite orb_true_iff, andb_true_iff, !Z.ltb_lt, Z.eqb_eq. lia.
Qed.

Lemma wrap_in_range (z : Z) : int64.in_range z -> int64.wrap z = z.
Proof.
  unfold int64.in_range, int64.wrap, int64.min, int64.max. intros H.
  rewrite Z.mod_small; lia.
Qed.

Lemma addSec_in_range (ext d : Z) :
  int64.in_range (ext + d) -> time.addSec ext d = ext + d.
Proof.
  intros H. unfold time.addSec. rewrite (wrap_in_range _ H).
  destruct (ext <? ext + d) eqn:H1, (0 <? d) eqn:H2; simpl; try reflexivity;
    apply Z.ltb_lt in H1 || apply Z.ltb_ge in H1;
    apply Z.ltb_lt in H2 || apply Z.ltb_ge in H2; lia.
Qed.

(** Unless the seconds leave the [int64] range, [Add] adds the duration to
    the nanosecond count and yields a well-formed instant. *)
Lemma Add_nanos (t : time.Time) (d : time.Duration) :
  time.wf t ->
  int64.in_range ((time.nanos t + d) / 1000000000) ->
  time.wf (time.Add t d) /\ time.nanos (time.Add t d) = time.nanos t + d.
Proof.
  intros [Hs Hn] Hr. unfold time.Add, time.wf, time.nanos in *.
  set (q := Z.quot d 1000000000) in *. set (r := Z.rem d 1000000000) in *.
  assert (Hd : d = 1000000000 * q + r) by (apply Z.quot_rem'; lia).
  assert (Hb : -1000000000 < r < 1000000000).
  { pose proof (Z.rem_bound_abs d 1000000000 ltac:(lia)). subst r. lia. }
  clearbody q r. subst d.
  destruct (1000000000 <=? time.nsec t + r) eqn:H1;
    [apply Z.leb_le in H1|apply Z.leb_gt in H1;
     destruct (time.nsec t + r <? 0) eqn:H2;
     [apply Z.ltb_lt in H2|apply Z.ltb_ge in H2]]; simpl.
  - assert (E : (time.sec t * 1000000000 + time.nsec t + (1000000000 * q + r))
                / 1000000000 = time.sec t + (q + 1)).
    { symmetry. apply Z.div_unique with (r := time.nsec t + r - 1000000000); lia. }
    rewrite E in Hr. rewrite addSec_in_range by done. repeat split; try apply Hr; lia.
  - assert (E : (time.sec t * 1000000000 + time.nsec t + (1000000000 * q + r))
                / 1000000000 = time.sec t + (q - 1)).
    { symmetry. apply Z.div_unique with (r := time.nsec t + r + 1000000000); lia. }
    rewrite E in Hr. rewrite addSec_in_range by done. repeat split; try apply Hr; lia.
  - assert (E : (time.sec t * 1000000000 + time.nsec t + (1000000000 * q + r))
                / 1000000000 = time.sec t + q).
    { symmetry. apply Z.div_unique with (r := time.nsec t + r); lia. }
    rewrite E in Hr. rewrite addSec_in_range by done. repeat split; try apply Hr; lia.
Qed.

(** ** The resend policy *)

(** C1: [needsSending] is false for a pending alert whatever the
    timestamps; otherwise it is true when [ResolvedAt] is strictly after
    [LastSentAt]; otherwise it is true if and only if
    [LastSentAt + resendDelay] is strictly before [now]. *)
Theorem needsSending_cases (a : Alert) (now : time.Time) (resendDelay : time.Duration) :
  (State a = model.StatePending -> needsSending a now resendDelay = false) /\
  (State a <> model.StatePending ->
   time.After (ResolvedAt a) (LastSentAt a) = true ->
   needsSending a now resendDelay = true) /\
  (State a <> model.StatePending ->
   time.After (ResolvedAt a) (LastSentAt a) = false ->
   (needsSending a now resendDelay = true <->
    time.Before (time.Add (LastSentAt a) resendDelay) now = true)).
Proof.
  unfold needsSending. split; [|split].
  - intros Hp. by rewrite decide_True.
  - intros Hp Hr. rewrite decide_False by done. by rewrite Hr.
  - intros Hp Hr. rewrite decide_False by done. by rewrite Hr.
Qed.

(** C2, as amended: for a firing alert whose resolution is not after the
    last send, [needsSending] is true exactly when [now] is strictly after
    [LastSentAt + resendDelay]; at [now = LastSentAt + resendDelay] it is
    false. *)
Theorem needsSending_firing_strict (a : Alert) (now : time.Time) (resendDelay : time.Duration) :
  State a = model.StateFiring ->
  time.wf (LastSentAt a) -> time.wf now ->
  int64.in_range ((time.nanos (LastSentAt a) + resendDelay) / 1000000000) ->
  time.After (ResolvedAt a) (LastSentAt a) = false ->
  (needsSending a now resendDelay = true <->
   time.nanos (LastSentAt a) + resendDelay < time.nanos now) /\
  (time.nanos now = time.nanos (LastSentAt a) + resendDelay ->
   needsSending a now resendDelay = false).
Proof.
  intros Hs Hl Hn Hr Ha.
  destruct (Add_nanos _ _ Hl Hr) as [Hw He].
  assert (Hiff : needsSending a now resendDelay = true <->
                 time.nanos (LastSentAt a) + resendDelay < time.nanos now).
  { unfold needsSending. rewrite decide_False by (rewrite Hs; discriminate).
    rewrite Ha, (Before_nanos _ _ Hw Hn), He. reflexivity. }
  split; [exact Hiff|]. intros Heq.
  apply not_true_is_false. intros E. apply Hiff in E. lia.
Qed.

Lemma needsSending_firing_strict_witness :
  (needsSending samples.firing (time.mkTime 63900000601 0) samples.fiveMinutes = true <->
   time.nanos (LastSentAt samples.firing) + samples.fiveMinutes
   < time.nanos (time.mkTime 63900000601 0)) /\
  (time.nanos (time.mkTime 63900000601 0)
   = time.nanos (LastSentAt samples.firing) + samples.fiveMinutes ->
   needsSending samples.firing (time.mkTime 63900000601 0) samples.fiveMinutes = false).
Proof.
  apply (needsSending_firing_strict samples.firing (time.mkTime 63900000601 0)
           samples.fiveMinutes).
  - reflexivity.
  - vm_compute. intuition discriminate.
  - vm_compute. intuition discriminate.
  - vm_compute. intuition discriminate.
  - reflexivity.
Defined.

(** C2 fails at exact equality: the alert is firing, its resolution is not
    after the last send, [now] is [LastSentAt + resendDelay], and nothing
    is sent. *)
Lemma needsSending_at_equality_is_false :
  ~ (State samples.firing = model.StateFiring ->
     time.After (ResolvedAt samples.firing) (LastSentAt samples.firing) = false ->
     time.nanos (LastSentAt samples.firing) + samples.fiveMinutes
     <= time.nanos samples.resendInstant ->
     needsSending samples.firing samples.resendInstant samples.fiveMinutes = true).
Proof.
  intros H. specialize (H eq_refl eq_refl). vm_compute in H.
  assert (false = true); [|discriminate]. apply H. discriminate.
Qed.

(** ** The operators *)

Lemma fold_describe_Contains {A} (describe : A -> string) (ops : list A)
    (acc wanted : string) :
  strings.Contains acc wanted = true \/
  (exists op, In op ops /\ describe op = wanted) ->
  strings.Contains
    (fold_left (fun msg op => msg +:+ (describe op +:+ ", ")) ops acc) wanted = true.
Proof.
  revert acc. induction ops as [|o ops IH]; intros acc H; simpl.
  - destruct H as [H|(op & [] & _)]. exact H.
  - apply IH. destruct H as [H|(op & [<-|Hin] & Hd)].
    + left. rewrite <- (append_nil_l (acc +:+ _)). by apply Contains_app.
    + left. subst wanted. apply Contains_spec. by exists acc, ", ".
    + right. by exists op.
Qed.

(** The message lists the description of every value it was built from. *)
Lemma describeAll_Contains {A} (describe : A -> string) (ops : list A) (op : A) :
  In op ops -> strings.Contains (describeAll describe ops) (describe op) = true.
Proof. intros H. apply fold_describe_Contains. right. by exists op. Qed.

Lemma existsb_eqb_In (s : string) (l : list string) :
  existsb (String.eqb s) l = true <-> In s l.
Proof.
  rewrite existsb_exists. split.
  - intros (x & Hin & ->%String.eqb_eq). exact Hin.
  - intros H. exists s. split; [exact H|apply String.eqb_refl].
Qed.

(** C6: [CompareOp.Validate] succeeds exactly for the codes 1 to 7; for
    every other string, the code 0 of [CompareOpNone] among them, it
    returns an error whose text has the description of every supported
    value. *)
Theorem CompareOp_Validate_spec (co : CompareOp) :
  (CompareOp_Validate co = None <-> In co ["1"; "2"; "3"; "4"; "5"; "6"; "7"]) /\
  (~ In co ["1"; "2"; "3"; "4"; "5"; "6"; "7"] ->
   exists text, CompareOp_Validate co = Some (Errorf text) /\
     forall op, In op supportedCompareOps ->
       strings.Contains text (CompareOp_String op) = true) /\
  (exists text, CompareOp_Validate CompareOpNone = Some (Errorf text)).
Proof.
  assert (Hex : forall co', CompareOp_Validate co' =
    if existsb (String.eqb co') ["1"; "2"; "3"; "4"; "5"; "6"; "7"] then None
    else Some (Errorf ("invalid compare op: " +:+ CompareOp_String co' +:+
           " supported ops are " +:+
           describeAll CompareOp_String supportedCompareOps))) by reflexivity.
  split; [|split].
  - rewrite Hex, <- existsb_eqb_In.
    destruct (existsb _ _); split; congruence.
  - intros Hn. rewrite Hex. rewrite <- existsb_eqb_In in Hn.
    destruct (existsb _ _); [congruence|].
    eexists. split; [reflexivity|]. intros op Hop.
    rewrite <- !append_assoc, <- (append_nil_r (describeAll _ _)).
    apply Contains_app. by apply describeAll_Contains.
  - rewrite Hex. simpl. eauto.
Qed.

(** C3 fails on [MatchTypeNone]: its code is none of 1 to 5, yet
    [Validate] accepts it. *)
Lemma MatchType_Validate_accepts_none :
  ~ In MatchTypeNone ["1"; "2"; "3"; "4"; "5"] /\
  MatchType_Validate MatchTypeNone = None.
Proof.
  split; [|reflexivity]. unfold MatchTypeNone. simpl. intuition discriminate.
Qed.

(** C3, as amended: [MatchType.Validate] succeeds exactly for the six
    codes 0 to 5, none included; for every other string it returns an
    error whose text has the description of every supported value. *)
Theorem MatchType_Validate_spec (mt : MatchType) :
  (MatchType_Validate mt = None <-> In mt ["0"; "1"; "2"; "3"; "4"; "5"]) /\
  (~ In mt ["0"; "1"; "2"; "3"; "4"; "5"] ->
   exists text, MatchType_Validate mt = Some (Errorf text) /\
     forall op, In op supportedMatchTypes ->
       strings.Contains text (MatchType_String op) = true).
Proof.
  assert (Hex : MatchType_Validate mt =
    if existsb (String.eqb mt) ["0"; "1"; "2"; "3"; "4"; "5"] then None
    else Some (Errorf ("invalid match type: " +:+ MatchType_String mt +:+
           " supported ops are " +:+
           describeAll MatchType_String supportedMatchTypes))) by reflexivity.
  split.
  - rewrite Hex, <- existsb_eqb_In.
    destruct (existsb _ _); split; congruence.
  - intros Hn. rewrite Hex. rewrite <- existsb_eqb_In in Hn.
    destruct (existsb _ _); [congruence|].
    eexists. split; [reflexivity|]. intros op Hop.
    rewrite <- !append_assoc, <- (append_nil_r (describeAll _ _)).
    apply Contains_app. by apply describeAll_Contains.
Qed.

(** ** The rule condition *)

Section RuleConditionFacts.

Context {BuilderQuery ClickHouseQuery : Type}.
Implicit Types rc : RuleCondition BuilderQuery ClickHouseQuery.
Implicit Types cq : v3.CompositeQuery BuilderQuery ClickHouseQuery.

Lemma queryNames_builder rc cq :
  CompositeQuery_ rc = Some cq -> v3.QueryType_ cq = v3.QueryTypeBuilder ->
  queryNames rc = dom (v3.BuilderQueries cq).
Proof. unfold queryNames, QueryType. by intros -> ->. Qed.

Lemma queryNames_clickhouse rc cq :
  CompositeQuery_ rc = Some cq -> v3.QueryType_ cq = v3.QueryTypeClickHouseSQL ->
  queryNames rc = dom (v3.ClickHouseQueries cq).
Proof. unfold queryNames, QueryType. by intros -> ->. Qed.

Lemma queryNames_nil rc : CompositeQuery_ rc = None -> queryNames rc = ∅.
Proof. unfold queryNames. by intros ->. Qed.

Lemma queryNames_other rc :
  QueryType rc <> v3.QueryTypeBuilder ->
  QueryType rc <> v3.QueryTypeClickHouseSQL ->
  queryNames rc = ∅.
Proof.
  unfold queryNames. intros Hb%String.eqb_neq Hc%String.eqb_neq.
  rewrite Hb, Hc. by destruct (CompositeQuery_ rc).
Qed.

End RuleConditionFacts.

(** The last element of a sorted list bounds every element. *)
Lemma last_StronglySorted (l : list string) (k : string) :
  StronglySorted String.le l -> last l = Some k ->
  k ∈ l /\ forall n, n ∈ l -> String.le n k.
Proof.
  induction 1 as [|x l Hs IH Hx]; [done|].
  destruct l as [|y l'].
  - intros [= ->]. split; [apply list_elem_of_here|].
    intros n ->%list_elem_of_singleton. done.
  - change (last (x :: y :: l')) with (last (y :: l')). intros Hk.
    destruct (IH Hk) as [Hin Hmax]. split; [by apply list_elem_of_further|].
    intros n [->|Hn]%elem_of_cons; [|by apply Hmax].
    rewrite Forall_forall in Hx. by apply Hx.
Qed.

(** Sorting and taking the last name yields the greatest name, and panics
    exactly on an empty list. *)
Lemma lastSorted_spec (keys : list string) :
  match lastSorted keys with
  | Returns k => k ∈ keys /\ forall n, n ∈ keys -> String.le n k
  | Panics _ => keys = []
  end.
Proof.
  unfold lastSorted. destruct (last (merge_sort String.le keys)) as [k|] eqn:E.
  - destruct (last_StronglySorted _ k (StronglySorted_merge_sort _ keys) E) as [Hin Hmax].
    split.
    + by rewrite (merge_sort_Permutation String.le keys) in Hin.
    + intros n Hn. apply Hmax. by rewrite (merge_sort_Permutation String.le keys).
  - apply last_None in E. apply Permutation_nil_r.
    by rewrite <- E, (merge_sort_Permutation String.le keys).
Qed.

(** C5 fails on a condition that collects no name: with a PromQL query
    and no selected query, F1 is absent and there is no greatest name to
    return; the call returns nothing. *)
Lemma GetSelectedQueryName_returns_no_name :
  ~ (SelectedQuery (samples.condition (Some samples.promQuery) "") = "" ->
     "F1" ∉ queryNames (samples.condition (Some samples.promQuery) "") ->
     exists k,
       GetSelectedQueryName (Some (samples.condition (Some samples.promQuery) ""))
       = Returns k).
Proof.
  intros H. destruct H as [k Hk].
  - reflexivity.
  - rewrite queryNames_other; [set_solver|vm_compute; discriminate..].
  - vm_compute in Hk. discriminate.
Qed.

(** C5, as amended: an explicit [SelectedQuery] wins, even over a
    sub-query named F1; otherwise the names are those of the builder map
    for a builder query and of the ClickHouse map for a ClickHouse SQL
    query, F1 is returned when it is among them, and else the
    lexicographically greatest name is when there is a name at all; when
    there is none, the call panics on the index out of range.  The names
    F2, F1, F3 yield F1 and the names A, C, B yield C. *)
Theorem GetSelectedQueryName_spec {BuilderQuery ClickHouseQuery : Type}
    (rc : RuleCondition BuilderQuery ClickHouseQuery) :
  (SelectedQuery rc <> "" ->
   GetSelectedQueryName (Some rc) = Returns (SelectedQuery rc)) /\
  (forall cq, CompositeQuery_ rc = Some cq ->
     (v3.QueryType_ cq = v3.QueryTypeBuilder ->
      queryNames rc = dom (v3.BuilderQueries cq)) /\
     (v3.QueryType_ cq = v3.QueryTypeClickHouseSQL ->
      queryNames rc = dom (v3.ClickHouseQueries cq))) /\
  (SelectedQuery rc = "" -> "F1" ∈ queryNames rc ->
   GetSelectedQueryName (Some rc) = Returns "F1") /\
  (SelectedQuery rc = "" -> "F1" ∉ queryNames rc -> queryNames rc <> ∅ ->
   exists k, GetSelectedQueryName (Some rc) = Returns k /\
     k ∈ queryNames rc /\ forall n, n ∈ queryNames rc -> String.le n k) /\
  (SelectedQuery rc = "" -> queryNames rc = ∅ ->
   GetSelectedQueryName (Some rc) = Panics "index out of range [-1]") /\
  GetSelectedQueryName
    (Some (samples.condition (Some (samples.builderQuery ["F2"; "F1"; "F3"])) ""))
  = Returns "F1" /\
  GetSelectedQueryName
    (Some (samples.condition (Some (samples.builderQuery ["A"; "C"; "B"])) ""))
  = Returns "C" /\
  GetSelectedQueryName
    (Some (samples.condition (Some (samples.builderQuery ["F2"; "F1"; "F3"])) "F2"))
  = Returns "F2".
Proof.
  unfold GetSelectedQueryName. repeat apply conj.
  - intros Hs%String.eqb_neq. by rewrite Hs.
  - intros cq Hcq. split; intros Ht.
    + by apply queryNames_builder.
    + by apply queryNames_clickhouse.
  - intros -> Hf. simpl. by rewrite decide_True.
  - intros -> Hf Hne. simpl. rewrite decide_False by done.
    pose proof (lastSorted_spec (elements (queryNames rc))) as Hl.
    destruct (lastSorted (elements (queryNames rc))) as [k|w].
    + destruct Hl as [Hin Hmax]. exists k. split; [done|]. split.
      * by apply elem_of_elements.
      * intros n Hn. apply Hmax. by apply elem_of_elements.
    + by apply elements_empty_inv, leibniz_equiv in Hl.
  - intros -> He. simpl. rewrite He, decide_False by set_solver.
    by rewrite elements_empty.
  - by vm_compute.
  - by vm_compute.
  - by vm_compute.
Qed.

Lemma GetSelectedQueryName_spec_witness :
  GetSelectedQueryName
    (Some (samples.condition (Some (samples.clickHouseQuery ["A"; "C"; "B"])) ""))
  = Returns "C".
Proof.
  destruct (GetSelectedQueryName_spec
    (samples.condition (Some (samples.clickHouseQuery ["A"; "C"; "B"])) ""))
    as (_ & _ & _ & H & _).
  destruct H as (k & Hk & Hin & Hmax).
  - reflexivity.
  - vm_compute. set_solver.
  - vm_compute. discriminate.
  - rewrite Hk. vm_compute in Hin. set_solver.
Defined.

(** C10: on a non-nil receiver with an empty [SelectedQuery] and no
    collected name (no composite query, or a query type that is neither
    builder nor ClickHouse SQL, or an empty map) the function does not
    return: indexing the empty slice at [-1] panics. *)
Theorem GetSelectedQueryName_panics {BuilderQuery ClickHouseQuery : Type}
    (rc : RuleCondition BuilderQuery ClickHouseQuery) :
  SelectedQuery rc = "" ->
  CompositeQuery_ rc = None \/
  (QueryType rc <> v3.QueryTypeBuilder /\ QueryType rc <> v3.QueryTypeClickHouseSQL) \/
  queryNames rc = ∅ ->
  GetSelectedQueryName (Some rc) = Panics "index out of range [-1]" /\
  forall name, GetSelectedQueryName (Some rc) <> Returns name.
Proof.
  intros Hs Hcases.
  assert (He : queryNames rc = ∅).
  { destruct Hcases as [Hn|[[Hb Hc]|He]];
      [by apply queryNames_nil|by apply queryNames_other|done]. }
  assert (Hp : GetSelectedQueryName (Some rc) = Panics "index out of range [-1]").
  { unfold GetSelectedQueryName. rewrite Hs, He. simpl.
    rewrite decide_False by set_solver. by rewrite elements_empty. }
  split; [exact Hp|]. intros name. rewrite Hp. discriminate.
Qed.

Lemma GetSelectedQueryName_panics_witness :
  GetSelectedQueryName (Some (samples.condition (Some samples.promQuery) ""))
  = Panics "index out of range [-1]" /\
  forall name,
    GetSelectedQueryName (Some (samples.condition (Some samples.promQuery) ""))
    <> Returns name.
Proof.
  apply (GetSelectedQueryName_panics (samples.condition (Some samples.promQuery) "")).
  - reflexivity.
  - right. left. split; vm_compute; discriminate.
Defined.

(** C4: without a composite query [Validate] returns
    [ErrCompositeQueryRequired]; for a builder query it returns, in this
    order, [ErrTargetRequired] for a nil target, [ErrCompareOpRequired] for
    an empty operator, the operator's own validation error,
    [ErrMatchTypeRequired] for an empty match type and the match type's own
    validation error; for any other query type none of the three is looked
    at; what remains is the verdict of the composite query's validation. *)
Theorem RuleCondition_Validate_spec {BuilderQuery ClickHouseQuery : Type}
    (validate : v3.CompositeQuery BuilderQuery ClickHouseQuery -> option error)
    (rc : RuleCondition BuilderQuery ClickHouseQuery) :
  (CompositeQuery_ rc = None ->
   RuleCondition_Validate validate rc = Some ErrCompositeQueryRequired) /\
  (forall cq, CompositeQuery_ rc = Some cq ->
     (QueryType rc = v3.QueryTypeBuilder ->
        (Target rc = None ->
         RuleCondition_Validate validate rc = Some ErrTargetRequired) /\
        (Target rc <> None -> CompareOp_ rc = "" ->
         RuleCondition_Validate validate rc = Some ErrCompareOpRequired) /\
        (Target rc <> None -> CompareOp_ rc <> "" ->
         forall err, CompareOp_Validate (CompareOp_ rc) = Some err ->
         RuleCondition_Validate validate rc = Some err) /\
        (Target rc <> None -> CompareOp_Validate (CompareOp_ rc) = None ->
         MatchType_ rc = "" ->
         RuleCondition_Validate validate rc = Some ErrMatchTypeRequired) /\
        (Target rc <> None -> CompareOp_Validate (CompareOp_ rc) = None ->
         MatchType_ rc <> "" ->
         forall err, MatchType_Validate (MatchType_ rc) = Some err ->
         RuleCondition_Validate validate rc = Some err) /\
        (Target rc <> None -> CompareOp_Validate (CompareOp_ rc) = None ->
         MatchType_ rc <> "" -> MatchType_Validate (MatchType_ rc) = None ->
         RuleCondition_Validate validate rc = validate cq)) /\
     (QueryType rc <> v3.QueryTypeBuilder ->
      RuleCondition_Validate validate rc = validate cq)).
Proof.
  unfold RuleCondition_Validate. split.
  - by intros ->.
  - intros cq ->. split.
    + intros ->. rewrite String.eqb_refl.
      assert (Hco : CompareOp_Validate "" <> None) by (vm_compute; discriminate).
      destruct (Target rc) as [target|]; repeat apply conj; try done.
      * by intros _ ->.
      * intros _ Hne%String.eqb_neq err Herr. by rewrite Hne, Herr.
      * intros _ Hok ->. destruct (String.eqb_spec (CompareOp_ rc) "") as [He|_].
        { by rewrite He in Hok. }
        by rewrite Hok.
      * intros _ Hok Hne%String.eqb_neq err Herr.
        destruct (String.eqb_spec (CompareOp_ rc) "") as [He|_].
        { by rewrite He in Hok. }
        by rewrite Hok, Hne, Herr.
      * intros _ Hok Hne%String.eqb_neq Hmt.
        destruct (String.eqb_spec (CompareOp_ rc) "") as [He|_].
        { by rewrite He in Hok. }
        by rewrite Hok, Hne, Hmt.
    + intros Hnb%String.eqb_neq. by rewrite Hnb.
Qed.

(** A builder condition without a target, one with a target and no
    operator, a fully populated one, and a PromQL condition with none of
    the three. *)
Lemma RuleCondition_Validate_spec_witness :
  RuleCondition_Validate samples.accept
    {| CompositeQuery_ := Some (samples.builderQuery ["A"]); CompareOp_ := "1";
       Target := None; AlertOnAbsent := false; AbsentFor := 0; MatchType_ := "1";
       TargetUnit := ""; Algorithm := ""; Seasonality := ""; SelectedQuery := "";
       RequireMinPoints := false; RequiredNumPoints := 0 |}
  = Some ErrTargetRequired /\
  RuleCondition_Validate samples.accept
    {| CompositeQuery_ := Some (samples.builderQuery ["A"]); CompareOp_ := "";
       Target := Some (S754_zero false); AlertOnAbsent := false; AbsentFor := 0;
       MatchType_ := "1"; TargetUnit := ""; Algorithm := ""; Seasonality := "";
       SelectedQuery := ""; RequireMinPoints := false; RequiredNumPoints := 0 |}
  = Some ErrCompareOpRequired /\
  RuleCondition_Validate samples.accept
    (samples.condition (Some (samples.builderQuery ["A"])) "") = None /\
  RuleCondition_Validate samples.accept
    {| CompositeQuery_ := Some samples.promQuery; CompareOp_ := "";
       Target := None; AlertOnAbsent := false; AbsentFor := 0; MatchType_ := "";
       TargetUnit := ""; Algorithm := ""; Seasonality := ""; SelectedQuery := "";
       RequireMinPoints := false; RequiredNumPoints := 0 |}
  = None.
Proof.
  repeat apply conj.
  - match goal with |- RuleCondition_Validate _ ?rc = _ =>
      destruct (RuleCondition_Validate_spec samples.accept rc) as [_ Hcq] end.
    destruct (Hcq _ eq_refl) as [Hb _]. destruct (Hb eq_refl) as (H1 & _).
    by apply H1.
  - match goal with |- RuleCondition_Validate _ ?rc = _ =>
      destruct (RuleCondition_Validate_spec samples.accept rc) as [_ Hcq] end.
    destruct (Hcq _ eq_refl) as [Hb _]. destruct (Hb eq_refl) as (_ & H2 & _).
    by apply H2.
  - match goal with |- RuleCondition_Validate _ ?rc = _ =>
      destruct (RuleCondition_Validate_spec samples.accept rc) as [_ Hcq] end.
    destruct (Hcq _ eq_refl) as [Hb _].
    destruct (Hb eq_refl) as (_ & _ & _ & _ & _ & H6).
    by apply H6.
  - match goal with |- RuleCondition_Validate _ ?rc = _ =>
      destruct (RuleCondition_Validate_spec samples.accept rc) as [_ Hcq] end.
    destruct (Hcq _ eq_refl) as [_ Hnb]. apply Hnb. vm_compute. discriminate.
Defined.

(** ** The generator URL *)

Lemma prepare_parsed (ruleId source : string) (u : url.URL) :
  source <> "" -> url.Parse source = Ok u ->
  prepareRuleGeneratorURL ruleId source =
    if strings.Contains source "new" then
      strings.slice source 0 (strings.LastIndex source "new") +:+ "edit?ruleId=" +:+ ruleId
    else
      url.Scheme u +:+ "://" +:+ url.Hostname u +:+
      (if String.eqb (url.Port u) "" then "" else ":" +:+ url.Port u) +:+
      "/alerts/edit?ruleId=" +:+ ruleId.
Proof.
  intros Hne%String.eqb_neq Hp. unfold prepareRuleGeneratorURL.
  rewrite Hne, Hp, LastIndex_Contains.
  destruct (strings.Contains source "new"); [reflexivity|].
  destruct (String.eqb (url.Port u) ""); simpl; by rewrite ?append_assoc.
Qed.

(** C7 fails on a source that holds "new" and does not parse: the scheme
    of ":new" is missing, and the result is empty, not ":edit?ruleId=r1". *)
Lemma prepareRuleGeneratorURL_new_unparsed :
  strings.Contains ":new" "new" = true /\
  strings.slice ":new" 0 (strings.LastIndex ":new" "new") = ":" /\
  url.Parse ":new" = Err "missing protocol scheme" /\
  prepareRuleGeneratorURL "r1" ":new" = "" /\
  prepareRuleGeneratorURL "r1" ":new" <> ":" +:+ "edit?ruleId=" +:+ "r1".
Proof. repeat split. vm_compute. discriminate. Qed.

(** C7, as amended: an empty source yields the empty string; a source that
    parses and holds "new" yields its prefix up to the last "new", followed
    by [edit?ruleId=<ruleId>]; a source that parses and holds no "new"
    yields [scheme://host[:port]/alerts/edit?ruleId=<ruleId>], the port
    left out when absent and the query dropped. *)
Theorem prepareRuleGeneratorURL_spec (ruleId source : string) (u : url.URL) :
  prepareRuleGeneratorURL ruleId "" = "" /\
  (source <> "" -> url.Parse source = Ok u ->
   (strings.Contains source "new" = true ->
    exists pre post,
      source = pre +:+ "new" +:+ post /\
      (forall pre', occurs_at source "new" pre' -> strings.len pre' <= strings.len pre) /\
      prepareRuleGeneratorURL ruleId source = pre +:+ "edit?ruleId=" +:+ ruleId) /\
   (strings.Contains source "new" = false ->
    prepareRuleGeneratorURL ruleId source =
      url.Scheme u +:+ "://" +:+ url.Hostname u +:+
      (if String.eqb (url.Port u) "" then "" else ":" +:+ url.Port u) +:+
      "/alerts/edit?ruleId=" +:+ ruleId)) /\
  prepareRuleGeneratorURL "r1" "http://host:3301/alerts/new?x=1"
  = "http://host:3301/alerts/edit?ruleId=r1" /\
  prepareRuleGeneratorURL "r1" "https://app.example.com/alerts/list?x=1"
  = "https://app.example.com/alerts/edit?ruleId=r1".
Proof.
  split; [reflexivity|]. split; [|split; reflexivity].
  intros Hne Hp. rewrite (prepare_parsed ruleId source u Hne Hp). split.
  - intros Hc. rewrite Hc. unfold strings.LastIndex.
    destruct (LastIndexFrom_spec 0 source "new" ltac:(lia))
      as [[_ Hno]|(Hle & pre & [post Ho] & Hl & Hmax)].
    + apply Contains_spec in Hc as [pre Hpre]. by destruct (Hno pre).
    + exists pre, post. split; [exact Ho|]. split; [exact Hmax|].
      f_equal. unfold strings.slice, strings.slice_from, strings.slice_to.
      rewrite Z.sub_0_r in *. rewrite <- Hl. unfold strings.len.
      rewrite Nat2Z.id. simpl strings.drop. rewrite Ho at 1. apply take_append.
  - by intros ->.
Qed.

Lemma prepareRuleGeneratorURL_spec_witness :
  (exists pre post,
     "http://localhost:3301/alerts/overview?tab=newest" = pre +:+ "new" +:+ post /\
     (forall pre',
        occurs_at "http://localhost:3301/alerts/overview?tab=newest" "new" pre' ->
        strings.len pre' <= strings.len pre) /\
     prepareRuleGeneratorURL "r7" "http://localhost:3301/alerts/overview?tab=newest"
     = pre +:+ "edit?ruleId=" +:+ "r7") /\
  prepareRuleGeneratorURL "r7" "http://localhost:8080/alerts?tab=AlertRules"
  = "http://localhost:8080/alerts/edit?ruleId=r7".
Proof.
  split.
  - destruct (prepareRuleGeneratorURL_spec "r7"
        "http://localhost:3301/alerts/overview?tab=newest"
        (url.mkURL "http" "" None "localhost:3301" "/alerts/overview" "tab=newest" ""))
      as (_ & H & _).
    destruct H as [H _]; [discriminate|reflexivity|].
    apply H. reflexivity.
  - destruct (prepareRuleGeneratorURL_spec "r7"
        "http://localhost:8080/alerts?tab=AlertRules"
        (url.mkURL "http" "" None "localhost:8080" "/alerts" "tab=AlertRules" ""))
      as (_ & H & _).
    destruct H as [_ H]; [discriminate|reflexivity|].
    rewrite H by reflexivity. reflexivity.
Defined.

(** C8 fails on its example: "not a url" parses (as a relative path, with
    no scheme and no host), so the link is rebuilt, not omitted. *)
Lemma prepareRuleGeneratorURL_not_a_url :
  url.Parse "not a url" = Ok (url.mkURL "" "" None "" "not a url" "" "") /\
  prepareRuleGeneratorURL "r1" "not a url" = ":///alerts/edit?ruleId=r1" /\
  prepareRuleGeneratorURL "r1" "not a url" <> "".
Proof. repeat split. vm_compute. discriminate. Qed.

(** C8, as amended: every source that fails to parse yields the empty
    string; "not a url" does parse, and yields
    [:///alerts/edit?ruleId=r1]. *)
Theorem prepareRuleGeneratorURL_unparsed :
  (forall ruleId source text,
     url.Parse source = Err text -> prepareRuleGeneratorURL ruleId source = "") /\
  prepareRuleGeneratorURL "r1" "not a url" = ":///alerts/edit?ruleId=r1".
Proof.
  split; [|reflexivity]. intros ruleId source text Hp.
  unfold prepareRuleGeneratorURL. rewrite Hp.
  destruct (String.eqb_spec source "") as [->|_]; reflexivity.
Qed.

Lemma prepareRuleGeneratorURL_unparsed_witness :
  prepareRuleGeneratorURL "r1" "http://not a url" = "" /\
  prepareRuleGeneratorURL "r1" "http://host:port/alerts" = "".
Proof.
  split.
  - apply (proj1 prepareRuleGeneratorURL_unparsed "r1" "http://not a url"
             "invalid character in host name  ").
    reflexivity.
  - apply (proj1 prepareRuleGeneratorURL_unparsed "r1" "http://host:port/alerts"
             "invalid port :port after host").
    reflexivity.
Defined.

(** ** Exact float64 arithmetic on small integers *)

Lemma iter_pos_nat {A} (f : A -> A) (p : positive) (x : A) :
  SpecFloat.iter_pos f p x = Nat.iter (Pos.to_nat p) f x.
Proof.
  revert x. induction p as [p IH|p IH|]; intros x; cbn [SpecFloat.iter_pos].
  - rewrite !IH, Pos2Nat.inj_xI, <- Nat.iter_add, <- Nat.iter_succ_r.
    f_equal. lia.
  - rewrite !IH, Pos2Nat.inj_xO, <- Nat.iter_add. f_equal. lia.
  - reflexivity.
Qed.

(** Shifting out bits that are all zero loses nothing. *)
Lemma shr_1_exact (n : nat) (z : Z) :
  0 < z ->
  Nat.iter n shr_1 (Build_shr_record (z * 2 ^ Z.of_nat n) false false)
  = Build_shr_record z false false.
Proof.
  revert z. induction n as [|n IH]; intros z Hz.
  - simpl. by rewrite Z.mul_1_r.
  - rewrite Nat2Z.inj_succ, Z.pow_succ_r by lia.
    replace (z * (2 * 2 ^ Z.of_nat n)) with (2 * z * 2 ^ Z.of_nat n) by lia.
    simpl Nat.iter. rewrite IH by lia.
    destruct z as [|q|q]; [lia|reflexivity|lia].
Qed.

Lemma shr_exact (z e n : Z) :
  0 < z -> 0 <= n ->
  shr (Build_shr_record (z * 2 ^ n) false false) e n
  = (Build_shr_record z false false, e + n).
Proof.
  intros Hz Hn. destruct n as [|p|p]; [|clear Hn|lia].
  - simpl. by rewrite Z.mul_1_r, Z.add_0_r.
  - unfold shr. rewrite iter_pos_nat. f_equal.
    rewrite <- (positive_nat_Z p) at 1. by apply shr_1_exact.
Qed.

Lemma digits2_pos_size (p : positive) : digits2_pos p = Pos.size p.
Proof. induction p as [p IH|p IH|]; simpl; by rewrite ?IH. Qed.

Lemma Zdigits2_log2 (z : Z) : 0 < z -> Zdigits2 z = Z.log2 z + 1.
Proof.
  destruct z as [|p|p]; try lia. intros _. simpl. rewrite digits2_pos_size.
  destruct p as [p|p|]; simpl; lia.
Qed.

(** A mantissa of 53 bits followed by zero bits rounds to itself. *)
Lemma binary_round_aux_exact (s : bool) (m e n : Z) :
  2 ^ 52 <= m < 2 ^ 53 -> 0 <= n -> -1074 <= e <= 971 ->
  binary_round_aux floats.prec floats.emax s (m * 2 ^ n) (e - n) loc_Exact
  = S754_finite s (Z.to_pos m) e.
Proof.
  intros Hm Hn He.
  assert (Hl : Z.log2 m = 52) by (apply Z.log2_unique; lia).
  assert (Hf : forall k, k = 53 -> fexp floats.prec floats.emax (k + e) = e).
  { intros k ->. unfold fexp, emin, floats.prec, floats.emax. lia. }
  unfold binary_round_aux, shr_fexp. cbn [shr_record_of_loc].
  rewrite Zdigits2_log2 by nia.
  rewrite Z.log2_mul_pow2 by lia.
  replace (n + Z.log2 m + 1 + (e - n)) with (53 + e) by lia.
  rewrite (Hf 53 eq_refl).
  replace (e - (e - n)) with n by lia.
  rewrite shr_exact by lia.
  cbn [shr_m loc_of_shr_record round_nearest_even shr_record_of_loc].
  rewrite Zdigits2_log2 by lia. rewrite Hl.
  replace (e - n + n) with e by lia.
  rewrite (Hf (52 + 1) eq_refl), Z.sub_diag. cbn [shr shr_m].
  destruct m as [|q|q]; try lia. simpl Z.to_pos.
  assert (Hle : (e <=? floats.emax - floats.prec) = true).
  { apply Z.leb_le. unfold floats.emax, floats.prec. lia. }
  by rewrite Hle.
Qed.

Lemma mantissa_bounds (a : Z) :
  0 < a < 2 ^ 53 -> 0 <= Z.log2 a <= 52 /\ 2 ^ 52 <= mantissa a < 2 ^ 53.
Proof.
  intros Ha. pose proof (Z.log2_nonneg a) as H0.
  assert (Z.log2 a < 53) by (apply Z.log2_lt_pow2; lia).
  split; [lia|]. unfold mantissa.
  destruct (Z.log2_spec a ltac:(lia)) as [Hlo Hhi].
  replace (2 ^ 52) with (2 ^ Z.log2 a * 2 ^ (52 - Z.log2 a))
    by (rewrite <- Z.pow_add_r by lia; f_equal; lia).
  replace (2 ^ 53) with (2 ^ Z.succ (Z.log2 a) * 2 ^ (52 - Z.log2 a))
    by (rewrite <- Z.pow_add_r by lia; f_equal; lia).
  assert (0 < 2 ^ (52 - Z.log2 a)) by (apply Z.pow_pos_nonneg; lia).
  nia.
Qed.

Lemma Pos_iter_xO (a d : positive) : Zpos (Pos.iter xO a d) = Zpos a * 2 ^ Zpos d.
Proof.
  induction d as [|d IH] using Pos.peano_ind.
  - simpl. lia.
  - rewrite Pos.iter_succ, Pos2Z.inj_xO, IH, Pos2Z.inj_succ, Z.pow_succ_r by lia.
    lia.
Qed.

Lemma ofZ_canonical (a : Z) :
  0 < a < 2 ^ 53 ->
  floats.ofZ a = S754_finite false (Z.to_pos (mantissa a)) (Z.log2 a - 52).
Proof.
  intros Ha. destruct (mantissa_bounds a Ha) as [Hl Hm].
  destruct a as [|p|p]; try lia.
  unfold floats.ofZ, binary_normalize, binary_round.
  change (Zpos (digits2_pos p)) with (Zdigits2 (Zpos p)).
  rewrite Zdigits2_log2 by lia.
  assert (Hf : fexp floats.prec floats.emax (Z.log2 (Zpos p) + 1 + 0)
               = Z.log2 (Zpos p) - 52).
  { unfold fexp, emin, floats.prec, floats.emax. lia. }
  rewrite Hf. unfold shl_align. rewrite Z.sub_0_r.
  destruct (Z.log2 (Zpos p) - 52) as [|q|q] eqn:Hq; [|lia|].
  - assert (Hman : mantissa (Zpos p) = Zpos p).
    { unfold mantissa. replace (52 - Z.log2 (Zpos p)) with 0 by lia. lia. }
    rewrite Hman in *.
    pose proof (binary_round_aux_exact false (Zpos p) 0 0 Hm ltac:(lia) ltac:(lia)) as H.
    rewrite Z.pow_0_r, Z.mul_1_r in H. exact H.
  - assert (Hman : Zpos (Pos.iter xO p q) = mantissa (Zpos p)).
    { rewrite Pos_iter_xO. unfold mantissa. do 2 f_equal. lia. }
    change (PosDef.Pos.iter xO p q) with (Pos.iter xO p q). rewrite Hman.
    pose proof (binary_round_aux_exact false (mantissa (Zpos p)) (Zneg q) 0
                  Hm ltac:(lia) ltac:(lia)) as H.
    rewrite Z.pow_0_r, Z.mul_1_r in H. exact H.
Qed.

(** The product of two integers is exact when it stays below [2 ^ 53]. *)
Lemma mul_ofZ (a b : Z) :
  0 < a -> 0 < b -> a * b < 2 ^ 53 ->
  floats.mul (floats.ofZ a) (floats.ofZ b) = floats.ofZ (a * b).
Proof.
  intros Ha Hb Hab.
  assert (Ha' : 0 < a < 2 ^ 53) by nia.
  assert (Hb' : 0 < b < 2 ^ 53) by nia.
  assert (Hab' : 0 < a * b < 2 ^ 53) by nia.
  destruct (mantissa_bounds a Ha') as [Hla Hma].
  destruct (mantissa_bounds b Hb') as [Hlb Hmb].
  destruct (mantissa_bounds (a * b) Hab') as [Hlab Hmab].
  pose proof (Z.log2_mul_below a b Ha Hb) as Hlow.
  rewrite (ofZ_canonical a Ha'), (ofZ_canonical b Hb'), (ofZ_canonical _ Hab').
  unfold floats.mul, SFmul. cbn [xorb].
  rewrite Pos2Z.inj_mul, !Z2Pos.id by lia.
  set (n := 52 + Z.log2 (a * b) - Z.log2 a - Z.log2 b).
  replace (mantissa a * mantissa b) with (mantissa (a * b) * 2 ^ n).
  2:{ unfold mantissa, n.
      replace (a * 2 ^ (52 - Z.log2 a) * (b * 2 ^ (52 - Z.log2 b)))
        with (a * b * (2 ^ (52 - Z.log2 a) * 2 ^ (52 - Z.log2 b))) by lia.
      rewrite <- Z.mul_assoc, <- !Z.pow_add_r by lia. do 2 f_equal. lia. }
  replace (Z.log2 a - 52 + (Z.log2 b - 52)) with (Z.log2 (a * b) - 52 - n)
    by (unfold n; lia).
  apply binary_round_aux_exact; unfold n; lia.
Qed.

(** Truncating the float of an integer gives the integer back. *)
Lemma trunc_ofZ (a : Z) : 0 < a < 2 ^ 53 -> floats.trunc (floats.ofZ a) = Some a.
Proof.
  intros Ha. destruct (mantissa_bounds a Ha) as [Hl Hm].
  rewrite (ofZ_canonical a Ha). unfold floats.trunc.
  rewrite Z2Pos.id by lia. f_equal.
  destruct (0 <=? Z.log2 a - 52) eqn:He.
  - apply Z.leb_le in He. unfold mantissa.
    replace (52 - Z.log2 a) with 0 by lia.
    replace (Z.log2 a - 52) with 0 by lia. lia.
  - unfold mantissa. replace (- (Z.log2 a - 52)) with (52 - Z.log2 a) by lia.
    apply Z.div_mul. apply Z.pow_nonzero; lia.
Qed.

Lemma toUint64_ofZ (p : floats.platform) (a : Z) :
  0 < a < 2 ^ 53 -> floats.toUint64 p (floats.ofZ a) = a.
Proof.
  intros Ha. unfold floats.toUint64. rewrite (trunc_ofZ a Ha).
  assert (H : (0 <=? a) && (a <? 2 ^ 64) = true).
  { apply andb_true_iff. rewrite Z.leb_le, Z.ltb_lt. lia. }
  by rewrite H.
Qed.

Lemma toInt64_ofZ (p : floats.platform) (a : Z) :
  0 < a < 2 ^ 53 -> floats.toInt64 p (floats.ofZ a) = a.
Proof.
  intros Ha. unfold floats.toInt64. rewrite (trunc_ofZ a Ha).
  assert (H : (- 2 ^ 63 <=? a) && (a <? 2 ^ 63) = true).
  { apply andb_true_iff. rewrite Z.leb_le, Z.ltb_lt. lia. }
  by rewrite H.
Qed.

(** ** Printing and reading back decimal digits *)

Lemma digit_spec (d : Z) :
  0 <= d <= 9 ->
  time.isDigit (time.digit d) = true /\ strings.byte (time.digit d) - 48 = d.
Proof.
  intros H.
  assert (Hd : d = 0 \/ d = 1 \/ d = 2 \/ d = 3 \/ d = 4 \/ d = 5 \/ d = 6 \/
               d = 7 \/ d = 8 \/ d = 9) by lia.
  repeat (destruct Hd as [->|Hd]; [by vm_compute|]). subst d. by vm_compute.
Qed.

Lemma mod10_digit (v : Z) : 0 <= v mod 10 <= 9.
Proof. pose proof (Z.mod_pos_bound v 10 ltac:(lia)). lia. Qed.

Lemma leadingIntFrom_digit (x d : Z) (s : string) :
  0 <= d <= 9 -> 0 <= x -> x * 10 + d <= 2 ^ 63 ->
  time.leadingIntFrom x (String (time.digit d) s) = time.leadingIntFrom (x * 10 + d) s.
Proof.
  intros Hd Hx Hb. destruct (digit_spec d Hd) as [Hi Hv].
  cbn [time.leadingIntFrom]. rewrite Hi. cbn [negb].
  assert (H1 : (2 ^ 63 / 10 <? x) = false).
  { apply Z.ltb_ge. apply Z.div_le_lower_bound; lia. }
  rewrite H1. replace (x * 10 + strings.byte (time.digit d) - 48) with (x * 10 + d) by lia.
  assert (H2 : (2 ^ 63 <? x * 10 + d) = false) by (apply Z.ltb_ge; lia).
  by rewrite H2.
Qed.

Lemma leadingIntFrom_stop (x : Z) (s : string) :
  startsWithoutDigit s -> time.leadingIntFrom x s = Ok (x, s).
Proof. destruct s as [|c s]; [done|]. simpl. by intros ->. Qed.

(** Reading back what [fmtInt]'s loop wrote. *)
Lemma leadingIntFrom_fmtIntLoop (fuel : nat) (buf : string) (v : Z) :
  0 <= v < 10 ^ Z.of_nat fuel -> v <= 2 ^ 63 ->
  time.leadingIntFrom 0 (time.fmtIntLoop fuel buf v) = time.leadingIntFrom v buf.
Proof.
  revert buf v. induction fuel as [|fuel IH]; intros buf v Hv Hb.
  - simpl in *. by replace v with 0 by lia.
  - cbn [time.fmtIntLoop]. destruct (0 <? v) eqn:Hp.
    + apply Z.ltb_lt in Hp.
      rewrite Nat2Z.inj_succ, Z.pow_succ_r in Hv by lia.
      pose proof (mod10_digit v) as Hd.
      pose proof (Z.div_mod v 10 ltac:(lia)) as Hdm.
      rewrite IH.
      * rewrite leadingIntFrom_digit; [f_equal; lia|lia|..]; lia.
      * split; [apply Z.div_pos; lia|apply Z.div_lt_upper_bound; lia].
      * assert (v / 10 <= v); [|lia]. apply Z.div_le_upper_bound; lia.
    + apply Z.ltb_ge in Hp. by replace v with 0 by lia.
Qed.

Lemma leadingInt_fmtInt (buf : string) (v : Z) :
  0 <= v <= 2 ^ 63 -> startsWithoutDigit buf ->
  time.leadingInt (time.fmtInt buf v) = Ok (v, buf).
Proof.
  intros Hv Hbuf. unfold time.leadingInt, time.fmtInt.
  destruct (Z.eqb_spec v 0) as [->|Hne].
  - change "0"%char with (time.digit 0).
    rewrite leadingIntFrom_digit by lia. by apply leadingIntFrom_stop.
  - rewrite leadingIntFrom_fmtIntLoop; [by apply leadingIntFrom_stop| |lia].
    change (Z.of_nat 20) with 20. lia.
Qed.

Lemma fmtIntLoop_head (fuel : nat) (buf : string) (v : Z) :
  startsWithDigit buf -> startsWithDigit (time.fmtIntLoop fuel buf v).
Proof.
  revert buf v. induction fuel as [|fuel IH]; intros buf v Hb; [done|].
  cbn [time.fmtIntLoop]. destruct (0 <? v); [|done].
  apply IH. simpl. apply digit_spec, mod10_digit.
Qed.

Lemma fmtIntLoop_S (fuel : nat) (buf : string) (v : Z) :
  time.fmtIntLoop (S fuel) buf v =
  if 0 <? v then time.fmtIntLoop fuel (String (time.digit (v mod 10)) buf) (v / 10)
  else buf.
Proof. reflexivity. Qed.

Lemma fmtInt_head (buf : string) (v : Z) : 0 <= v -> startsWithDigit (time.fmtInt buf v).
Proof.
  intros Hv. unfold time.fmtInt. destruct (Z.eqb_spec v 0) as [->|Hne]; [done|].
  change 20%nat with (S 19). rewrite fmtIntLoop_S.
  assert (Hp : (0 <? v) = true) by (apply Z.ltb_lt; lia). rewrite Hp.
  apply fmtIntLoop_head. simpl. apply digit_spec, mod10_digit.
Qed.

Lemma fmtIntLoop_length (fuel : nat) (buf : string) (v : Z) :
  (String.length buf <= String.length (time.fmtIntLoop fuel buf v))%nat.
Proof.
  revert buf v. induction fuel as [|fuel IH]; intros buf v; [done|].
  rewrite fmtIntLoop_S. destruct (0 <? v); [|done].
  etrans; [|apply IH]. simpl. lia.
Qed.

Lemma fmtInt_length (buf : string) (v : Z) :
  0 <= v -> (String.length buf < String.length (time.fmtInt buf v))%nat.
Proof.
  intros Hv. unfold time.fmtInt. destruct (Z.eqb_spec v 0) as [->|Hne].
  - simpl. lia.
  - change 20%nat with (S 19). rewrite fmtIntLoop_S.
    assert (Hp : (0 <? v) = true) by (apply Z.ltb_lt; lia). rewrite Hp.
    eapply Nat.lt_le_trans; [|apply fmtIntLoop_length]. simpl. lia.
Qed.

(** Twenty rounds are enough for any [uint64]: more fuel changes nothing. *)
Lemma fmtIntLoop_fuel (n k : nat) (buf : string) (v : Z) :
  0 <= v < 10 ^ Z.of_nat n ->
  time.fmtIntLoop (n + k) buf v = time.fmtIntLoop n buf v.
Proof.
  revert buf v. induction n as [|n IH]; intros buf v Hv.
  - change (10 ^ Z.of_nat 0) with 1 in Hv. assert (v = 0) as -> by lia.
    simpl. by destruct k.
  - cbn [Nat.add]. rewrite !fmtIntLoop_S. destruct (0 <? v); [|reflexivity].
    apply IH. rewrite Nat2Z.inj_succ, Z.pow_succ_r in Hv by lia.
    split; [apply Z.div_pos; lia|apply Z.div_lt_upper_bound; lia].
Qed.

Lemma fmtIntLoop_uint64 (k : nat) (buf : string) (v : Z) :
  0 <= v < 2 ^ 64 -> time.fmtIntLoop (20 + k) buf v = time.fmtIntLoop 20 buf v.
Proof.
  intros Hv. apply fmtIntLoop_fuel.
  assert (E : 10 ^ Z.of_nat 20 = 100000000000000000000) by reflexivity.
  assert (E' : 2 ^ 64 = 18446744073709551616) by reflexivity.
  rewrite E. rewrite E' in Hv. lia.
Qed.

Lemma pow10_pos (k : Z) : 0 <= k -> 0 < 10 ^ k.
Proof. intros. apply Z.pow_pos_nonneg; lia. Qed.

Lemma pow10_le (j k : Z) : 0 <= j <= k -> 10 ^ j <= 10 ^ k.
Proof. intros. apply Z.pow_le_mono_r; lia. Qed.

Lemma leadingFractionFrom_digit (x d j : Z) (s : string) :
  0 <= d <= 9 -> 0 <= j <= 14 -> 0 <= x < 10 ^ j ->
  time.leadingFractionFrom x (floats.ofZ (10 ^ j)) false (String (time.digit d) s)
  = time.leadingFractionFrom (x * 10 + d) (floats.ofZ (10 ^ (j + 1))) false s.
Proof.
  intros Hd Hj Hx. destruct (digit_spec d Hd) as [Hi Hv].
  pose proof (pow10_le j 14 ltac:(lia)) as Hp. pose proof (pow10_pos j ltac:(lia)).
  assert (E14 : 10 ^ 14 = 100000000000000) by reflexivity.
  rewrite E14 in Hp.
  assert (Estep : forall c x sc s', time.isDigit c = true ->
     ((2 ^ 63 - 1) / 10 <? x) = false ->
     (2 ^ 63 <? x * 10 + strings.byte c - 48) = false ->
     time.leadingFractionFrom x sc false (String c s')
     = time.leadingFractionFrom (x * 10 + strings.byte c - 48)
         (floats.mul sc (floats.ofZ 10)) false s').
  { intros c x0 sc s' H1 H2 H3. cbn [time.leadingFractionFrom].
    rewrite H1. cbn [negb]. by rewrite H2, H3. }
  assert (Ediv : (2 ^ 63 - 1) / 10 = 922337203685477580) by reflexivity.
  assert (E63 : 2 ^ 63 = 9223372036854775808) by reflexivity.
  rewrite Estep.
  - replace (x * 10 + strings.byte (time.digit d) - 48) with (x * 10 + d) by lia.
    rewrite mul_ofZ by lia. rewrite Z.pow_add_r by lia. reflexivity.
  - exact Hi.
  - rewrite Ediv. apply Z.ltb_ge. lia.
  - rewrite E63. apply Z.ltb_ge. lia.
Qed.

Lemma leadingFractionFrom_stop (x : Z) (scale : float64) (overflow : bool) (s : string) :
  startsWithoutDigit s -> time.leadingFractionFrom x scale overflow s = (x, scale, s).
Proof. destruct s as [|c s]; [done|]. simpl. by intros ->. Qed.

(** What [fmtFrac]'s loop writes: the [m] leading digits of the fraction,
    of value [w], its trailing zeros dropped; reading them back multiplies
    the scale by [10 ^ m]. *)
Lemma fmtFracLoop_spec (p : nat) (buf : string) (v : Z) (print : bool) :
  0 <= v ->
  exists buf' print' (m : nat) (w : Z),
    time.fmtFracLoop p buf v print = (buf', v / 10 ^ Z.of_nat p, print') /\
    (m <= p)%nat /\ 0 <= w < 10 ^ Z.of_nat m /\
    w * 10 ^ (Z.of_nat p - Z.of_nat m) = v mod 10 ^ Z.of_nat p /\
    (print = true -> m = p) /\
    (print' = false -> print = false /\ buf' = buf /\ w = 0 /\ m = 0%nat) /\
    (forall x j, 0 <= j -> j + Z.of_nat m <= 15 -> 0 <= x < 10 ^ j ->
       time.leadingFractionFrom x (floats.ofZ (10 ^ j)) false buf'
       = time.leadingFractionFrom (x * 10 ^ Z.of_nat m + w)
           (floats.ofZ (10 ^ (j + Z.of_nat m))) false buf).
Proof.
  revert buf v print. induction p as [|p IH]; intros buf v print Hv.
  - exists buf, print, 0%nat, 0. cbn [time.fmtFracLoop]. change (Z.of_nat 0) with 0.
    rewrite Z.pow_0_r, Z.div_1_r, Z.mod_1_r.
    split; [done|]. split; [done|]. split; [lia|]. split; [lia|].
    split; [done|]. split; [by intros ->|].
    intros x j Hj _ Hx. by rewrite Z.mul_1_r, !Z.add_0_r.
  - cbn [time.fmtFracLoop].
    set (d0 := v mod 10). set (print1 := print || negb (d0 =? 0)).
    pose proof (mod10_digit v) as Hd. fold d0 in Hd.
    destruct (IH (if print1 then String (time.digit d0) buf else buf) (v / 10) print1
                ltac:(apply Z.div_pos; lia))
      as (buf' & print' & m1 & w1 & E & Hm & Hw & Hval & Hpr & Hno & Hparse).
    pose proof (pow10_pos (Z.of_nat p) ltac:(lia)) as Hpp.
    assert (Hdiv : v / 10 / 10 ^ Z.of_nat p = v / 10 ^ Z.of_nat (S p)).
    { rewrite Nat2Z.inj_succ, Z.pow_succ_r by lia. apply Z.div_div; lia. }
    assert (Hmod : v mod 10 ^ Z.of_nat (S p) = d0 + 10 * ((v / 10) mod 10 ^ Z.of_nat p)).
    { rewrite Nat2Z.inj_succ, Z.pow_succ_r by lia. apply Z.rem_mul_r; lia. }
    rewrite Hdiv in E. destruct print1 eqn:Hp1.
    + specialize (Hpr eq_refl). subst m1.
      rewrite Z.sub_diag, Z.pow_0_r, Z.mul_1_r in Hval.
      exists buf', print', (S p), (w1 * 10 + d0). split; [exact E|].
      split; [done|]. split.
      { rewrite Nat2Z.inj_succ, Z.pow_succ_r by lia. lia. }
      split.
      { rewrite Z.sub_diag, Z.pow_0_r, Z.mul_1_r, Hmod. lia. }
      split; [done|]. split.
      { intros Hf. by destruct (Hno Hf) as [? _]. }
      intros x j Hj Hjm Hx. rewrite (Hparse x j Hj ltac:(lia) Hx).
      pose proof (pow10_pos j Hj).
      rewrite leadingFractionFrom_digit; [|lia|lia|].
      * f_equal; [|do 2 f_equal; lia].
        rewrite Nat2Z.inj_succ, Z.pow_succ_r by lia. lia.
      * rewrite Z.pow_add_r by lia. nia.
    + apply orb_false_iff in Hp1 as [-> Hz]. apply negb_false_iff, Z.eqb_eq in Hz.
      exists buf', print', m1, w1. split; [exact E|].
      split; [lia|]. split; [done|]. split.
      { rewrite Hmod, Hz, <- Hval.
        replace (Z.of_nat (S p) - Z.of_nat m1) with (Z.succ (Z.of_nat p - Z.of_nat m1)) by lia.
        rewrite Z.pow_succ_r by lia. lia. }
      split; [done|]. split; [|exact Hparse].
      intros Hf. by destruct (Hno Hf) as (_ & ? & ? & ?).
Qed.

Lemma div_ofZ_pow10 (i k : nat) :
  (k <= i <= 9)%nat ->
  floats.div (floats.ofZ (10 ^ Z.of_nat i)) (floats.ofZ (10 ^ Z.of_nat k))
  = floats.ofZ (10 ^ (Z.of_nat i - Z.of_nat k)).
Proof.
  intros H.
  do 10 (destruct i as [|i];
    [do 10 (destruct k as [|k]; [first [lia|vm_compute; reflexivity]|]); lia|]).
  lia.
Qed.

Lemma unitOf_head (unitName rest : string) (unit : Z) :
  unitOf unitName rest unit ->
  exists c t, unitName +:+ rest = String c t /\
    Ascii.eqb c "." = false /\ time.isDigit c = false.
Proof.
  intros (_ & Hl & Hn). destruct unitName as [|c t]; [simpl in Hn; lia|].
  exists c, (t +:+ rest). split; [reflexivity|].
  rewrite append_cons in Hl. cbn [time.unitLength] in Hl.
  destruct (Ascii.eqb c "." || time.isDigit c) eqn:E; [simpl in Hl; lia|].
  by apply orb_false_iff in E.
Qed.

Section ParseFacts.

Variable platform : floats.platform.

(** Reading one printed component adds its value to the sum and leaves the
    rest of the text. *)
Lemma parseComponent_component (orig unitName rest : string) (unit u : Z)
    (prec : nat) (whole d : Z) :
  unitOf unitName rest unit ->
  prec = 0%nat \/ ((prec <= 9)%nat /\ unit = 10 ^ Z.of_nat prec) ->
  0 < unit -> 0 <= u -> 0 <= whole -> 0 <= d ->
  d + whole * unit + u mod 10 ^ Z.of_nat prec <= 2 ^ 63 ->
  time.parseComponent platform orig (component unitName rest u prec whole) d
  = Ok (d + whole * unit + u mod 10 ^ Z.of_nat prec, rest).
Proof.
  intros Hunit Hprec Hpos Hu Hwhole Hd Hsum.
  destruct (unitOf_head _ _ _ Hunit) as (c0 & t0 & Hhead & Hdot & Hdig).
  destruct Hunit as (Hmap & Hlen & Hne).
  assert (Hprec9 : (prec <= 9)%nat) by (destruct Hprec as [->|[? _]]; lia).
  pose proof (pow10_pos (Z.of_nat prec) ltac:(lia)) as Hpp.
  pose proof (Z.mod_pos_bound u (10 ^ Z.of_nat prec) Hpp) as Hfrac.
  assert (Hwu : 0 <= whole * unit) by nia.
  unfold component, time.fmtFrac.
  destruct (fmtFracLoop_spec prec (unitName +:+ rest) u false Hu)
    as (buf' & print' & m & w & E & Hm & Hw & Hval & _ & Hno & Hparse).
  rewrite E. cbn [fst].
  set (bufF := if print' then String "." buf' else buf').
  assert (HbufF : startsWithoutDigit bufF).
  { unfold bufF. destruct print'; [done|].
    destruct (Hno eq_refl) as (_ & -> & _). by rewrite Hhead. }
  assert (Hwhole' : whole <= 2 ^ 63 / unit).
  { apply Z.div_le_lower_bound; lia. }
  pose proof (fmtInt_head bufF whole Hwhole) as Hh.
  pose proof (fmtInt_length bufF whole Hwhole) as Hl.
  pose proof (leadingInt_fmtInt bufF whole ltac:(nia) HbufF) as Hint.
  destruct (time.fmtInt bufF whole) as [|c s] eqn:Es; [done|].
  unfold time.parseComponent. simpl in Hh. rewrite Hh, orb_true_r. cbn [negb].
  rewrite Hint.
  assert (Hpre : (strings.len (String c s) =? strings.len bufF) = false).
  { apply Z.eqb_neq. unfold strings.len. lia. }
  rewrite Hpre. cbn [negb andb].
  assert (Hfrac' :
    (match bufF with
     | String c1 s1' =>
         if Ascii.eqb c1 "." then
           let '(f, scale, s2) := time.leadingFraction s1' in
           (f, scale, s2, negb (strings.len s1' =? strings.len s2))
         else (0, floats.ofZ 1, bufF, false)
     | "" => (0, floats.ofZ 1, bufF, false)
     end) = (w, floats.ofZ (10 ^ Z.of_nat m), unitName +:+ rest,
             if print' then negb (strings.len buf' =? strings.len (unitName +:+ rest))
             else false)).
  { unfold bufF. destruct print'.
    - change (Ascii.eqb "." ".") with true. cbv iota. unfold time.leadingFraction.
      change (floats.ofZ 1) with (floats.ofZ (10 ^ 0)).
      rewrite (Hparse 0 0 ltac:(lia) ltac:(lia) ltac:(lia)).
      rewrite leadingFractionFrom_stop by (by rewrite Hhead).
      by rewrite Z.mul_0_l, !Z.add_0_l.
    - destruct (Hno eq_refl) as (_ & -> & -> & ->). by rewrite Hhead, Hdot. }
  rewrite Hfrac'. clear Hfrac'.
  rewrite Hlen.
  assert (Hnz : Nat.eqb (String.length unitName) 0 = false) by (apply Nat.eqb_neq; lia).
  rewrite Hnz, take_append, drop_append, Hmap.
  assert (Hov : (2 ^ 63 / unit <? whole) = false) by (apply Z.ltb_ge; lia).
  rewrite Hov.
  assert (Hadd :
    (if 0 <? w
     then uint64.wrap
            (whole * unit + floats.toUint64 platform
               (floats.mul (floats.ofZ w)
                  (floats.div (floats.ofZ unit) (floats.ofZ (10 ^ Z.of_nat m)))))
     else whole * unit) = whole * unit + u mod 10 ^ Z.of_nat prec).
  { destruct (0 <? w) eqn:Hw0.
    - apply Z.ltb_lt in Hw0.
      destruct Hprec as [->|[_ ->]].
      { assert (m = 0%nat) as -> by lia. change (10 ^ Z.of_nat 0) with 1 in Hw. lia. }
      rewrite div_ofZ_pow10 by lia.
      pose proof (pow10_pos (Z.of_nat prec - Z.of_nat m) ltac:(lia)).
      pose proof (pow10_le (Z.of_nat prec) 9 ltac:(lia)) as H9.
      change (10 ^ 9) with 1000000000 in H9.
      rewrite mul_ofZ by lia. rewrite Hval.
      rewrite toUint64_ofZ by lia.
      unfold uint64.wrap. rewrite Z.mod_small; lia.
    - apply Z.ltb_ge in Hw0. assert (w = 0) as -> by lia. lia. }
  rewrite Hadd.
  assert (Hc1 : (0 <? w) && (2 ^ 63 <? whole * unit + u mod 10 ^ Z.of_nat prec) = false).
  { apply andb_false_iff. right. apply Z.ltb_ge. lia. }
  rewrite Hc1.
  assert (Hwrap : uint64.wrap (d + (whole * unit + u mod 10 ^ Z.of_nat prec))
                  = d + whole * unit + u mod 10 ^ Z.of_nat prec).
  { unfold uint64.wrap. rewrite Z.mod_small; lia. }
  rewrite Hwrap.
  assert (Hc2 : (2 ^ 63 <? d + whole * unit + u mod 10 ^ Z.of_nat prec) = false)
    by (apply Z.ltb_ge; lia).
  by rewrite Hc2.
Qed.

End ParseFacts.

(** ** The rounds of the parser *)

Lemma leadingIntFrom_suffix (x : Z) (s : string) (v : Z) (s1 : string) :
  time.leadingIntFrom x s = Ok (v, s1) -> (String.length s1 <= String.length s)%nat.
Proof.
  revert x. induction s as [|c s IH]; intros x; cbn [time.leadingIntFrom].
  - by intros [= _ <-].
  - destruct (negb (time.isDigit c)); [by intros [= _ <-]|].
    destruct (2 ^ 63 / 10 <? x); [done|].
    destruct (2 ^ 63 <? x * 10 + strings.byte c - 48); [done|].
    intros H%IH. simpl. lia.
Qed.

Lemma leadingFractionFrom_suffix (x : Z) (scale : float64) (overflow : bool)
    (s : string) (f : Z) (scale' : float64) (s2 : string) :
  time.leadingFractionFrom x scale overflow s = (f, scale', s2) ->
  (String.length s2 <= String.length s)%nat.
Proof.
  revert x scale overflow. induction s as [|c s IH]; intros x scale overflow;
    cbn [time.leadingFractionFrom].
  - by intros [= _ _ <-].
  - destruct (negb (time.isDigit c)); [by intros [= _ _ <-]|].
    destruct overflow; [intros H%IH; simpl; lia|].
    destruct ((2 ^ 63 - 1) / 10 <? x); [intros H%IH; simpl; lia|].
    destruct (2 ^ 63 <? x * 10 + strings.byte c - 48); intros H%IH; simpl; lia.
Qed.

Lemma length_drop_sub (n : nat) (s : string) :
  String.length (strings.drop n s) = (String.length s - n)%nat.
Proof. revert s. induction n as [|n IH]; intros [|c s]; simpl; auto. Qed.

Lemma unitLength_le (s : string) : (time.unitLength s <= String.length s)%nat.
Proof.
  induction s as [|c s IH]; simpl; [lia|].
  destruct (Ascii.eqb c "." || time.isDigit c); simpl; lia.
Qed.

Section LoopFacts.

Variable platform : floats.platform.

(** Every round consumes at least one byte. *)
Lemma parseComponent_shortens (orig s : string) (d d' : Z) (s' : string) :
  time.parseComponent platform orig s d = Ok (d', s') ->
  (String.length s' < String.length s)%nat.
Proof.
  unfold time.parseComponent. destruct s as [|c s]; [done|].
  destruct (negb (Ascii.eqb c "." || time.isDigit c)); [done|].
  destruct (time.leadingInt (String c s)) as [[v s1]|] eqn:Hint; [|done].
  apply leadingIntFrom_suffix in Hint.
  set (frac := match s1 with
               | "" => (0, floats.ofZ 1, s1, false)
               | String c1 s1' => _
               end).
  assert (Hfrac : (String.length (snd (fst frac)) <= String.length s1)%nat).
  { unfold frac. destruct s1 as [|c1 s1']; [done|].
    destruct (Ascii.eqb c1 "."); [|done].
    destruct (time.leadingFraction s1') as [[f sc] s2] eqn:Hf.
    apply leadingFractionFrom_suffix in Hf. simpl. lia. }
  destruct frac as [[[f scale] s2] post]. cbn [fst snd] in Hfrac.
  destruct (negb _ && negb post); [done|].
  destruct (Nat.eqb_spec (time.unitLength s2) 0) as [|Hn]; [done|].
  destruct (time.unitMap _) as [unit|]; [|done].
  destruct (2 ^ 63 / unit <? v); [done|].
  match goal with |- context [if ?b then _ else _] => destruct b end; [done|].
  match goal with |- context [if ?b then _ else _] => destruct b end; [done|].
  intros [= _ <-]. rewrite length_drop_sub.
  pose proof (unitLength_le s2). lia.
Qed.

(** Fuel beyond the length of the text changes nothing: the loop never
    runs out of it. *)
Lemma parseLoop_fuel (orig : string) (n k : nat) (s : string) (d : Z) :
  (String.length s <= n)%nat ->
  time.parseLoop platform (n + k) orig s d = time.parseLoop platform n orig s d.
Proof.
  revert s d. induction n as [|n IH]; intros s d Hn.
  - destruct s; [|simpl in Hn; lia]. by destruct k.
  - destruct s as [|c s]; [reflexivity|].
    cbn [Nat.add time.parseLoop].
    destruct (time.parseComponent platform orig (String c s) d) as [[d' s']|e] eqn:E;
      [|reflexivity].
    apply parseComponent_shortens in E. cbn [mbind result_bind].
    apply IH. simpl in *. lia.
Qed.

Lemma parseLoop_nil (orig : string) (n : nat) (d : Z) :
  time.parseLoop platform n orig "" d = Ok d.
Proof. by destruct n. Qed.

Lemma parseLoop_step (orig : string) (n : nat) (s : string) (d d' : Z) (s' : string) :
  time.parseComponent platform orig s d = Ok (d', s') ->
  time.parseLoop platform (S n) orig s d = time.parseLoop platform n orig s' d'.
Proof.
  intros E. destruct s as [|c s]; [done|].
  cbn [time.parseLoop]. by rewrite E.
Qed.

End LoopFacts.

(** ** The text of a duration *)

Lemma fmtFrac_spec (buf : string) (v : Z) (p : nat) :
  0 <= v -> time.fmtFrac buf v p = (fst (time.fmtFrac buf v p), v / 10 ^ Z.of_nat p).
Proof.
  intros Hv. unfold time.fmtFrac.
  destruct (fmtFracLoop_spec p buf v false Hv) as (buf' & print' & m & w & E & _).
  by rewrite E.
Qed.

Lemma DurationString_magnitude (d : time.Duration) :
  int64.in_range d -> d <> 0 ->
  time.DurationString d =
    if d <? 0 then String "-" (magnitudeText (Z.abs d)) else magnitudeText (Z.abs d).
Proof.
  unfold int64.in_range, int64.min, int64.max. intros Hr Hz.
  unfold time.DurationString.
  assert (Hu : (if d <? 0 then uint64.wrap (- uint64.wrap d) else uint64.wrap d) = Z.abs d).
  { unfold uint64.wrap. destruct (d <? 0) eqn:Hn.
    - apply Z.ltb_lt in Hn.
      replace (d mod 2 ^ 64) with (d + 2 ^ 64)
        by (apply Z.mod_unique with (q := -1); lia).
      symmetry. apply Z.mod_unique with (q := -1); lia.
    - apply Z.ltb_ge in Hn. rewrite Z.mod_small; lia. }
  rewrite Hu. set (u := Z.abs d). assert (Hpos : 0 < u) by (unfold u; lia).
  unfold magnitudeText, component.
  destruct (u <? time.Second) eqn:Hs.
  - assert (Hz' : (u =? 0) = false) by (apply Z.eqb_neq; lia). rewrite Hz'.
    destruct (u <? time.Microsecond).
    + rewrite (fmtFrac_spec "ns" u 0) by lia. cbn [fst snd].
      change (10 ^ Z.of_nat 0) with 1. by rewrite Z.div_1_r.
    + destruct (u <? time.Millisecond).
      * rewrite append_nil_r. by rewrite (fmtFrac_spec _ u 3) by lia.
      * by rewrite (fmtFrac_spec "ms" u 6) by lia.
  - rewrite (fmtFrac_spec "s" u 9) by lia. change (10 ^ Z.of_nat 9) with (10 ^ 9).
    cbn [fst snd]. destruct (0 <? u / 10 ^ 9 / 60); [|reflexivity].
    destruct (0 <? u / 10 ^ 9 / 60 / 60); reflexivity.
Qed.

Lemma unitLength_before_digit (rest : string) :
  rest = "" \/ startsWithDigit rest -> time.unitLength rest = 0%nat.
Proof.
  intros [->|H]; [reflexivity|]. destruct rest as [|c rest]; [done|].
  simpl in *. by rewrite H, orb_true_r.
Qed.

Lemma unitOf_s (rest : string) :
  rest = "" \/ startsWithDigit rest -> unitOf "s" rest time.Second.
Proof.
  intros H. repeat split; [|simpl; lia]. rewrite append_cons, append_nil_l.
  cbn [time.unitLength]. change (Ascii.eqb "s" "." || time.isDigit "s") with false.
  cbv iota. by rewrite unitLength_before_digit.
Qed.

Lemma unitOf_m (rest : string) :
  rest = "" \/ startsWithDigit rest -> unitOf "m" rest time.Minute.
Proof.
  intros H. repeat split; [|simpl; lia]. rewrite append_cons, append_nil_l.
  cbn [time.unitLength]. change (Ascii.eqb "m" "." || time.isDigit "m") with false.
  cbv iota. by rewrite unitLength_before_digit.
Qed.

Lemma unitOf_h (rest : string) :
  rest = "" \/ startsWithDigit rest -> unitOf "h" rest time.Hour.
Proof.
  intros H. repeat split; [|simpl; lia]. rewrite append_cons, append_nil_l.
  cbn [time.unitLength]. change (Ascii.eqb "h" "." || time.isDigit "h") with false.
  cbv iota. by rewrite unitLength_before_digit.
Qed.

Lemma unitOf_small :
  unitOf "ns" "" time.Nanosecond /\
  unitOf (time.micro +:+ "s") "" time.Microsecond /\
  unitOf "ms" "" time.Millisecond.
Proof.
  repeat split; try reflexivity; simpl; lia.
Qed.

Lemma component_head (unitName rest : string) (u : Z) (prec : nat) (whole : Z) :
  0 <= whole -> startsWithDigit (component unitName rest u prec whole).
Proof. intros H. by apply fmtInt_head. Qed.

Section RoundTrip.

Variable platform : floats.platform.

(** Three rounds at most read the text of a magnitude back. *)
Lemma parseLoop_magnitudeText (orig : string) (u : Z) (n : nat) :
  0 < u <= 2 ^ 63 ->
  time.parseLoop platform (S (S (S n))) orig (magnitudeText u) 0 = Ok u.
Proof.
  intros Hu. unfold magnitudeText.
  destruct (u <? time.Second) eqn:Hs.
  - destruct unitOf_small as (Hns & Hus' & Hms').
    destruct (u <? time.Microsecond) eqn:Hus; [|destruct (u <? time.Millisecond) eqn:Hms].
    + rewrite (parseLoop_step platform orig _ _ 0 (0 + u * 1 + u mod 10 ^ Z.of_nat 0) "").
      * rewrite parseLoop_nil. f_equal. change (10 ^ Z.of_nat 0) with 1.
        rewrite Z.mod_1_r. lia.
      * apply parseComponent_component; [exact Hns|by left|lia|lia|lia|lia|].
        change (10 ^ Z.of_nat 0) with 1. rewrite Z.mod_1_r. lia.
    + pose proof (Z.div_mod u (10 ^ 3) ltac:(lia)) as Hdm.
      pose proof (Z.mod_pos_bound u (10 ^ 3) ltac:(lia)) as Hmb.
      assert (Hq : 0 <= u / 10 ^ 3) by (apply Z.div_pos; lia).
      rewrite (parseLoop_step platform orig _ _ 0
                 (0 + u / 10 ^ 3 * 1000 + u mod 10 ^ Z.of_nat 3) "").
      * rewrite parseLoop_nil. f_equal. change (10 ^ Z.of_nat 3) with (10 ^ 3). lia.
      * apply parseComponent_component; [exact Hus'| |lia|lia|lia|lia|].
        -- right. split; [lia|reflexivity].
        -- change (10 ^ Z.of_nat 3) with (10 ^ 3). lia.
    + pose proof (Z.div_mod u (10 ^ 6) ltac:(lia)) as Hdm.
      pose proof (Z.mod_pos_bound u (10 ^ 6) ltac:(lia)) as Hmb.
      assert (Hq : 0 <= u / 10 ^ 6) by (apply Z.div_pos; lia).
      rewrite (parseLoop_step platform orig _ _ 0
                 (0 + u / 10 ^ 6 * 1000000 + u mod 10 ^ Z.of_nat 6) "").
      * rewrite parseLoop_nil. f_equal. change (10 ^ Z.of_nat 6) with (10 ^ 6). lia.
      * apply parseComponent_component; [exact Hms'| |lia|lia|lia|lia|].
        -- right. split; [lia|reflexivity].
        -- change (10 ^ Z.of_nat 6) with (10 ^ 6). lia.
  - apply Z.ltb_ge in Hs. change time.Second with (10 ^ 9) in Hs.
    set (secs := u / 10 ^ 9). cbv zeta.
    pose proof (Z.div_mod u (10 ^ 9) ltac:(lia)) as Hdm. fold secs in Hdm.
    pose proof (Z.mod_pos_bound u (10 ^ 9) ltac:(lia)) as Hmb.
    assert (Hsecs : 0 < secs) by (apply Z.div_str_pos; lia).
    pose proof (Z.div_mod secs 60 ltac:(lia)) as Hdm1.
    pose proof (Z.mod_pos_bound secs 60 ltac:(lia)) as Hmb1.
    pose proof (Z.div_mod (secs / 60) 60 ltac:(lia)) as Hdm2.
    pose proof (Z.mod_pos_bound (secs / 60) 60 ltac:(lia)) as Hmb2.
    assert (Hmins : 0 <= secs / 60) by (apply Z.div_pos; lia).
    assert (Hhours : 0 <= secs / 60 / 60) by (apply Z.div_pos; lia).
    set (secText := component "s" "" u 9 (secs mod 60)).
    assert (Hsec : forall d, 0 <= d ->
              d + secs mod 60 * 10 ^ 9 + u mod 10 ^ 9 <= 2 ^ 63 ->
              time.parseComponent platform orig secText d
              = Ok (d + secs mod 60 * 10 ^ 9 + u mod 10 ^ 9, "")).
    { intros d Hd Hb. unfold secText.
      refine (parseComponent_component platform orig "s" "" time.Second u 9
                (secs mod 60) d _ _ _ _ _ Hd _).
      - apply unitOf_s. by left.
      - right. split; [lia|reflexivity].
      - done.
      - lia.
      - lia.
      - exact Hb. }
    destruct (0 <? secs / 60) eqn:Hm.
    + set (minText := component "m" secText 0 0 (secs / 60 mod 60)).
      assert (Hmin : forall d, 0 <= d ->
                d + secs / 60 mod 60 * time.Minute <= 2 ^ 63 ->
                time.parseComponent platform orig minText d
                = Ok (d + secs / 60 mod 60 * time.Minute, secText)).
      { intros d Hd Hb. unfold minText.
        pose proof (parseComponent_component platform orig "m" secText time.Minute 0 0
                      (secs / 60 mod 60) d) as H.
        change (0 mod 10 ^ Z.of_nat 0) with 0 in H. rewrite Z.add_0_r in H.
        apply H; [|by left|done|done|lia|done|lia].
        apply unitOf_m. right. apply component_head. lia. }
      change time.Minute with (60 * 10 ^ 9) in Hmin.
      destruct (0 <? secs / 60 / 60) eqn:Hh.
      * assert (Hhour :
          time.parseComponent platform orig
            (component "h" minText 0 0 (secs / 60 / 60)) 0
          = Ok (secs / 60 / 60 * (3600 * 10 ^ 9), minText)).
        { pose proof (parseComponent_component platform orig "h" minText time.Hour 0 0
                        (secs / 60 / 60) 0) as H.
          change (0 mod 10 ^ Z.of_nat 0) with 0 in H.
          rewrite Z.add_0_r, Z.add_0_l in H.
          apply H; [|by left|done|done|lia|done|].
          - apply unitOf_h. right. apply component_head. lia.
          - change time.Hour with (3600 * 10 ^ 9). lia. }
        rewrite (parseLoop_step platform orig _ _ _ _ _ Hhour).
        rewrite (parseLoop_step platform orig _ _ _ _ _
                   (Hmin (secs / 60 / 60 * (3600 * 10 ^ 9)) ltac:(lia) ltac:(lia))).
        rewrite (parseLoop_step platform orig _ _ _ _ _
                   (Hsec (secs / 60 / 60 * (3600 * 10 ^ 9)
                          + secs / 60 mod 60 * (60 * 10 ^ 9)) ltac:(lia) ltac:(lia))).
        rewrite parseLoop_nil. f_equal. lia.
      * apply Z.ltb_ge in Hh.
        rewrite (parseLoop_step platform orig _ _ _ _ _ (Hmin 0 ltac:(lia) ltac:(lia))).
        rewrite (parseLoop_step platform orig _ _ _ _ _
                   (Hsec (0 + secs / 60 mod 60 * (60 * 10 ^ 9)) ltac:(lia) ltac:(lia))).
        rewrite parseLoop_nil. f_equal. lia.
    + apply Z.ltb_ge in Hm.
      rewrite (parseLoop_step platform orig _ _ _ _ _ (Hsec 0 ltac:(lia) ltac:(lia))).
      rewrite parseLoop_nil. f_equal. lia.
Qed.

End RoundTrip.

Lemma isDigit_not_sign (c : ascii) :
  time.isDigit c = true -> Ascii.eqb c "-" || Ascii.eqb c "+" = false.
Proof.
  destruct c as [[] [] [] [] [] [] [] []]; vm_compute; intros H;
    first [reflexivity|discriminate H].
Qed.

Lemma magnitudeText_head (u : Z) : 0 < u -> startsWithDigit (magnitudeText u).
Proof.
  intros Hu. unfold magnitudeText.
  assert (Hq : forall k, 0 < k -> 0 <= u / k) by (intros; apply Z.div_pos; lia).
  assert (Hs : 0 <= u / 10 ^ 9) by (apply Hq; lia).
  repeat match goal with
         | |- context [if ?b then _ else _] => destruct b
         end; apply component_head; try lia; try (apply Hq; lia).
  - apply Z.div_pos; [apply Z.div_pos|]; lia.
  - pose proof (Z.mod_pos_bound (u / 10 ^ 9 / 60) 60 ltac:(lia)). lia.
  - pose proof (Z.mod_pos_bound (u / 10 ^ 9) 60 ltac:(lia)). lia.
Qed.

Lemma wrap_neg_wrap (u : Z) : 0 < u <= 2 ^ 63 -> int64.wrap (- int64.wrap u) = - u.
Proof.
  intros Hu. destruct (Z.eq_dec u (2 ^ 63)) as [->|Hne]; [reflexivity|].
  rewrite (wrap_in_range u), wrap_in_range;
    unfold int64.in_range, int64.min, int64.max; lia.
Qed.

Section DurationCodec.

Variable platform : floats.platform.

(** Parsing the text of a magnitude, with or without a sign. *)
Lemma ParseDuration_magnitudeText (neg : bool) (u : Z) :
  0 < u <= 2 ^ 63 -> (neg = false -> u <= 2 ^ 63 - 1) ->
  time.ParseDuration platform
    (if neg then String "-" (magnitudeText u) else magnitudeText u)
  = Ok (if neg then - u else u).
Proof.
  intros Hu Hmax.
  pose proof (magnitudeText_head u ltac:(lia)) as Hhead.
  set (orig := if neg then String "-" (magnitudeText u) else magnitudeText u).
  pose proof (fun n => parseLoop_magnitudeText platform orig u n Hu) as Hloop.
  destruct (magnitudeText u) as [|c t] eqn:Et; [done|]. simpl in Hhead.
  assert (Hpre :
    (match orig with
     | String c0 s' =>
         if Ascii.eqb c0 "-" || Ascii.eqb c0 "+" then (Ascii.eqb c0 "-", s')
         else (false, orig)
     | "" => (false, orig)
     end) = (neg, String c t)).
  { unfold orig. destruct neg; [reflexivity|]. by rewrite (isDigit_not_sign c Hhead). }
  unfold time.ParseDuration. rewrite Hpre.
  assert (Hz : String.eqb (String c t) "0" = false).
  { apply String.eqb_neq. intros E. specialize (Hloop 0%nat). rewrite E in Hloop.
    vm_compute in Hloop. discriminate Hloop. }
  rewrite Hz. change (String.eqb (String c t) "") with false. cbv iota.
  rewrite <- (parseLoop_fuel platform orig _ 3 _ 0 (le_n _)).
  rewrite Nat.add_comm. change (3 + ?n)%nat with (S (S (S n))).
  rewrite Hloop. cbn [mbind result_bind].
  destruct neg.
  - by rewrite wrap_neg_wrap.
  - assert (Hle : (2 ^ 63 - 1 <? u) = false) by (apply Z.ltb_ge; auto).
    by rewrite Hle.
Qed.

(** Parsing what [String] prints gives the duration back. *)
Lemma ParseDuration_DurationString (d : time.Duration) :
  int64.in_range d ->
  time.ParseDuration platform (time.DurationString d) = Ok d.
Proof.
  intros Hr. destruct (Z.eq_dec d 0) as [->|Hne]; [reflexivity|].
  rewrite (DurationString_magnitude d Hr Hne).
  unfold int64.in_range, int64.min, int64.max in Hr.
  pose proof (ParseDuration_magnitudeText (d <? 0) (Z.abs d)) as H.
  destruct (d <? 0) eqn:Hn.
  - apply Z.ltb_lt in Hn. rewrite H; [f_equal; lia|lia|done].
  - apply Z.ltb_ge in Hn. rewrite H; [f_equal; lia|lia|lia].
Qed.

(** C9: [MarshalJSON] writes the text of [String]; [UnmarshalJSON] of
    what it wrote gives the duration back (90 seconds is written as 1m30s
    and read back as 90 seconds); a JSON number is read as a count of
    nanoseconds, 90000000000 as 90 seconds; the string notaduration is
    refused with an error. *)
Theorem Duration_json_roundtrip (d : Duration) :
  int64.in_range d ->
  Duration_MarshalJSON d = Ok (JString (time.DurationString d)) /\
  Duration_UnmarshalJSON platform (Duration_MarshalJSON d) = Ok d /\
  Duration_MarshalJSON (90 * time.Second) = Ok (JString "1m30s") /\
  Duration_UnmarshalJSON platform (Ok (JString "1m30s")) = Ok (90 * time.Second) /\
  Duration_UnmarshalJSON platform (Ok (JNumber (floats.ofZ 90000000000)))
  = Ok (90 * time.Second) /\
  (forall n, 0 < n < 2 ^ 53 ->
     Duration_UnmarshalJSON platform (Ok (JNumber (floats.ofZ n))) = Ok n) /\
  exists text,
    Duration_UnmarshalJSON platform (Ok (JString "notaduration")) = Err text.
Proof.
  intros Hr. split; [reflexivity|]. split.
  { unfold Duration_MarshalJSON, Duration_UnmarshalJSON.
    by rewrite (ParseDuration_DurationString d Hr). }
  split; [reflexivity|]. split; [reflexivity|].
  assert (Hnum : forall n, 0 < n < 2 ^ 53 ->
            Duration_UnmarshalJSON platform (Ok (JNumber (floats.ofZ n))) = Ok n).
  { intros n Hn. unfold Duration_UnmarshalJSON. by rewrite toInt64_ofZ. }
  split; [exact (Hnum 90000000000 ltac:(lia))|]. split; [exact Hnum|].
  eexists. reflexivity.
Qed.

End DurationCodec.

Lemma Duration_json_roundtrip_witness :
  Duration_UnmarshalJSON floats.indefinite (Duration_MarshalJSON (-1500000000)) = Ok (-1500000000).
Proof.
  assert (H : int64.in_range (-1500000000)) by (vm_compute; intuition discriminate).
  exact (proj1 (proj2 (Duration_json_roundtrip floats.indefinite (-1500000000) H))).
Defined.


(** * Further properties

    ** The rule condition, validated *)

Lemma CompareOp_Validate_None (co : CompareOp) :
  CompareOp_Validate co = None <-> In co ["1"; "2"; "3"; "4"; "5"; "6"; "7"].
Proof.
  rewrite <- existsb_eqb_In. unfold CompareOp_Validate.
  change [ValueIsAbove; ValueIsBelow; ValueIsEq; ValueIsNotEq;
          ValueAboveOrEq; ValueBelowOrEq; ValueOutsideBounds]
    with ["1"; "2"; "3"; "4"; "5"; "6"; "7"].
  destruct (existsb _ _); split; congruence.
Qed.

Lemma MatchType_Validate_None (mt : MatchType) :
  MatchType_Validate mt = None <-> In mt ["0"; "1"; "2"; "3"; "4"; "5"].
Proof.
  rewrite <- existsb_eqb_In. unfold MatchType_Validate.
  change [MatchTypeNone; AtleastOnce; AllTheTimes; OnAverage; InTotal; Last]
    with ["0"; "1"; "2"; "3"; "4"; "5"].
  destruct (existsb _ _); split; congruence.
Qed.

(** X1: [Validate] succeeds exactly on a condition that has a composite
    query which validates and, for a builder query, a target, an operator
    among the codes 1 to 7 and a match type among the codes 0 to 5. *)
Theorem RuleCondition_Validate_ok {BuilderQuery ClickHouseQuery : Type}
    (validate : v3.CompositeQuery BuilderQuery ClickHouseQuery -> option error)
    (rc : RuleCondition BuilderQuery ClickHouseQuery) :
  RuleCondition_Validate validate rc = None <->
  exists cq, CompositeQuery_ rc = Some cq /\ validate cq = None /\
    (QueryType rc = v3.QueryTypeBuilder ->
     Target rc <> None /\
     In (CompareOp_ rc) ["1"; "2"; "3"; "4"; "5"; "6"; "7"] /\
     In (MatchType_ rc) ["0"; "1"; "2"; "3"; "4"; "5"]).
Proof.
  pose proof (CompareOp_Validate_None (CompareOp_ rc)) as Hco.
  pose proof (MatchType_Validate_None (MatchType_ rc)) as Hmt.
  assert (Hco0 : ~ In "" ["1"; "2"; "3"; "4"; "5"; "6"; "7"])
    by (simpl; intuition discriminate).
  assert (Hmt0 : ~ In "" ["0"; "1"; "2"; "3"; "4"; "5"])
    by (simpl; intuition discriminate).
  unfold RuleCondition_Validate.
  destruct (CompositeQuery_ rc) as [cq|] eqn:Ecq.
  2:{ split; [discriminate|]. by intros (cq & [=] & _). }
  destruct (String.eqb_spec (QueryType rc) v3.QueryTypeBuilder) as [Hb|Hnb].
  - destruct (Target rc) as [target|].
    2:{ split; [discriminate|]. intros (cq' & _ & _ & H). by destruct (H Hb) as [? _]. }
    destruct (String.eqb_spec (CompareOp_ rc) "") as [Hce|Hcne].
    { split; [discriminate|]. intros (cq' & _ & _ & H).
      destruct (H Hb) as (_ & Hin & _). by rewrite Hce in Hin. }
    destruct (CompareOp_Validate (CompareOp_ rc)) as [e|] eqn:Ev.
    { split; [discriminate|]. intros (cq' & _ & _ & H).
      destruct (H Hb) as (_ & Hin & _). apply Hco in Hin. discriminate. }
    destruct (String.eqb_spec (MatchType_ rc) "") as [Hme|Hmne].
    { split; [discriminate|]. intros (cq' & _ & _ & H).
      destruct (H Hb) as (_ & _ & Hin). by rewrite Hme in Hin. }
    destruct (MatchType_Validate (MatchType_ rc)) as [e|] eqn:Em.
    { split; [discriminate|]. intros (cq' & _ & _ & H).
      destruct (H Hb) as (_ & _ & Hin). apply Hmt in Hin. discriminate. }
    split.
    + intros Hv. exists cq. repeat split; try done; [by apply Hco|by apply Hmt].
    + by intros (cq' & [= <-] & Hv & _).
  - split.
    + intros Hv. exists cq. by repeat split.
    + by intros (cq' & [= <-] & Hv & _).
Qed.

(** ** What the operators print *)

(** X2: the text of a validation error does not show the rejected value:
    [CompareOp.Validate] has one text for the code 0 and one for every
    other rejected string, [MatchType.Validate] one text for all. *)
Theorem Validate_error_texts :
  (forall co : CompareOp,
     CompareOp_Validate co = None \/
     (co = CompareOpNone /\
      CompareOp_Validate co = Some (Errorf
        ("invalid compare op: None: Enum value 0 supported ops are " +:+
         describeAll CompareOp_String supportedCompareOps))) \/
     (co <> CompareOpNone /\
      CompareOp_Validate co = Some (Errorf
        ("invalid compare op: Unknown: Enum value supported ops are " +:+
         describeAll CompareOp_String supportedCompareOps)))) /\
  (forall mt : MatchType,
     MatchType_Validate mt = None \/
     MatchType_Validate mt = Some (Errorf
       ("invalid match type: Unknown: Enum value supported ops are " +:+
        describeAll MatchType_String supportedMatchTypes))) /\
  describeAll MatchType_String supportedMatchTypes =
    "None: Enum value 0, AtleastOnce: Enum value 1, AllTheTimes: Enum value 2, OnAverage: Enum value 3, InTotal: Enum value 4, Last: Enum value 5, ".
Proof.
  split; [|split; [|reflexivity]].
  - intros co. unfold CompareOp_Validate, CompareOp_String. cbn [existsb].
    destruct (String.eqb_spec co CompareOpNone) as [->|Hn].
    { right. left. by split. }
    repeat match goal with
           | |- context [String.eqb co ?x] => destruct (String.eqb co x); [by left|]
           end.
    right. right. by split.
  - intros mt. unfold MatchType_Validate, MatchType_String. cbn [existsb].
    repeat match goal with
           | |- context [String.eqb mt ?x] => destruct (String.eqb mt x); [by left|]
           end.
    by right.
Qed.

(** X3: [String] tells the supported values apart, and prints the text
    for an unknown value exactly on the strings that are not supported. *)
Theorem String_descriptions :
  (forall a b : CompareOp,
     In a supportedCompareOps -> In b supportedCompareOps ->
     CompareOp_String a = CompareOp_String b -> a = b) /\
  (forall co : CompareOp,
     CompareOp_String co = "Unknown: Enum value" <-> ~ In co supportedCompareOps) /\
  (forall a b : MatchType,
     In a supportedMatchTypes -> In b supportedMatchTypes ->
     MatchType_String a = MatchType_String b -> a = b) /\
  (forall mt : MatchType,
     MatchType_String mt = "Unknown: Enum value" <-> ~ In mt supportedMatchTypes).
Proof.
  repeat apply conj.
  - intros a b Ha Hb. simpl in Ha, Hb.
    repeat (destruct Ha as [<-|Ha]; [|]); try done;
      repeat (destruct Hb as [<-|Hb]; [|]); try done;
      vm_compute; congruence.
  - intros co. rewrite <- existsb_eqb_In. unfold CompareOp_String.
    cbn [existsb supportedCompareOps].
    repeat match goal with
           | |- context [String.eqb co ?x] =>
               destruct (String.eqb co x); [cbn [orb]; split; [discriminate|congruence]|]
           end.
    cbn [orb]. split; congruence.
  - intros a b Ha Hb. simpl in Ha, Hb.
    repeat (destruct Ha as [<-|Ha]; [|]); try done;
      repeat (destruct Hb as [<-|Hb]; [|]); try done;
      vm_compute; congruence.
  - intros mt. rewrite <- existsb_eqb_In. unfold MatchType_String.
    cbn [existsb supportedMatchTypes].
    repeat match goal with
           | |- context [String.eqb mt ?x] =>
               destruct (String.eqb mt x); [cbn [orb]; split; [discriminate|congruence]|]
           end.
    cbn [orb]. split; congruence.
Qed.

(** ** The resend policy over time *)

Lemma Before_trans (t u v : time.Time) :
  time.Before t u = true -> time.Before u v = true -> time.Before t v = true.
Proof.
  unfold time.Before.
  rewrite !orb_true_iff, !andb_true_iff, !Z.ltb_lt, !Z.eqb_eq. lia.
Qed.

(** X4: a notification that is due stays due: if [needsSending] holds at
    some instant, it holds at every later instant. *)
Theorem needsSending_stays_due (a : Alert) (now later : time.Time)
    (resendDelay : time.Duration) :
  needsSending a now resendDelay = true ->
  time.Before now later = true ->
  needsSending a later resendDelay = true.
Proof.
  unfold needsSending. intros Hdue Hlater.
  destruct (decide (State a = model.StatePending)); [done|].
  destruct (time.After (ResolvedAt a) (LastSentAt a)); [done|].
  by apply Before_trans with now.
Qed.

Lemma needsSending_stays_due_witness :
  needsSending samples.firing (time.mkTime 63900000700 5) samples.fiveMinutes = true.
Proof.
  apply (needsSending_stays_due samples.firing (time.mkTime 63900000601 0)
           (time.mkTime 63900000700 5) samples.fiveMinutes); reflexivity.
Defined.

(** X20: a shorter resend delay never postpones a notification: within
    the range of instants that [Add] does not saturate, what is due after
    some delay is due after any shorter one. *)
Theorem needsSending_shorter_delay (a : Alert) (now : time.Time)
    (resendDelay shorter : time.Duration) :
  time.wf (LastSentAt a) -> time.wf now ->
  int64.in_range ((time.nanos (LastSentAt a) + resendDelay) / 1000000000) ->
  int64.in_range ((time.nanos (LastSentAt a) + shorter) / 1000000000) ->
  shorter <= resendDelay ->
  needsSending a now resendDelay = true ->
  needsSending a now shorter = true.
Proof.
  intros Hl Hn Hr Hr' Hle. unfold needsSending.
  destruct (decide (State a = model.StatePending)); [done|].
  destruct (time.After (ResolvedAt a) (LastSentAt a)); [done|].
  destruct (Add_nanos _ _ Hl Hr) as [Hw He].
  destruct (Add_nanos _ _ Hl Hr') as [Hw' He'].
  rewrite (Before_nanos _ _ Hw Hn), (Before_nanos _ _ Hw' Hn). lia.
Qed.

Lemma needsSending_shorter_delay_witness :
  needsSending samples.firing (time.mkTime 63900000601 0) time.Minute = true.
Proof.
  apply (needsSending_shorter_delay samples.firing (time.mkTime 63900000601 0)
           samples.fiveMinutes time.Minute);
    vm_compute; intuition discriminate.
Defined.

(** ** The generator URL, as callers see it *)

Lemma append_not_nil (s t : string) : t <> "" -> s +:+ t <> "".
Proof. intros Ht. destruct s; [done|]. rewrite append_cons. discriminate. Qed.

(** X5: the link is empty exactly when the source is empty or does not
    parse; every other link ends with [edit?ruleId=] and the rule id. *)
Theorem prepareRuleGeneratorURL_empty_iff (ruleId source : string) :
  (prepareRuleGeneratorURL ruleId source = "" <->
   source = "" \/ exists text, url.Parse source = Err text) /\
  (prepareRuleGeneratorURL ruleId source = "" \/
   exists pre, prepareRuleGeneratorURL ruleId source = pre +:+ "edit?ruleId=" +:+ ruleId).
Proof.
  assert (Hne : forall pre, pre +:+ "edit?ruleId=" +:+ ruleId <> "").
  { intros pre. by apply append_not_nil. }
  destruct (String.eqb_spec source "") as [->|Hs].
  { split; [|by left]. split; [by left|reflexivity]. }
  destruct (url.Parse source) as [u|text] eqn:Hp.
  - assert (Hshape : exists pre,
              prepareRuleGeneratorURL ruleId source = pre +:+ "edit?ruleId=" +:+ ruleId).
    { rewrite (prepare_parsed ruleId source u Hs Hp).
      destruct (strings.Contains source "new"); [by eexists|].
      exists (url.Scheme u +:+ "://" +:+ url.Hostname u +:+
              (if String.eqb (url.Port u) "" then "" else ":" +:+ url.Port u) +:+
              "/alerts/").
      by rewrite !append_assoc. }
    split; [|by right]. destruct Hshape as [pre ->]. split.
    + intros H. by destruct (Hne pre).
    + intros [?|[text [=]]]. done.
  - assert (He : prepareRuleGeneratorURL ruleId source = "").
    { unfold prepareRuleGeneratorURL. rewrite Hp.
      by destruct (String.eqb_spec source ""). }
    split; [|by left]. split; [|done]. intros _. right. by exists text.
Qed.

(** ** The text of a duration identifies it *)

(** X6: [MarshalJSON] writes distinct durations as distinct texts. *)
Theorem Duration_MarshalJSON_inj (d1 d2 : Duration) :
  int64.in_range d1 -> int64.in_range d2 ->
  Duration_MarshalJSON d1 = Duration_MarshalJSON d2 -> d1 = d2.
Proof.
  intros H1 H2 [= He].
  pose proof (ParseDuration_DurationString floats.indefinite d1 H1) as P1.
  pose proof (ParseDuration_DurationString floats.indefinite d2 H2) as P2.
  rewrite He in P1. congruence.
Qed.

Lemma Duration_MarshalJSON_inj_witness : 90 * time.Second = 90000000000.
Proof.
  apply Duration_MarshalJSON_inj; [| |reflexivity];
    vm_compute; intuition discriminate.
Defined.

(** ** The selected query, once more *)

(** X7: on a non-nil receiver [GetSelectedQueryName] panics exactly when
    no query is selected and no name is collected, always for the index
    out of range; a name that it returns is the selected query, which is
    then not empty, or one of the collected names. *)
Theorem GetSelectedQueryName_outcomes {BuilderQuery ClickHouseQuery : Type}
    (rc : RuleCondition BuilderQuery ClickHouseQuery) :
  (forall what,
     GetSelectedQueryName (Some rc) = Panics what <->
     SelectedQuery rc = "" /\ queryNames rc = ∅ /\ what = "index out of range [-1]") /\
  (forall name,
     GetSelectedQueryName (Some rc) = Returns name ->
     (name = SelectedQuery rc /\ name <> "") \/
     (SelectedQuery rc = "" /\ name ∈ queryNames rc)).
Proof.
  unfold GetSelectedQueryName.
  destruct (String.eqb_spec (SelectedQuery rc) "") as [Hs|Hs]; cbn [negb].
  2:{ split.
      - intros what. split; [done|]. by intros [? _].
      - intros name [= <-]. by left. }
  pose proof (lastSorted_spec (elements (queryNames rc))) as Hl.
  destruct (decide ("F1" ∈ queryNames rc)) as [Hf|Hf].
  { split.
    - intros what. split; [done|]. intros (_ & He & _). rewrite He in Hf. set_solver.
    - intros name [= <-]. by right. }
  unfold lastSorted in *.
  destruct (last (merge_sort String.le (elements (queryNames rc)))) as [k|].
  - destruct Hl as [Hin _]. apply elem_of_elements in Hin. split.
    + intros what. split; [done|]. intros (_ & He & _). rewrite He in Hin. set_solver.
    + intros name [= <-]. by right.
  - apply elements_empty_inv, leibniz_equiv in Hl. split.
    + intros what. split; [by intros [= <-]|]. by intros (_ & _ & ->).
    + done.
Qed.

(** X8: [Validate] does not guard the selection: a condition whose query
    is neither a builder nor a ClickHouse SQL query, with no selected query,
    passes [Validate] as soon as its composite query does, and makes
    [GetSelectedQueryName] panic. *)
Theorem Validate_then_GetSelectedQueryName {BuilderQuery ClickHouseQuery : Type}
    (validate : v3.CompositeQuery BuilderQuery ClickHouseQuery -> option error)
    (rc : RuleCondition BuilderQuery ClickHouseQuery)
    (cq : v3.CompositeQuery BuilderQuery ClickHouseQuery) :
  CompositeQuery_ rc = Some cq -> validate cq = None ->
  QueryType rc <> v3.QueryTypeBuilder -> QueryType rc <> v3.QueryTypeClickHouseSQL ->
  SelectedQuery rc = "" ->
  RuleCondition_Validate validate rc = None /\
  GetSelectedQueryName (Some rc) = Panics "index out of range [-1]".
Proof.
  intros Hcq Hv Hb Hc Hs. split.
  - unfold RuleCondition_Validate. rewrite Hcq.
    by destruct (String.eqb_spec (QueryType rc) v3.QueryTypeBuilder).
  - unfold GetSelectedQueryName. rewrite Hs, (queryNames_other rc Hb Hc). cbn [negb String.eqb].
    rewrite decide_False by set_solver. by rewrite elements_empty.
Qed.

Lemma Validate_then_GetSelectedQueryName_witness :
  RuleCondition_Validate samples.accept (samples.condition (Some samples.promQuery) "")
  = None /\
  GetSelectedQueryName (Some (samples.condition (Some samples.promQuery) ""))
  = Panics "index out of range [-1]".
Proof.
  apply (Validate_then_GetSelectedQueryName samples.accept
           (samples.condition (Some samples.promQuery) "") samples.promQuery);
    by vm_compute.
Defined.

(** ** Durations without a unit *)

Lemma leadingIntFrom_allDigits (s : string) (x : Z) :
  allDigits s = true ->
  time.leadingIntFrom x s = Err "time: bad [0-9]*" \/
  exists v, time.leadingIntFrom x s = Ok (v, "").
Proof.
  revert x. induction s as [|c s IH]; intros x Hd; cbn [time.leadingIntFrom].
  - right. by exists x.
  - cbn [allDigits] in Hd. apply andb_true_iff in Hd as [Hc Hs]. rewrite Hc. cbn [negb].
    destruct (2 ^ 63 / 10 <? x); [by left|].
    destruct (2 ^ 63 <? x * 10 + strings.byte c - 48); [by left|].
    by apply IH.
Qed.

(** X9: [UnmarshalJSON] refuses a JSON string of decimal digits, other
    than the string 0: for want of a unit, or because the number is too
    large. *)
Theorem Duration_UnmarshalJSON_digits (platform : floats.platform) (s : string) :
  allDigits s = true -> s <> "" -> s <> "0" ->
  Duration_UnmarshalJSON platform (Ok (JString s))
  = Err ("time: missing unit in duration " +:+ time.quote s) \/
  Duration_UnmarshalJSON platform (Ok (JString s))
  = Err ("time: invalid duration " +:+ time.quote s).
Proof.
  intros Hd Hne H0. unfold Duration_UnmarshalJSON, time.ParseDuration.
  destruct s as [|c s]; [done|]. clear Hne.
  pose proof Hd as Hd'. cbn [allDigits] in Hd'. apply andb_true_iff in Hd' as [Hc Hs].
  assert (Hsign : Ascii.eqb c "-" || Ascii.eqb c "+" = false).
  { destruct (Ascii.eqb_spec c "-") as [->|_]; [done|].
    by destruct (Ascii.eqb_spec c "+") as [->|_]. }
  rewrite Hsign.
  destruct (String.eqb_spec (String c s) "0") as [?|_]; [done|].
  destruct (String.eqb_spec (String c s) "") as [?|_]; [done|].
  cbn [String.length time.parseLoop]. unfold time.parseComponent.
  rewrite Hc, orb_true_r. cbn [negb]. unfold time.leadingInt.
  destruct (leadingIntFrom_allDigits (String c s) 0 Hd) as [->|[v ->]].
  - by right.
  - left. reflexivity.
Qed.

Lemma Duration_UnmarshalJSON_digits_witness :
  Duration_UnmarshalJSON floats.indefinite (Ok (JString "300"))
  = Err ("time: missing unit in duration " +:+ time.quote "300") \/
  Duration_UnmarshalJSON floats.indefinite (Ok (JString "300"))
  = Err ("time: invalid duration " +:+ time.quote "300").
Proof.
  apply (Duration_UnmarshalJSON_digits floats.indefinite "300"); by vm_compute.
Defined.

(** * Further code: field keys and authorization tuples

    ** Cutting and joining text *)

Lemma IndexFrom_shift (i : Z) (s substr : string) :
  0 <= i ->
  strings.IndexFrom i s substr =
  if strings.Index s substr <? 0 then -1 else i + strings.Index s substr.
Proof.
  unfold strings.Index. revert i. induction s as [|c s IH]; intros i Hi; simpl.
  - destruct (strings.HasPrefix "" substr); simpl; lia.
  - destruct (strings.HasPrefix (String c s) substr); [simpl; lia|].
    rewrite (IH (i + 1)), (IH (0 + 1)) by lia.
    destruct (strings.IndexFrom 0 s substr <? 0) eqn:E; [done|].
    apply Z.ltb_ge in E.
    destruct (0 + 1 + strings.IndexFrom 0 s substr <? 0) eqn:E'; lia.
Qed.

Lemma Index_nil_byte (c : ascii) : strings.Index "" (String c "") = -1.
Proof. reflexivity. Qed.

Lemma Index_cons_byte (c a : ascii) (s : string) :
  strings.Index (String a s) (String c "") =
  if Ascii.eqb c a then 0
  else if strings.Index s (String c "") <? 0 then -1
       else 1 + strings.Index s (String c "").
Proof.
  unfold strings.Index at 1. cbn [strings.IndexFrom strings.HasPrefix].
  destruct (Ascii.eqb c a); [reflexivity|]. cbn [andb].
  by rewrite IndexFrom_shift.
Qed.

Lemma slice_to_S (a : ascii) (s : string) (m : Z) :
  0 <= m -> strings.slice_to (String a s) (1 + m) = String a (strings.slice_to s m).
Proof.
  intros Hm. unfold strings.slice_to.
  replace (Z.to_nat (1 + m)) with (S (Z.to_nat m)) by lia. reflexivity.
Qed.

Lemma slice_from_S (a : ascii) (s : string) (m : Z) :
  0 <= m -> strings.slice_from (String a s) (1 + m) = strings.slice_from s m.
Proof.
  intros Hm. unfold strings.slice_from.
  replace (Z.to_nat (1 + m)) with (S (Z.to_nat m)) by lia. reflexivity.
Qed.

(** With a one-byte separator the cuts of [Split] are those of a scan of
    the text, byte by byte. *)
Lemma splitLoop_byte (c : ascii) (s : string) (n : nat) :
  (String.length s <= n)%nat ->
  strings.splitLoop n s (String c "") = splitByte c s.
Proof.
  revert n. induction s as [|a s IH]; intros n Hn.
  - destruct n; reflexivity.
  - destruct n as [|n]; [simpl in Hn; lia|]. simpl in Hn.
    cbn [strings.splitLoop splitByte]. rewrite Index_cons_byte.
    destruct (Ascii.eqb_spec c a) as [->|Hne].
    + rewrite Ascii.eqb_refl. cbn [Z.ltb Z.compare].
      change (0 + strings.len (String a "")) with 1.
      change (strings.slice_to (String a s) 0) with "".
      change (strings.slice_from (String a s) 1) with s.
      by rewrite IH by lia.
    + assert (Hac : Ascii.eqb a c = false).
      { apply Ascii.eqb_neq. congruence. }
      rewrite Hac.
      pose proof (IH (S n) ltac:(lia)) as IHS. cbn [strings.splitLoop] in IHS.
      destruct (strings.Index s (String c "") <? 0) eqn:E.
      * cbn [Z.ltb Z.compare]. by rewrite <- IHS.
      * apply Z.ltb_ge in E.
        assert (E' : (1 + strings.Index s (String c "") <? 0) = false)
          by (apply Z.ltb_ge; lia).
        rewrite E', <- IHS. f_equal.
        -- by apply slice_to_S.
        -- f_equal. change (strings.len (String c "")) with 1.
           rewrite <- Z.add_assoc. apply slice_from_S. lia.
Qed.

Lemma Split_byte (c : ascii) (s : string) :
  strings.Split s (String c "") = splitByte c s.
Proof. by apply splitLoop_byte. Qed.

Lemma replaceLoop_byte (c : ascii) (new s : string) (n : nat) :
  (String.length s <= n)%nat ->
  strings.replaceLoop n s (String c "") new = replaceByte c new s.
Proof.
  revert n. induction s as [|a s IH]; intros n Hn.
  - destruct n; reflexivity.
  - destruct n as [|n]; [simpl in Hn; lia|]. simpl in Hn.
    cbn [strings.replaceLoop replaceByte]. rewrite Index_cons_byte.
    destruct (Ascii.eqb_spec c a) as [->|Hne].
    + rewrite Ascii.eqb_refl. cbn [Z.ltb Z.compare].
      change (0 + strings.len (String a "")) with 1.
      change (strings.slice_to (String a s) 0) with "".
      change (strings.slice_from (String a s) 1) with s.
      by rewrite IH by lia.
    + assert (Hac : Ascii.eqb a c = false).
      { apply Ascii.eqb_neq. congruence. }
      rewrite Hac.
      pose proof (IH (S n) ltac:(lia)) as IHS. cbn [strings.replaceLoop] in IHS.
      destruct (strings.Index s (String c "") <? 0) eqn:E.
      * cbn [Z.ltb Z.compare]. by rewrite <- IHS.
      * apply Z.ltb_ge in E.
        assert (E' : (1 + strings.Index s (String c "") <? 0) = false)
          by (apply Z.ltb_ge; lia).
        rewrite E', <- IHS, slice_to_S, append_cons by lia.
        change (strings.len (String c "")) with 1.
        by rewrite <- Z.add_assoc, slice_from_S by lia.
Qed.

Lemma ReplaceAll_byte (c : ascii) (new s : string) :
  new <> String c "" ->
  strings.ReplaceAll s (String c "") new = replaceByte c new s.
Proof.
  intros Hn. unfold strings.ReplaceAll.
  destruct (String.eqb_spec (String c "") new) as [He|_]; [by destruct Hn|].
  by apply replaceLoop_byte.
Qed.

Lemma Join_fold (sep x : string) (rest : list string) (e : string) :
  fold_left (fun b s => (b +:+ sep) +:+ s) rest (x +:+ e) =
  x +:+ fold_left (fun b s => (b +:+ sep) +:+ s) rest e.
Proof.
  revert e. induction rest as [|r rest IH]; intros e; [reflexivity|].
  cbn [fold_left]. by rewrite <- IH, !append_assoc.
Qed.

Lemma Join_cons (sep e e' : string) (rest : list string) :
  strings.Join (e :: e' :: rest) sep = e +:+ sep +:+ strings.Join (e' :: rest) sep.
Proof.
  unfold strings.Join. cbn [fold_left].
  by rewrite append_assoc, Join_fold, Join_fold.
Qed.

Lemma Join_head (sep : string) (a : ascii) (e : string) (rest : list string) :
  strings.Join (String a e :: rest) sep = String a (strings.Join (e :: rest) sep).
Proof.
  unfold strings.Join. exact (Join_fold sep (String a "") rest e).
Qed.

Lemma splitByte_not_nil (c : ascii) (s : string) : splitByte c s <> [].
Proof.
  induction s as [|a s IH]; [done|]. cbn [splitByte].
  destruct (Ascii.eqb a c); [done|]. by destruct (splitByte c s).
Qed.

(** Joining the pieces with the separator gives the text back. *)
Lemma Join_splitByte (c : ascii) (s : string) :
  strings.Join (splitByte c s) (String c "") = s.
Proof.
  induction s as [|a s IH]; [reflexivity|]. cbn [splitByte].
  pose proof (splitByte_not_nil c s) as Hne.
  destruct (splitByte c s) as [|piece pieces]; [done|].
  destruct (Ascii.eqb_spec a c) as [->|Hac].
  - rewrite Join_cons, IH. reflexivity.
  - by rewrite Join_head, IH.
Qed.

Lemma free_of_cons (c a : ascii) (s : string) :
  free_of c (String a s) <-> a <> c /\ free_of c s.
Proof.
  unfold free_of. cbn [strings.CountByte].
  assert (H : 0 <= strings.CountByte s c).
  { clear. induction s as [|d s IH]; cbn [strings.CountByte]; [lia|].
    destruct (Ascii.eqb d c); lia. }
  destruct (Ascii.eqb_spec a c); split; try lia; intros []; try done; lia.
Qed.

Lemma free_of_app (c : ascii) (s t : string) :
  free_of c (s +:+ t) <-> free_of c s /\ free_of c t.
Proof.
  induction s as [|a s IH].
  - rewrite append_nil_l. unfold free_of at 2. cbn [strings.CountByte]. tauto.
  - rewrite append_cons, !free_of_cons, IH. tauto.
Qed.

Lemma splitByte_free (c : ascii) (s : string) : free_of c s -> splitByte c s = [s].
Proof.
  induction s as [|a s IH]; [done|]. intros [Hac Hs]%free_of_cons.
  cbn [splitByte]. rewrite (IH Hs).
  by destruct (Ascii.eqb_spec a c).
Qed.

(** A text that holds the separator is cut at its first occurrence. *)
Lemma splitByte_cut (c : ascii) (s t : string) :
  free_of c s -> splitByte c (s +:+ String c t) = s :: splitByte c t.
Proof.
  induction s as [|a s IH].
  - intros _. rewrite append_nil_l. cbn [splitByte]. by rewrite Ascii.eqb_refl.
  - intros [Hac Hs]%free_of_cons. rewrite append_cons. cbn [splitByte].
    rewrite (IH Hs). by destruct (Ascii.eqb_spec a c).
Qed.

(** Text without the separator, added at the end, lengthens the last piece. *)
Lemma splitByte_app_free (c : ascii) (s t : string) (init : list string) (l : string) :
  free_of c t -> splitByte c s = init ++ [l] ->
  splitByte c (s +:+ t) = init ++ [l +:+ t].
Proof.
  intros Ht. revert init l. induction s as [|a s IH]; intros init l Hs.
  - rewrite append_nil_l. cbn [splitByte] in Hs.
    destruct init as [|? [|? ?]]; [|done|done]. injection Hs as <-.
    by rewrite splitByte_free.
  - rewrite append_cons. cbn [splitByte] in *.
    destruct (Ascii.eqb a c).
    + destruct init as [|i init].
      * injection Hs as _ Hs. by destruct (splitByte_not_nil c s).
      * injection Hs as <- Hs. by rewrite (IH init l Hs).
    + destruct (splitByte c s) as [|piece pieces] eqn:E.
      { by destruct (splitByte_not_nil c s). }
      destruct init as [|i init].
      * destruct pieces; [|by destruct pieces]. injection Hs as <-.
        by rewrite (IH [] piece eq_refl).
      * injection Hs as <- Hs. by rewrite (IH (piece :: init) l ltac:(by rewrite Hs)).
Qed.

(** The pieces of a text hold no byte that the text does not hold. *)
Lemma splitByte_free_of (c d : ascii) (s : string) :
  free_of d s -> Forall (free_of d) (splitByte c s).
Proof.
  induction s as [|a s IH]; intros Hs.
  - by repeat constructor.
  - apply free_of_cons in Hs as [Had Hs]. specialize (IH Hs). cbn [splitByte].
    destruct (Ascii.eqb a c).
    + constructor; [done|exact IH].
    + destruct (splitByte c s) as [|piece pieces].
      * constructor; [|done]. by apply free_of_cons.
      * inversion IH; subst. constructor; [|done]. by apply free_of_cons.
Qed.

Lemma Join_snoc_app (sep : string) (init : list string) (l x : string) :
  strings.Join (init ++ [l +:+ x]) sep = strings.Join (init ++ [l]) sep +:+ x.
Proof.
  induction init as [|e init IH]; [reflexivity|].
  destruct init as [|e' init].
  - cbn [app]. by rewrite !Join_cons, !append_assoc.
  - cbn [app] in *. by rewrite !Join_cons, IH, !append_assoc.
Qed.

Lemma not_nil_snoc {A : Type} (l : list A) :
  l <> [] -> exists init x, l = init ++ [x].
Proof.
  intros Hl. destruct (exists_last Hl) as (init & x & ->). by exists init, x.
Qed.

(** No piece holds the separator. *)
Lemma splitByte_pieces (c : ascii) (s : string) : Forall (free_of c) (splitByte c s).
Proof.
  induction s as [|a s IH]; [by repeat constructor|]. cbn [splitByte].
  destruct (Ascii.eqb_spec a c) as [->|Hac].
  - by constructor.
  - destruct (splitByte c s) as [|piece pieces].
    + constructor; [|done]. by apply free_of_cons.
    + inversion IH; subst. constructor; [|done]. by apply free_of_cons.
Qed.

(** ** Field keys read from a key text *)

Section FieldKeys.

Variable fieldContexts : gmap string telemetrytypes.FieldContext.
Variable fieldDataTypes : gmap string telemetrytypes.FieldDataType.
Variable FieldContextUnspecified : telemetrytypes.FieldContext.
Variable FieldDataTypeUnspecified : telemetrytypes.FieldDataType.

Local Abbreviation GetFieldKeyFromKeyText :=
  (telemetrytypes.GetFieldKeyFromKeyText fieldContexts fieldDataTypes
     FieldContextUnspecified FieldDataTypeUnspecified).

(** X10: the name of the field key is a part of the key text.  What
    stands before it is nothing, when the key has no context, or a first
    dot-separated piece that the table of contexts maps to the key's
    context, and the dot; what stands after it is nothing, when the key has
    no data type, or a colon and the colon-separated piece that the table
    of data types maps to the key's data type, and whatever follows that
    piece from a second colon on, which is dropped. *)
Theorem GetFieldKeyFromKeyText_parts (key : string) :
  let f := GetFieldKeyFromKeyText key in
  exists before after,
    key = before +:+ telemetrytypes.Name f +:+ after /\
    ((before = "" /\ telemetrytypes.FieldContext_ f = FieldContextUnspecified) \/
     (exists t, before = t +:+ "." /\ free_of "." t /\
        fieldContexts !! t = Some (telemetrytypes.FieldContext_ f) /\
        telemetrytypes.FieldContext_ f <> FieldContextUnspecified)) /\
    ((after = "" /\ telemetrytypes.FieldDataType_ f = FieldDataTypeUnspecified) \/
     (exists t dropped, after = ":" +:+ t +:+ dropped /\ free_of ":" t /\
        fieldDataTypes !! t = Some (telemetrytypes.FieldDataType_ f) /\
        telemetrytypes.FieldDataType_ f <> FieldDataTypeUnspecified /\
        (dropped = "" \/ exists more, dropped = ":" +:+ more))).
Proof.
  unfold telemetrytypes.GetFieldKeyFromKeyText. rewrite Split_byte.
  pose proof (Join_splitByte "." key) as Hkey.
  pose proof (splitByte_not_nil "." key) as Hne.
  pose proof (splitByte_pieces "." key) as Hfree.
  set (parts := splitByte "." key) in *.
  set (found := if (1 <? length parts)%nat then fieldContexts !! nth 0 parts "" else None).
  set (provided := match found with
                   | Some c => negb (String.eqb c FieldContextUnspecified)
                   | None => false
                   end).
  set (parts' := if provided then drop 1 parts else parts).
  assert (H1 : exists before,
    key = before +:+ strings.Join parts' "." /\ parts' <> [] /\
    ((before = "" /\ provided = false) \/
     (exists t, before = t +:+ "." /\ free_of "." t /\
        fieldContexts !! t = Some (default "" found) /\
        default "" found <> FieldContextUnspecified /\ provided = true))).
  { destruct provided eqn:Ep; subst parts'.
    2:{ exists "". split; [by rewrite Hkey|]. split; [done|by left]. }
    subst provided found.
    destruct parts as [|p0 [|p1 ps]]; [done|done|].
    cbn [length Nat.ltb Nat.leb nth] in *.
    destruct (fieldContexts !! p0) as [c|] eqn:Ec; [|done].
    exists (p0 +:+ "."). cbn [drop]. split.
    { by rewrite <- Hkey, Join_cons, append_assoc. }
    split; [done|]. right. exists p0. split; [done|].
    split; [by inversion Hfree|]. split; [done|]. split; [|done].
    cbn [default]. by destruct (String.eqb_spec c FieldContextUnspecified). }
  destruct H1 as (before & Hbefore & Hne' & Hctx).
  set (ctx := default "" found) in *.
  clearbody parts' provided ctx. clear found parts Hkey Hne Hfree.
  destruct (not_nil_snoc parts' Hne') as (init & lastPart & ->).
  assert (Hlen : (length (init ++ [lastPart]) - 1)%nat = length init).
  { rewrite length_app. simpl. lia. }
  rewrite Hlen.
  assert (Hl : (1 <=? length (init ++ [lastPart]))%nat = true).
  { apply Nat.leb_le. rewrite length_app. simpl. lia. }
  rewrite Hl, nth_middle, Split_byte.
  pose proof (Join_splitByte ":" lastPart) as Hlast.
  pose proof (splitByte_not_nil ":" lastPart) as Hnl.
  pose proof (splitByte_pieces ":" lastPart) as Hfl.
  set (lastPartParts := splitByte ":" lastPart) in *.
  set (found := if (1 <? length lastPartParts)%nat
                then fieldDataTypes !! nth 1 lastPartParts "" else None).
  set (given := match found with
                | Some t => negb (String.eqb t FieldDataTypeUnspecified)
                | None => false
                end).
  exists before.
  assert (H2 : (given = false) \/
    (given = true /\ exists t dropped,
        lastPart = nth 0 lastPartParts "" +:+ ":" +:+ t +:+ dropped /\
        free_of ":" t /\
        fieldDataTypes !! t = Some (default "" found) /\
        default "" found <> FieldDataTypeUnspecified /\
        (dropped = "" \/ exists more, dropped = ":" +:+ more))).
  { destruct given eqn:Eg; [right|by left]. split; [done|].
    subst given found.
    destruct lastPartParts as [|l0 [|l1 ls]]; [done|done|].
    cbn [length Nat.ltb Nat.leb nth] in *.
    destruct (fieldDataTypes !! l1) as [d|] eqn:Ed; [|done].
    exists l1, (match ls with [] => "" | _ => ":" +:+ strings.Join ls ":" end).
    split.
    { rewrite <- Hlast, Join_cons. f_equal. f_equal.
      destruct ls as [|l2 ls]; [by rewrite append_nil_r|by rewrite Join_cons]. }
    split; [by inversion Hfl as [|? ? ? Hr]; inversion Hr|].
    split; [done|]. split.
    { cbn [default]. by destruct (String.eqb_spec d FieldDataTypeUnspecified). }
    destruct ls; [by left|right; by eexists]. }
  set (dataType := default "" found) in *.
  clearbody given dataType. cbn [telemetrytypes.Name
    telemetrytypes.FieldContext_ telemetrytypes.FieldDataType_].
  assert (Hc : (before = "" /\
                (if provided then ctx else FieldContextUnspecified)
                = FieldContextUnspecified) \/
     (exists t, before = t +:+ "." /\ free_of "." t /\
        fieldContexts !! t
        = Some (if provided then ctx else FieldContextUnspecified) /\
        (if provided then ctx else FieldContextUnspecified)
        <> FieldContextUnspecified)).
  { destruct Hctx as [[-> ->]|(t & -> & Ht & Hf & Hu & ->)]; [by left|].
    right. by exists t. }
  destruct H2 as [->|(-> & t & dropped & Hlp & Ht & Hf & Hu & Hd)].
  - exists "". rewrite append_nil_r. split; [done|]. split; [done|by left].
  - exists (":" +:+ t +:+ dropped).
    rewrite insert_app_r_alt, Nat.sub_diag by lia. cbn [insert list_insert].
    split; [|split; [done|]].
    + by rewrite Hbefore, Hlp, Join_snoc_app.
    + right. by exists t, dropped.
Qed.

(** X11: a key text in the documented format, a context, a dot, a name, a
    colon and a data type, is read back into its three parts, whatever
    dots the name holds. *)
Theorem GetFieldKeyFromKeyText_format (contextText name typeText : string)
    (context : telemetrytypes.FieldContext) (dataType : telemetrytypes.FieldDataType) :
  free_of "." contextText -> free_of ":" name ->
  free_of "." typeText -> free_of ":" typeText ->
  fieldContexts !! contextText = Some context ->
  context <> FieldContextUnspecified ->
  fieldDataTypes !! typeText = Some dataType ->
  dataType <> FieldDataTypeUnspecified ->
  GetFieldKeyFromKeyText (contextText +:+ "." +:+ name +:+ ":" +:+ typeText) =
  {| telemetrytypes.Name := name;
     telemetrytypes.Description := "";
     telemetrytypes.Unit := "";
     telemetrytypes.Signal_ := "";
     telemetrytypes.FieldContext_ := context;
     telemetrytypes.FieldDataType_ := dataType;
     telemetrytypes.Materialized := false |}.
Proof.
  intros Hc Hn Ht Ht' Hfc Hcu Hfd Hdu.
  unfold telemetrytypes.GetFieldKeyFromKeyText.
  unfold telemetrytypes.FieldContext, telemetrytypes.FieldDataType in *.
  change (contextText +:+ "." +:+ name +:+ ":" +:+ typeText)
    with (contextText +:+ String "." (name +:+ String ":" typeText)).
  rewrite Split_byte, (splitByte_cut "." contextText _ Hc).
  destruct (not_nil_snoc _ (splitByte_not_nil "." name)) as (init & l & Hs).
  assert (Hl : free_of ":" l).
  { pose proof (splitByte_free_of "." ":" name Hn) as Hf. rewrite Hs in Hf.
    apply Forall_app in Hf as [_ Hf]. by inversion Hf. }
  rewrite (splitByte_app_free "." name (String ":" typeText) init l);
    [|by apply free_of_cons|done].
  assert (Hlt : (1 <? length (contextText :: init ++ [l +:+ String ":" typeText]))%nat = true).
  { apply Nat.ltb_lt. cbn [length]. rewrite length_app. simpl. lia. }
  rewrite Hlt. cbn [nth]. rewrite Hfc. cbn [default].
  assert (Hcn : negb (String.eqb context FieldContextUnspecified) = true).
  { by destruct (String.eqb_spec context FieldContextUnspecified). }
  rewrite Hcn. cbn [drop]. rewrite !drop_0.
  assert (Hlen : (length (init ++ [l +:+ String ":" typeText]) - 1)%nat = length init).
  { rewrite length_app. simpl. lia. }
  assert (Hle : (1 <=? length (init ++ [l +:+ String ":" typeText]))%nat = true).
  { apply Nat.leb_le. rewrite length_app. simpl. lia. }
  rewrite Hlen, Hle, nth_middle, Split_byte.
  rewrite (splitByte_cut ":" l typeText Hl), (splitByte_free ":" typeText Ht').
  cbn [length Nat.ltb Nat.leb nth]. rewrite Hfd. cbn [default].
  assert (Hdn : negb (String.eqb dataType FieldDataTypeUnspecified) = true).
  { by destruct (String.eqb_spec dataType FieldDataTypeUnspecified). }
  rewrite Hdn, insert_app_r_alt, Nat.sub_diag by lia. cbn [insert list_insert].
  by rewrite <- Hs, Join_splitByte.
Qed.

End FieldKeys.

Lemma GetFieldKeyFromKeyText_format_witness :
  telemetrytypes.GetFieldKeyFromKeyText
    {["resource" := "resource"]} {["string" := "string"]} "" ""
    "resource.service.name:string" =
  {| telemetrytypes.Name := "service.name";
     telemetrytypes.Description := "";
     telemetrytypes.Unit := "";
     telemetrytypes.Signal_ := "";
     telemetrytypes.FieldContext_ := "resource";
     telemetrytypes.FieldDataType_ := "string";
     telemetrytypes.Materialized := false |}.
Proof.
  apply (GetFieldKeyFromKeyText_format
           {["resource" := "resource"]} {["string" := "string"]} "" ""
           "resource" "service.name" "string" "resource" "string");
    by vm_compute.
Defined.

(** ** Field keys in print *)

Section FieldKeyText.

Variable FieldContextUnspecified : telemetrytypes.FieldContext.
Variable FieldDataTypeUnspecified : telemetrytypes.FieldDataType.

Local Abbreviation TelemetryFieldKey_String :=
  (telemetrytypes.TelemetryFieldKey_String
     FieldContextUnspecified FieldDataTypeUnspecified).

(** The comma-separated pieces of the text of a key whose name, context
    and data type hold no comma. *)
Lemma TelemetryFieldKey_String_pieces (f : telemetrytypes.TelemetryFieldKey) :
  free_of "," (telemetrytypes.Name f) ->
  free_of "," (telemetrytypes.FieldContext_ f) ->
  free_of "," (telemetrytypes.FieldDataType_ f) ->
  splitByte "," (TelemetryFieldKey_String f) =
  ("name=" +:+ telemetrytypes.Name f) ::
  (if String.eqb (telemetrytypes.FieldContext_ f) FieldContextUnspecified then []
   else ["context=" +:+ telemetrytypes.FieldContext_ f]) ++
  (if String.eqb (telemetrytypes.FieldDataType_ f) FieldDataTypeUnspecified then []
   else ["datatype=" +:+ telemetrytypes.FieldDataType_ f]).
Proof.
  intros Hn Hc Hd. unfold telemetrytypes.TelemetryFieldKey_String.
  assert (Hn' : free_of "," ("name=" +:+ telemetrytypes.Name f)) by by apply free_of_app.
  assert (Hc' : free_of "," ("context=" +:+ telemetrytypes.FieldContext_ f))
    by by apply free_of_app.
  assert (Hd' : free_of "," ("datatype=" +:+ telemetrytypes.FieldDataType_ f))
    by by apply free_of_app.
  set (n := "name=" +:+ telemetrytypes.Name f) in *.
  set (c := "context=" +:+ telemetrytypes.FieldContext_ f) in *.
  set (d := "datatype=" +:+ telemetrytypes.FieldDataType_ f) in *.
  change (",context=" +:+ telemetrytypes.FieldContext_ f) with (String "," c).
  change (",datatype=" +:+ telemetrytypes.FieldDataType_ f) with (String "," d).
  destruct (String.eqb (telemetrytypes.FieldContext_ f) FieldContextUnspecified);
    destruct (String.eqb (telemetrytypes.FieldDataType_ f) FieldDataTypeUnspecified);
    cbn [negb app].
  - by apply splitByte_free.
  - by rewrite splitByte_cut, (splitByte_free "," d).
  - by rewrite splitByte_cut, (splitByte_free "," c).
  - rewrite append_assoc, append_cons, splitByte_cut by done.
    by rewrite splitByte_cut, (splitByte_free "," d).
Qed.

(** X12: the text that [String] prints tells the name, the context and
    the data type of a key, as long as none of the three holds a comma. *)
Theorem TelemetryFieldKey_String_inj (f g : telemetrytypes.TelemetryFieldKey) :
  free_of "," (telemetrytypes.Name f) ->
  free_of "," (telemetrytypes.FieldContext_ f) ->
  free_of "," (telemetrytypes.FieldDataType_ f) ->
  free_of "," (telemetrytypes.Name g) ->
  free_of "," (telemetrytypes.FieldContext_ g) ->
  free_of "," (telemetrytypes.FieldDataType_ g) ->
  TelemetryFieldKey_String f = TelemetryFieldKey_String g ->
  telemetrytypes.Name f = telemetrytypes.Name g /\
  telemetrytypes.FieldContext_ f = telemetrytypes.FieldContext_ g /\
  telemetrytypes.FieldDataType_ f = telemetrytypes.FieldDataType_ g.
Proof.
  intros Hfn Hfc Hfd Hgn Hgc Hgd He.
  apply (f_equal (splitByte ",")) in He.
  rewrite !TelemetryFieldKey_String_pieces in He by done.
  destruct (String.eqb_spec (telemetrytypes.FieldContext_ f) FieldContextUnspecified) as [Ef|Ef];
    destruct (String.eqb_spec (telemetrytypes.FieldDataType_ f) FieldDataTypeUnspecified) as [Ef'|Ef'];
    destruct (String.eqb_spec (telemetrytypes.FieldContext_ g) FieldContextUnspecified) as [Eg|Eg];
    destruct (String.eqb_spec (telemetrytypes.FieldDataType_ g) FieldDataTypeUnspecified) as [Eg'|Eg'];
    cbn [app] in He; try discriminate He.
  all: simplify_eq/=.
  all: repeat split; congruence.
Qed.

End FieldKeyText.

Lemma TelemetryFieldKey_String_inj_witness :
  "service.name" = "service.name" /\ "resource" = "resource" /\ "string" = "string".
Proof.
  apply (TelemetryFieldKey_String_inj "" ""
           (telemetrytypes.mkTelemetryFieldKey "service.name" "" "" "" "resource" "string" false)
           (telemetrytypes.mkTelemetryFieldKey "service.name" "the service" "" "traces"
              "resource" "string" true));
    by vm_compute.
Defined.

(** ** Names of materialized columns *)

Lemma append_inj_l (s a b : string) : s +:+ a = s +:+ b -> a = b.
Proof.
  induction s as [|c s IH]; [done|]. rewrite !append_cons. intros [= H]. by apply IH.
Qed.

Lemma append_inj_r (a b : string) (c : ascii) :
  a +:+ String c "" = b +:+ String c "" -> a = b.
Proof.
  revert b. induction a as [|x a IH]; intros [|y b]; rewrite ?append_cons, ?append_nil_l.
  - done.
  - intros [= -> H]. by destruct b.
  - intros [= -> H]. by destruct a.
  - intros [= -> H]. f_equal. by apply IH.
Qed.

(** Writing [$$] for each dot loses nothing on names that hold no [$]. *)
Lemma replaceByte_dot_inj (n1 n2 : string) :
  free_of "$" n1 -> free_of "$" n2 ->
  replaceByte "." "$$" n1 = replaceByte "." "$$" n2 -> n1 = n2.
Proof.
  revert n2. induction n1 as [|a n1 IH]; intros [|b n2] H1 H2; cbn [replaceByte].
  - done.
  - destruct (Ascii.eqb b "."); discriminate.
  - destruct (Ascii.eqb a "."); discriminate.
  - apply free_of_cons in H1 as [Ha H1]. apply free_of_cons in H2 as [Hb H2].
    destruct (Ascii.eqb_spec a ".") as [->|Had];
      destruct (Ascii.eqb_spec b ".") as [->|Hbd].
    + intros [= H]. f_equal. by apply IH.
    + intros [= <- _]. done.
    + intros [= -> _]. done.
    + intros [= -> H]. f_equal. by apply IH.
Qed.

Lemma replaceByte_free (c : ascii) (new s : string) :
  free_of c new -> free_of c (replaceByte c new s).
Proof.
  intros Hn. induction s as [|a s IH]; [done|]. cbn [replaceByte].
  destruct (Ascii.eqb_spec a c) as [->|Hac].
  - by apply free_of_app.
  - by apply free_of_cons.
Qed.

Section ColumnNames.

Variable fieldDataTypes : gmap string telemetrytypes.FieldDataType.

Local Abbreviation FieldKeyToMaterializedColumnName :=
  (telemetrytypes.FieldKeyToMaterializedColumnName fieldDataTypes).
Local Abbreviation FieldKeyToMaterializedColumnNameForExists :=
  (telemetrytypes.FieldKeyToMaterializedColumnNameForExists fieldDataTypes).

(** X13: two keys of one context and one data type whose names hold no
    [$] have the same column name only if they have the same name.  Names
    with a [$] can collide: [a.b] and [a$$b] share their column. *)
Theorem FieldKeyToMaterializedColumnName_inj :
  (forall k1 k2 : telemetrytypes.TelemetryFieldKey,
     telemetrytypes.FieldContext_ k1 = telemetrytypes.FieldContext_ k2 ->
     telemetrytypes.FieldDataType_ k1 = telemetrytypes.FieldDataType_ k2 ->
     free_of "$" (telemetrytypes.Name k1) -> free_of "$" (telemetrytypes.Name k2) ->
     FieldKeyToMaterializedColumnName (Some k1) = FieldKeyToMaterializedColumnName (Some k2) ->
     telemetrytypes.Name k1 = telemetrytypes.Name k2) /\
  (forall context dataType,
     FieldKeyToMaterializedColumnName
       (Some (telemetrytypes.mkTelemetryFieldKey "a.b" "" "" "" context dataType false)) =
     FieldKeyToMaterializedColumnName
       (Some (telemetrytypes.mkTelemetryFieldKey "a$$b" "" "" "" context dataType false))).
Proof.
  split.
  - intros k1 k2 Hc Hd H1 H2. unfold telemetrytypes.FieldKeyToMaterializedColumnName.
    rewrite Hc, Hd, !ReplaceAll_byte by done. intros [= H].
    do 5 apply append_inj_l in H. apply append_inj_r in H.
    by apply replaceByte_dot_inj.
  - intros context dataType. reflexivity.
Qed.

(** X14: the column that records existence is named as the column itself,
    with [_exists] before the closing backquote; and a dot in a column
    name comes from the context or from the data type, never from the
    name of the key. *)
Theorem FieldKeyToMaterializedColumnName_shape (key : telemetrytypes.TelemetryFieldKey) :
  exists body,
    FieldKeyToMaterializedColumnName (Some key) = Returns ("`" +:+ body +:+ "`") /\
    FieldKeyToMaterializedColumnNameForExists (Some key)
    = Returns ("`" +:+ body +:+ "_exists`") /\
    (free_of "." (telemetrytypes.FieldContext_ key) ->
     free_of "." (default "" (fieldDataTypes !! telemetrytypes.FieldDataType_ key)) ->
     free_of "." body).
Proof.
  unfold telemetrytypes.FieldKeyToMaterializedColumnName,
    telemetrytypes.FieldKeyToMaterializedColumnNameForExists.
  exists (telemetrytypes.FieldContext_ key +:+ "_" +:+
          default "" (fieldDataTypes !! telemetrytypes.FieldDataType_ key) +:+ "_" +:+
          strings.ReplaceAll (telemetrytypes.Name key) "." "$$").
  split; [by rewrite !append_assoc|]. split; [by rewrite !append_assoc|].
  intros Hc Hd. rewrite ReplaceAll_byte by done.
  repeat (apply free_of_app; split); try done.
  by apply replaceByte_free.
Qed.

End ColumnNames.

(** ** Values of colliding data types *)

Lemma foldl_insert_imap {A B : Type} (g : A -> B)
    (f : list B -> nat * A -> list B) (l : list A) :
  (forall out i x, f out (i, x) = <[i := g x]> out) ->
  forall (k : nat) (written rest : list B),
    length written = k -> length rest = length l ->
    foldl f (written ++ rest) (imap (fun i x => ((k + i)%nat, x)) l) = written ++ map g l.
Proof.
  intros Hf. induction l as [|x l IH]; intros k written rest Hk Hr.
  - destruct rest; [done|discriminate].
  - destruct rest as [|r rest]; [discriminate|]. injection Hr as Hr.
    cbn [imap foldl map]. rewrite Hf, Nat.add_0_r.
    rewrite insert_app_r_alt, Hk, Nat.sub_diag by lia. cbn [insert list_insert].
    rewrite (imap_ext _ (fun i x => ((S k + i)%nat, x))).
    2:{ intros i y _. simpl. f_equal. lia. }
    rewrite (cons_middle (g x) written rest), app_assoc.
    rewrite (IH (S k) (written ++ [g x]) rest); [|rewrite length_app; simpl; lia|done].
    by rewrite <- app_assoc.
Qed.

Lemma foldl_insert_seq {A : Type} (g : A -> A) (f : list A -> nat -> list A) :
  (forall v i, f v i = match v !! i with Some x => <[i := g x]> v | None => v end) ->
  forall (rest written : list A),
    foldl f (written ++ rest) (seq (length written) (length rest))
    = written ++ map g rest.
Proof.
  intros Hf. induction rest as [|x rest IH]; intros written; [done|].
  cbn [length seq foldl map]. rewrite Hf.
  rewrite lookup_app_r, Nat.sub_diag by lia. cbn [lookup list_lookup].
  rewrite insert_app_r_alt, Nat.sub_diag by lia. cbn [insert list_insert].
  rewrite (cons_middle (g x) written rest), app_assoc.
  replace (S (length written)) with (length (written ++ [g x]))
    by (rewrite length_app; simpl; lia).
  by rewrite IH, <- app_assoc.
Qed.

Lemma toStrings_map (formatV : telemetrytypes.any -> string) (in_ : list telemetrytypes.any) :
  telemetrytypes.toStrings formatV in_ = map (stringItem formatV) in_.
Proof.
  unfold telemetrytypes.toStrings.
  apply (foldl_insert_imap (stringItem formatV) _ in_) with (k := 0%nat) (written := []).
  - intros out i x. by destruct x.
  - done.
  - by rewrite length_replicate.
Qed.

Lemma toFloat64s_map (in_ : list telemetrytypes.any) :
  telemetrytypes.toFloat64s in_ = map floatItem in_.
Proof.
  unfold telemetrytypes.toFloat64s.
  apply (foldl_insert_imap floatItem _ in_) with (k := 0%nat) (written := []).
  - intros out i x. by destruct x.
  - done.
  - by rewrite length_replicate.
Qed.

Lemma boolItems_map (v : list telemetrytypes.any) :
  telemetrytypes.boolItems v = map boolItem v.
Proof.
  unfold telemetrytypes.boolItems.
  apply (foldl_insert_seq boolItem _) with (written := []).
  intros w i. destruct (w !! i) as [[]|]; reflexivity.
Qed.

Lemma length_append (s t : string) :
  String.length (s +:+ t) = (String.length s + String.length t)%nat.
Proof. induction s as [|c s IH]; [done|]. rewrite append_cons. simpl. by rewrite IH. Qed.

Lemma castFloat_quoted_neq (s : string) :
  telemetrytypes.castFloat (telemetrytypes.quoted s) <> s.
Proof.
  intros H. apply (f_equal String.length) in H.
  unfold telemetrytypes.castFloat, telemetrytypes.quoted in H.
  rewrite !length_append in H. simpl in H. lia.
Qed.

Lemma map_id_on {A : Type} (f : A -> A) (l : list A) :
  Forall (fun x => f x = x) l -> map f l = l.
Proof. induction 1 as [|x l Hx _ IH]; [done|]. simpl. by rewrite Hx, IH. Qed.

Section Collisions.

Variables FieldDataTypeString FieldDataTypeFloat64 FieldDataTypeInt64
  FieldDataTypeNumber FieldDataTypeBool : telemetrytypes.FieldDataType.
Variable formatV : telemetrytypes.any -> string.

Local Abbreviation toStrings := (telemetrytypes.toStrings formatV).
Local Abbreviation DataTypeCollisionHandledFieldName :=
  (telemetrytypes.DataTypeCollisionHandledFieldName
     FieldDataTypeString FieldDataTypeFloat64 FieldDataTypeInt64
     FieldDataTypeNumber FieldDataTypeBool formatV).

(** X15: [toStrings] and [toFloat64s] return as many values as they are
    given.  [toStrings] returns strings only and gives a list of strings
    back as it is; [toFloat64s] gives a list without strings back as it
    is, and every string it returns is a call of [toFloat64OrNull] on a
    quoted text. *)
Theorem toStrings_toFloat64s_lists (in_ : list telemetrytypes.any) :
  (length (toStrings in_) = length in_ /\
   forallb is_string (toStrings in_) = true /\
   (forallb is_string in_ = true -> toStrings in_ = in_)) /\
  (length (telemetrytypes.toFloat64s in_) = length in_ /\
   (existsb is_string in_ = false -> telemetrytypes.toFloat64s in_ = in_) /\
   forall s, In (telemetrytypes.AString s) (telemetrytypes.toFloat64s in_) ->
     exists str, s = "toFloat64OrNull('" +:+ str +:+ "')").
Proof.
  rewrite toStrings_map, toFloat64s_map. split; split.
  - by rewrite length_map.
  - split.
    + apply forallb_forall. intros x [y [<- _]]%in_map_iff. by destruct y.
    + intros H. apply map_id_on, List.Forall_forall. intros x Hx.
      rewrite forallb_forall in H. specialize (H x Hx). by destruct x.
  - by rewrite length_map.
  - split.
    + intros H. apply map_id_on, List.Forall_forall. intros x Hx.
      destruct x; try done.
      assert (Ht : existsb is_string in_ = true); [|congruence].
      apply existsb_exists. by eexists.
    + intros s [y [Hy _]]%in_map_iff. destruct y; try discriminate.
      injection Hy as <-. exists s0.
      unfold telemetrytypes.castFloat, telemetrytypes.quoted.
      by rewrite (append_assoc "'" (s0 +:+ "'") ")"), (append_assoc s0 "'" ")").
Qed.

(** X16: for a key of the string type, and for a key of the bool type
    that is none of the number types, the handled value is handled into
    itself: a second call changes nothing. *)
Theorem DataTypeCollisionHandledFieldName_again (key : telemetrytypes.TelemetryFieldKey)
    (value : telemetrytypes.any) (tblFieldName : string) (r : telemetrytypes.handled) :
  telemetrytypes.FieldDataType_ key = FieldDataTypeString \/
  (telemetrytypes.FieldDataType_ key = FieldDataTypeBool /\
   FieldDataTypeBool <> FieldDataTypeFloat64 /\
   FieldDataTypeBool <> FieldDataTypeInt64 /\
   FieldDataTypeBool <> FieldDataTypeNumber) ->
  DataTypeCollisionHandledFieldName (Some key) value tblFieldName = Returns r ->
  DataTypeCollisionHandledFieldName (Some key) (telemetrytypes.value r) tblFieldName
  = Returns (telemetrytypes.mkHandled tblFieldName
               (telemetrytypes.value r) (telemetrytypes.value r)).
Proof.
  intros Hkey. unfold telemetrytypes.DataTypeCollisionHandledFieldName.
  assert (Hs : forall v, map (stringItem formatV) (map (stringItem formatV) v)
                         = map (stringItem formatV) v).
  { intros v. apply map_id_on, List.Forall_forall.
    intros x [y [<- _]]%in_map_iff. by destruct y. }
  assert (Hb : forall v, map boolItem (map boolItem v) = map boolItem v).
  { intros v. apply map_id_on, List.Forall_forall.
    intros x [y [<- _]]%in_map_iff. by destruct y. }
  destruct (String.eqb_spec (telemetrytypes.FieldDataType_ key) FieldDataTypeString)
    as [_|Hns].
  { intros [= <-]. cbn [telemetrytypes.value].
    destruct value; try reflexivity.
    by rewrite !toStrings_map, Hs. }
  destruct Hkey as [?|(Hk & Hf & Hi & Hn)]; [done|]. rewrite Hk.
  destruct (String.eqb_spec FieldDataTypeBool FieldDataTypeFloat64); [done|].
  destruct (String.eqb_spec FieldDataTypeBool FieldDataTypeInt64); [done|].
  destruct (String.eqb_spec FieldDataTypeBool FieldDataTypeNumber); [done|].
  cbn [orb]. rewrite String.eqb_refl.
  destruct value; intros [= <-]; cbn [telemetrytypes.value]; try reflexivity.
  by rewrite !boolItems_map, Hb.
Qed.

(** X17: the field name is returned as it is given.  The caller's value
    is left as it was, except for a list under a key of the bool type:
    that list is overwritten in place, each item by the bool read from it,
    and is the value returned.  For a key of a number type a string is
    wrapped anew at each call. *)
Theorem DataTypeCollisionHandledFieldName_argument (key : telemetrytypes.TelemetryFieldKey)
    (value : telemetrytypes.any) (tblFieldName : string) :
  exists r,
    DataTypeCollisionHandledFieldName (Some key) value tblFieldName = Returns r /\
    telemetrytypes.fieldName r = tblFieldName /\
    (telemetrytypes.argument r = value \/
     exists v, value = telemetrytypes.ASlice v /\
       telemetrytypes.FieldDataType_ key = FieldDataTypeBool /\
       telemetrytypes.argument r = telemetrytypes.ASlice (map boolItem v) /\
       telemetrytypes.value r = telemetrytypes.ASlice (map boolItem v)) /\
    (telemetrytypes.FieldDataType_ key = FieldDataTypeBool ->
     FieldDataTypeBool <> FieldDataTypeString ->
     FieldDataTypeBool <> FieldDataTypeFloat64 ->
     FieldDataTypeBool <> FieldDataTypeInt64 ->
     FieldDataTypeBool <> FieldDataTypeNumber ->
     forall v, value = telemetrytypes.ASlice v ->
       telemetrytypes.argument r = telemetrytypes.ASlice (map boolItem v) /\
       forallb is_bool (map boolItem v) = true) /\
    (telemetrytypes.FieldDataType_ key <> FieldDataTypeString ->
     telemetrytypes.FieldDataType_ key = FieldDataTypeFloat64 \/
     telemetrytypes.FieldDataType_ key = FieldDataTypeInt64 \/
     telemetrytypes.FieldDataType_ key = FieldDataTypeNumber ->
     forall s, value = telemetrytypes.AString s ->
       telemetrytypes.value r
       = telemetrytypes.AString ("toFloat64OrNull('" +:+ s +:+ "')") /\
       telemetrytypes.value r <> value).
Proof.
  unfold telemetrytypes.DataTypeCollisionHandledFieldName.
  destruct (String.eqb_spec (telemetrytypes.FieldDataType_ key) FieldDataTypeString)
    as [Hs|Hns].
  { eexists. split; [reflexivity|]. split; [reflexivity|]. split; [by left|].
    split; [|done]. intros Hb Hbs. congruence. }
  destruct (String.eqb (telemetrytypes.FieldDataType_ key) FieldDataTypeFloat64
            || String.eqb (telemetrytypes.FieldDataType_ key) FieldDataTypeInt64
            || String.eqb (telemetrytypes.FieldDataType_ key) FieldDataTypeNumber)
    eqn:En.
  { eexists. split; [reflexivity|]. split; [reflexivity|]. split; [by left|]. split.
    - intros Hb _ Hf Hi Hn. rewrite Hb in En.
      apply orb_true_iff in En as [En|En%String.eqb_eq]; [|done].
      by apply orb_true_iff in En as [En%String.eqb_eq|En%String.eqb_eq].
    - intros _ _ s ->. cbn [telemetrytypes.value]. split.
      + unfold telemetrytypes.castFloat, telemetrytypes.quoted.
        by rewrite (append_assoc "'" (s +:+ "'") ")"), (append_assoc s "'" ")").
      + intros [= H]. by apply castFloat_quoted_neq in H. }
  assert (Hnum : ~ (telemetrytypes.FieldDataType_ key = FieldDataTypeFloat64 \/
                    telemetrytypes.FieldDataType_ key = FieldDataTypeInt64 \/
                    telemetrytypes.FieldDataType_ key = FieldDataTypeNumber)).
  { intros H. rewrite <- !String.eqb_eq, <- !orb_true_iff, orb_assoc in H. congruence. }
  destruct (String.eqb_spec (telemetrytypes.FieldDataType_ key) FieldDataTypeBool)
    as [Hb|Hnb].
  2:{ eexists. split; [reflexivity|]. split; [reflexivity|]. split; [by left|].
      by split. }
  assert (Hbools : forall v, forallb is_bool (map boolItem v) = true).
  { intros v. apply forallb_forall. intros x [y [<- _]]%in_map_iff. by destruct y. }
  destruct value as [|s|f|b|n|v];
    (eexists; split; [reflexivity|]; split; [reflexivity|]).
  all: cbn [telemetrytypes.argument telemetrytypes.value].
  all: try (split; [by left|]; split; [by intros _ _ _ _ _ ? [=]|done]).
  rewrite boolItems_map. split; [right; by exists v|].
  split; [|done]. intros _ _ _ _ _ w [= <-]. by split.
Qed.

End Collisions.

Lemma DataTypeCollisionHandledFieldName_again_witness :
  telemetrytypes.DataTypeCollisionHandledFieldName
    "string" "float64" "int64" "number" "bool" (fun _ => "1")
    (Some (telemetrytypes.mkTelemetryFieldKey "is_error" "" "" "" "" "bool" false))
    (telemetrytypes.ASlice [telemetrytypes.ABool true; telemetrytypes.ABool false])
    "attributes_bool"
  = Returns (telemetrytypes.mkHandled "attributes_bool"
      (telemetrytypes.ASlice [telemetrytypes.ABool true; telemetrytypes.ABool false])
      (telemetrytypes.ASlice [telemetrytypes.ABool true; telemetrytypes.ABool false])).
Proof.
  apply (DataTypeCollisionHandledFieldName_again
           "string" "float64" "int64" "number" "bool" (fun _ => "1")
           (telemetrytypes.mkTelemetryFieldKey "is_error" "" "" "" "" "bool" false)
           (telemetrytypes.ASlice [telemetrytypes.AString "true"; telemetrytypes.AInt64 1])
           "attributes_bool"
           (telemetrytypes.mkHandled "attributes_bool"
              (telemetrytypes.ASlice [telemetrytypes.ABool true; telemetrytypes.ABool false])
              (telemetrytypes.ASlice [telemetrytypes.ABool true; telemetrytypes.ABool false]))).
  - right. repeat split; discriminate.
  - reflexivity.
Defined.

(** ** The tuples of a user *)

Section UserTuples.

Variables Relation Selector err : Type.
Variable Relation_StringValue : Relation -> string.
Variable Selector_String : Selector -> string.
Variable TypeUser : string.

Local Abbreviation Typeable := (authtypes.Typeable Relation Selector err).
Local Abbreviation collect := (authtypes.collect Relation Selector err).
Local Abbreviation user_Tuples :=
  (authtypes.user_Tuples Relation Selector err
     Relation_StringValue Selector_String TypeUser).

(** The tuple that stands for the user itself. *)
Local Abbreviation own subject relation selector :=
  (authtypes.mkCheckRequestTupleKey subject (Relation_StringValue relation)
     (TypeUser +:+ ":" +:+ Selector_String selector)).

Lemma Join_pair (a b sep : string) : strings.Join [a; b] sep = a +:+ sep +:+ b.
Proof. unfold strings.Join. cbn [fold_left]. apply append_assoc. Qed.

Lemma collect_ok (subject : string) (relation : Relation) (parent : Typeable)
    (parentSelectors : list Selector) (tuples result : list authtypes.CheckRequestTupleKey) :
  collect subject relation (Some parent) parentSelectors tuples = Returns (inl result) <->
  exists found,
    Forall2 (fun selector ts => parent subject relation selector = inl ts)
      parentSelectors found /\
    result = tuples ++ concat found.
Proof.
  revert tuples. induction parentSelectors as [|selector rest IH]; intros tuples;
    cbn [authtypes.collect].
  - split.
    + intros [= <-]. exists []. split; [constructor|]. by rewrite app_nil_r.
    + intros (found & Hf & ->). inversion Hf; subst. by rewrite app_nil_r.
  - destruct (parent subject relation selector) as [ts|e] eqn:Ep.
    + rewrite IH. split.
      * intros (found & Hf & ->). exists (ts :: found). split; [by constructor|].
        by rewrite <- app_assoc.
      * intros (found & Hf & ->). inversion Hf as [|? t ? found' Ht Hf']; subst.
        assert (t = ts) as -> by congruence.
        exists found'. split; [done|]. by rewrite <- app_assoc.
    + split; [done|]. intros (found & Hf & _).
      inversion Hf as [|? t ? found' Ht Hf']; subst. congruence.
Qed.

Lemma collect_err (subject : string) (relation : Relation) (parent : Typeable)
    (parentSelectors : list Selector) (tuples : list authtypes.CheckRequestTupleKey)
    (e : err) :
  collect subject relation (Some parent) parentSelectors tuples = Returns (inr e) <->
  exists before selector after,
    parentSelectors = before ++ selector :: after /\
    Forall (fun s => exists ts, parent subject relation s = inl ts) before /\
    parent subject relation selector = inr e.
Proof.
  revert tuples. induction parentSelectors as [|selector rest IH]; intros tuples;
    cbn [authtypes.collect].
  - split; [done|]. intros (before & s & after & H & _). by destruct before.
  - destruct (parent subject relation selector) as [ts|e'] eqn:Ep.
    + rewrite IH. split.
      * intros (before & s & after & -> & Hb & He).
        exists (selector :: before), s, after. split; [done|]. split; [|done].
        constructor; [by exists ts|done].
      * intros (before & s & after & H & Hb & He). destruct before as [|b before].
        -- injection H as <- _. congruence.
        -- injection H as <- ->. inversion Hb; subst. by exists before, s, after.
    + split.
      * intros [= <-]. by exists [], selector, rest.
      * intros (before & s & after & H & Hb & He). destruct before as [|b before].
        -- injection H as <- _. congruence.
        -- injection H as <- _. inversion Hb as [|? ? [ts Hts] ?]; subst. congruence.
Qed.

Lemma collect_returns (subject : string) (relation : Relation) (parent : Typeable)
    (parentSelectors : list Selector) (tuples : list authtypes.CheckRequestTupleKey) :
  exists r, collect subject relation (Some parent) parentSelectors tuples = Returns r.
Proof.
  revert tuples. induction parentSelectors as [|selector rest IH]; intros tuples;
    cbn [authtypes.collect]; [by eexists|].
  destruct (parent subject relation selector); [apply IH|by eexists].
Qed.

(** X18: with a parent, [Tuples] succeeds exactly when the parent gives
    tuples for every parent selector, and then returns those tuples, in the
    order of the selectors, followed by one tuple for the user: the
    subject, the relation and the object made of the user type, a colon and
    the selector.  The tuple of the user is always the last one. *)
Theorem user_Tuples_ok (subject : string) (relation : Relation) (selector : Selector)
    (parent : Typeable) (parentSelectors : list Selector)
    (result : list authtypes.CheckRequestTupleKey) :
  user_Tuples subject relation selector (Some parent) parentSelectors
  = Returns (inl result) <->
  exists found,
    Forall2 (fun s ts => parent subject relation s = inl ts) parentSelectors found /\
    result = concat found ++ [own subject relation selector].
Proof.
  unfold authtypes.user_Tuples. rewrite Join_pair.
  destruct (collect subject relation (Some parent) parentSelectors []) as [[ts|e]|w] eqn:Ec.
  - apply collect_ok in Ec as (found & Hf & ->). cbn [app]. split.
    + intros [= <-]. by exists found.
    + intros (found' & Hf' & ->). do 3 f_equal.
      clear -Hf Hf'. revert found' Hf'.
      induction Hf as [|s t ss found Ht _ IH]; intros found' Hf'; inversion Hf'; subst.
      * done.
      * cbn [concat]. f_equal; [congruence|by apply IH].
  - split; [done|]. intros (found & Hf & _).
    assert (Hok : collect subject relation (Some parent) parentSelectors []
                  = Returns (inl ([] ++ concat found))).
    { apply collect_ok. by exists found. }
    congruence.
  - by destruct (collect_returns subject relation parent parentSelectors []) as [r Hr];
      rewrite Hr in Ec.
Qed.

(** X19: with a parent, [Tuples] fails exactly when the parent fails
    for some parent selector, and returns the error of the first selector
    for which it fails; the selectors after that one are not looked at.
    Without a parent ([nil]) it returns the one tuple of the user when
    there is no parent selector, and panics when there is one. *)
Theorem user_Tuples_err (subject : string) (relation : Relation) (selector : Selector)
    (parentSelectors : list Selector) :
  (forall (parent : Typeable) (e : err),
     user_Tuples subject relation selector (Some parent) parentSelectors
     = Returns (inr e) <->
     exists before failing after,
       parentSelectors = before ++ failing :: after /\
       Forall (fun s => exists ts, parent subject relation s = inl ts) before /\
       parent subject relation failing = inr e) /\
  (forall (parent : Typeable) what,
     user_Tuples subject relation selector (Some parent) parentSelectors
     <> Panics what) /\
  (user_Tuples subject relation selector None parentSelectors =
   match parentSelectors with
   | [] => Returns (inl [own subject relation selector])
   | _ :: _ => Panics "invalid memory address or nil pointer dereference"
   end).
Proof.
  split; [|split].
  - intros parent e. rewrite <- (collect_err subject relation parent parentSelectors [] e).
    unfold authtypes.user_Tuples.
    destruct (collect subject relation (Some parent) parentSelectors [])
      as [[ts|e']|w]; split; congruence.
  - intros parent what. unfold authtypes.user_Tuples.
    destruct (collect_returns subject relation parent parentSelectors []) as [r ->].
    by destruct r.
  - unfold authtypes.user_Tuples. rewrite Join_pair. by destruct parentSelectors.
Qed.

End UserTuples.
